(** * RVC Model Installer: the model-folder manager, embedded and verified

    The program is a thin layer over the filesystem: it lists the model
    folders under a root directory ([load_models]), imports dropped files and
    folders ([handle_dropped_item]), renames a listed folder
    ([rename_model]) and reads the persisted root ([get_model_path]).

    The embedding is shallow.  The filesystem is an explicit state, a finite
    map from absolute paths to nodes; every operation of [pathlib], [os] and
    [shutil] that the program calls is a state transformer that either
    returns or raises, and the program's methods thread that state exactly in
    the order of the source.  Message boxes are collected in a list.

    Conventions of the model:
    - a path is the list of its components, innermost first, so that the
      parent is the tail and the final component is the head:
      [/models/voiceA/voiceA.pth] is [["voiceA.pth"; "voiceA"; "models"]];
      [abs] builds a path from its components in reading order;
    - names are byte strings compared exactly (a case-sensitive filesystem
      with [/] as separator); there are no symbolic links and no [..]
      components;
    - I/O on the model folders fails only for structural reasons (a missing
      parent, an existing target, a file where a directory is needed, a copy
      nested deeper than the interpreter allows); permissions and disk space
      are not modelled there;
    - the persistence file is a state of its own, with the outcomes of
      [os.stat], [open], the codec and the newline translation of text mode
      written out, the failing ones included. *)

From Stdlib Require Import Ascii Decimal DecimalNat DecimalString.
From stdpp Require Import base option list strings sorting gmap fin_maps.

(** ** Strings: [str.rfind], [PurePath.suffix], [PurePath.stem], [str(int)] *)

(** [name.rfind('.')], [None] for Python's [-1]. *)
Fixpoint rfind_dot (s : string) : option nat :=
  match s with
  | "" => None
  | String c t =>
      match rfind_dot t with
      | Some i => Some (S i)
      | None => if Ascii.eqb c "."%char then Some 0 else None
      end
  end.

(** The test [0 < i < len(name) - 1] shared by [suffix] and [stem]: a
    leading dot and a trailing dot do not start a suffix. *)
Definition dot_splits (name : string) (i : nat) : bool :=
  (0 <? i) && (i <? String.length name - 1).

(** [PurePath.suffix] on the final component: [name[i:]] or ['']. *)
Definition suffix (name : string) : string :=
  match rfind_dot name with
  | Some i =>
      if dot_splits name i
      then String.substring i (String.length name - i) name
      else ""
  | None => ""
  end.

(** [PurePath.stem] on the final component: [name[:i]] or [name]. *)
Definition stem (name : string) : string :=
  match rfind_dot name with
  | Some i => if dot_splits name i then String.substring 0 i name else name
  | None => name
  end.

(** [str(counter)] for a non-negative [int]. *)
Definition str_of_nat (n : nat) : string :=
  NilEmpty.string_of_uint (Nat.to_uint n).

(** [f"{model_name}_{counter}"]. *)
Definition numbered (model_name : string) (counter : nat) : string :=
  model_name +:+ "_" +:+ str_of_nat counter.

Fixpoint no_slash (s : string) : bool :=
  match s with
  | "" => true
  | String c t => negb (Ascii.eqb c "/"%char) && no_slash t
  end.

(** ** Paths *)

Abbreviation path := (list string).

(** [abs ["models"; "voiceA"]] is [/models/voiceA]. *)
Definition abs (components : list string) : path := reverse components.

(** [Path.name]: the final component, [''] for the root. *)
Definition name (p : path) : string :=
  match p with
  | [] => ""
  | c :: _ => c
  end.

(** [Path.parent]; the root is its own parent. *)
Definition parent (p : path) : path := tail p.

(** The text of a path between slashes. *)
Fixpoint components (s : string) : list string :=
  match s with
  | "" => [""]
  | String c t =>
      if Ascii.eqb c "/"%char then "" :: components t
      else match components t with
           | h :: r => String c h :: r
           | [] => [String c ""]
           end
  end.

(** [pathlib] drops empty and [.] components when it parses a string. *)
Definition kept (c : string) : bool :=
  negb (String.eqb c "") && negb (String.eqb c ".").

Definition parts (s : string) : list string := filter (λ c, Is_true (kept c)) (components s).

Definition is_absolute (s : string) : bool :=
  match s with
  | String c _ => Ascii.eqb c "/"%char
  | "" => false
  end.

(** [base / s] for a [Path] and a [str]: an absolute [s] replaces [base]. *)
Definition joinpath (base : path) (s : string) : path :=
  if is_absolute s then reverse (parts s) else reverse (parts s) ++ base.

(** A name as a directory entry carries it: not empty, no separator, and
    neither [.] nor [..]. *)
Definition plain_name (c : string) : bool :=
  no_slash c && negb (String.eqb c "") && negb (String.eqb c ".")
  && negb (String.eqb c "..").

(** ** The filesystem *)

Inductive node :=
  | File (data : string) (mtime : nat)
  | Dir.

Global Instance node_eq_dec : EqDecision node.
Proof. solve_decision. Defined.

Abbreviation FS := (gmap path node).

(** [os.stat]: the root directory always exists. *)
Definition stat (fs : FS) (p : path) : option node :=
  match p with
  | [] => Some Dir
  | _ => fs !! p
  end.

Definition Path_exists (fs : FS) (p : path) : bool :=
  bool_decide (is_Some (stat fs p)).

Definition Path_is_file (fs : FS) (p : path) : bool :=
  match stat fs p with
  | Some (File _ _) => true
  | _ => false
  end.

Definition Path_is_dir (fs : FS) (p : path) : bool :=
  match stat fs p with
  | Some Dir => true
  | _ => false
  end.

(** Every entry has a plain name and sits in a directory. *)
Definition wf_entry (fs : FS) (p : path) : bool :=
  match p with
  | [] => false
  | c :: dir => plain_name c && Path_is_dir fs dir
  end.

Definition wf (fs : FS) : Prop :=
  map_Forall (λ p _, Is_true (wf_entry fs p)) fs.

Global Instance wf_dec fs : Decision (wf fs).
Proof. unfold wf. apply _. Defined.

(** [os.scandir]: the entries of a directory with their kinds. *)
Definition child_of (dir : path) (e : path * node) : option (string * node) :=
  match e.1 with
  | c :: d => if decide (d = dir) then Some (c, e.2) else None
  | [] => None
  end.

Definition entries (fs : FS) (dir : path) : list (string * node) :=
  omap (child_of dir) (map_to_list fs).

(** ** Exceptions and the state-and-exception monad *)

Inductive exn :=
  | FileExistsError
  | FileNotFoundError
  | NotADirectoryError
  | IsADirectoryError
  | SameFileError
  | InvalidArgument
  | RecursionError
  | PermissionError
  | UnicodeEncodeError
  | UnicodeDecodeError
  | ShutilError (failed : list (path * path)).

Global Instance exn_eq_dec : EqDecision exn.
Proof. solve_decision. Defined.

(** [except OSError] catches everything above but [RecursionError] and the
    two [UnicodeError]s. *)
Definition is_OSError (e : exn) : bool :=
  match e with
  | RecursionError | UnicodeEncodeError | UnicodeDecodeError => false
  | _ => true
  end.

Inductive result (A : Type) :=
  | Ok (a : A)
  | Raise (e : exn).
Arguments Ok {A} a.
Arguments Raise {A} e.

Definition io (A : Type) : Type := FS → FS * result A.

Definition ret {A} (a : A) : io A := λ fs, (fs, Ok a).
Definition raise {A} (e : exn) : io A := λ fs, (fs, Raise e).
Definition bind {A B} (m : io A) (k : A → io B) : io B := λ fs,
  match m fs with
  | (fs', Ok a) => k a fs'
  | (fs', Raise e) => (fs', Raise e)
  end.

Notation "x <- m ;; k" := (bind m (λ x, k))
  (at level 100, m at next level, right associativity).
Notation "m ;; k" := (bind m (λ _, k))
  (at level 100, right associativity).

Definition gets {A} (f : FS → A) : io A := λ fs, (fs, Ok (f fs)).

(** ** The library calls the program makes *)

(** The error of resolving a path that does not exist: [ENOTDIR] when the
    nearest existing ancestor is a regular file, [ENOENT] otherwise. *)
Fixpoint missing_errno (fs : FS) (p : path) : exn :=
  match p with
  | [] => FileNotFoundError
  | _ :: dir =>
      match stat fs dir with
      | Some Dir => FileNotFoundError
      | Some (File _ _) => NotADirectoryError
      | None => missing_errno fs dir
      end
  end.

(** [os.mkdir(p)]. *)
Definition os_mkdir (p : path) : io unit := λ fs,
  match stat fs p with
  | Some _ => (fs, Raise FileExistsError)
  | None =>
      if Path_is_dir fs (parent p) then (<[p:=Dir]> fs, Ok ())
      else (fs, Raise (missing_errno fs p))
  end.

(** [Path.mkdir(parents=False, exist_ok=exist_ok)]. *)
Definition Path_mkdir_single (exist_ok : bool) (p : path) : io unit := λ fs,
  match os_mkdir p fs with
  | (fs', Ok u) => (fs', Ok u)
  | (fs', Raise FileNotFoundError) => (fs', Raise FileNotFoundError)
  | (fs', Raise e) =>
      if exist_ok && Path_is_dir fs' p then (fs', Ok ()) else (fs', Raise e)
  end.

(** [Path.mkdir(parents=True, exist_ok=exist_ok)]: try, and on a missing
    parent create the parent chain first. *)
Fixpoint Path_mkdir (exist_ok : bool) (p : path) : io unit := λ fs,
  match os_mkdir p fs with
  | (fs', Ok u) => (fs', Ok u)
  | (fs', Raise FileNotFoundError) =>
      match p with
      | [] => (fs', Raise FileNotFoundError)
      | _ :: dir => (Path_mkdir true dir ;; Path_mkdir_single exist_ok p) fs'
      end
  | (fs', Raise e) =>
      if exist_ok && Path_is_dir fs' p then (fs', Ok ()) else (fs', Raise e)
  end.

(** [os.makedirs(p)] with [exist_ok=False], as [shutil.copytree] calls it. *)
Fixpoint os_makedirs (p : path) : io unit := λ fs,
  match p with
  | [] => os_mkdir [] fs
  | _ :: head =>
      let made :=
        if negb (Path_exists fs head) then
          match os_makedirs head fs with
          | (fs1, Raise FileExistsError) => (fs1, Ok ())
          | other => other
          end
        else (fs, Ok ()) in
      match made with
      | (fs1, Ok _) => os_mkdir p fs1
      | (fs1, Raise e) => (fs1, Raise e)
      end
  end.

(** [shutil.copy2(src, dst)]: into [dst] when it is a directory; the data and
    the metadata of the source are written to the target. *)
Definition shutil_copy2 (src dst : path) : io unit := λ fs,
  let dst := if Path_is_dir fs dst then name src :: dst else dst in
  if bool_decide (src = dst) && Path_exists fs src then (fs, Raise SameFileError)
  else
    match stat fs src with
    | None => (fs, Raise (missing_errno fs src))
    | Some Dir => (fs, Raise IsADirectoryError)
    | Some (File data mtime) =>
        match stat fs dst with
        | Some Dir => (fs, Raise IsADirectoryError)
        | Some (File _ _) => (<[dst:=File data mtime]> fs, Ok ())
        | None =>
            if Path_is_dir fs (parent dst)
            then (<[dst:=File data mtime]> fs, Ok ())
            else (fs, Raise (missing_errno fs dst))
        end
    end.

(** The loop of [shutil._copytree] over the scanned entries: an [OSError]
    of one entry is recorded and the loop goes on; anything else escapes. *)
Fixpoint copy_entries (copytree : path → path → io unit) (src dst : path)
    (es : list (string * node)) (errors : list (path * path))
    : io (list (path * path)) := λ fs,
  match es with
  | [] => (fs, Ok errors)
  | (c, n) :: es' =>
      let copied :=
        match n with
        | Dir => copytree (c :: src) (c :: dst) fs
        | File _ _ => shutil_copy2 (c :: src) (c :: dst) fs
        end in
      match copied with
      | (fs1, Ok _) => copy_entries copytree src dst es' errors fs1
      | (fs1, Raise (ShutilError more)) =>
          copy_entries copytree src dst es' (errors ++ more) fs1
      | (fs1, Raise e) =>
          if is_OSError e
          then copy_entries copytree src dst es' (errors ++ [(c :: src, c :: dst)]) fs1
          else (fs1, Raise e)
      end
  end.

(** [shutil.copytree(src, dst)].  The entries are scanned before the target
    is made; [limit] is the nesting depth at which the interpreter gives up
    with [RecursionError]. *)
Fixpoint shutil_copytree (limit : nat) (src dst : path) : io unit := λ fs,
  match limit with
  | 0 => (fs, Raise RecursionError)
  | S deeper =>
      match stat fs src with
      | Some Dir =>
          let es := entries fs src in
          match os_makedirs dst fs with
          | (fs1, Raise e) => (fs1, Raise e)
          | (fs1, Ok _) =>
              match copy_entries (shutil_copytree deeper) src dst es [] fs1 with
              | (fs2, Ok []) => (fs2, Ok ())
              | (fs2, Ok errors) => (fs2, Raise (ShutilError errors))
              | (fs2, Raise e) => (fs2, Raise e)
              end
          end
      | Some (File _ _) => (fs, Raise NotADirectoryError)
      | None => (fs, Raise (missing_errno fs src))
      end
  end.

(** Where a path below [src] lands when [src] becomes [dst]. *)
Definition rebase (src dst q : path) : path :=
  if bool_decide (src `suffix_of` q)
  then take (length q - length src) q ++ dst
  else q.

(** [Path.rename(dst)].  The program only calls it on a target that does not
    exist; an existing target is refused, as on Windows. *)
Definition Path_rename (src dst : path) : io unit := λ fs,
  match stat fs src with
  | None => (fs, Raise (missing_errno fs src))
  | Some _ =>
      if Path_exists fs dst then (fs, Raise FileExistsError)
      else if negb (Path_is_dir fs (parent dst)) then (fs, Raise (missing_errno fs dst))
      else if bool_decide (src `suffix_of` dst) then (fs, Raise InvalidArgument)
      else (list_to_map (prod_map (rebase src dst) id <$> map_to_list fs), Ok ())
  end.

(** [Path.iterdir()], forced: the names of the entries. *)
Definition Path_iterdir (p : path) : io (list string) := λ fs,
  match stat fs p with
  | Some Dir => (fs, Ok ((entries fs p).*1))
  | Some (File _ _) => (fs, Raise NotADirectoryError)
  | None => (fs, Raise (missing_errno fs p))
  end.

(** ** The program *)

(** *** [load_models] *)

(** A row of the list widget: its text and its tooltip. *)
Record item := Item { text : string; toolTip : option string }.

Global Instance item_eq_dec : EqDecision item.
Proof. solve_decision. Defined.

Definition is_file_node (n : node) : bool :=
  match n with
  | File _ _ => true
  | Dir => false
  end.

(** [any(f.suffix == ext for f in folder.iterdir() if f.is_file())]. *)
Definition any_file_with_suffix (ext : string) (children : list (string * node)) : bool :=
  existsb (λ f, String.eqb (suffix f.1) ext)
          (List.filter (λ f, is_file_node f.2) children).

Definition EMPTY_MARK : string := " ❔".
Definition WARNING_MARK : string := " ⚠️".

(** The body of the loop of [load_models] for one folder. *)
Definition model_row (fs : FS) (folder : path) : item :=
  let has_pth := any_file_with_suffix ".pth" (entries fs folder) in
  let has_index := any_file_with_suffix ".index" (entries fs folder) in
  let has_any := existsb (λ _, true) (entries fs folder) in
  let display_name := name folder in
  if negb has_any then
    Item (display_name +:+ EMPTY_MARK) (Some "Folder is empty.")
  else if negb has_pth || negb has_index then
    let missing :=
      (if negb has_pth then [".pth"] else [])
      ++ (if negb has_index then [".index"] else []) in
    Item (display_name +:+ WARNING_MARK)
         (Some ("Missing " +:+ String.concat ", " missing
                +:+ " file(s). Model won't work."))
  else Item display_name None.

(** [load_models]: the rows the list widget holds afterwards.  The paths
    that [sorted] compares lie in one directory, so they sort by their names,
    byte by byte. *)
Definition load_models (model_path : path) : io (list item) :=
  missing <- gets (λ fs, negb (Path_exists fs model_path));;
  (if missing then Path_mkdir false model_path else ret ());;
  names <- Path_iterdir model_path;;
  gets (λ fs,
    model_row fs <$>
      List.filter (Path_is_dir fs)
        ((λ c, c :: model_path) <$> merge_sort String.le names)).

(** *** [handle_dropped_item] *)

(** What a message box is about: the path or the exception its text quotes. *)
Inductive detail :=
  | no_detail
  | about_path (p : path)
  | about_exn (e : exn).

(** [QMessageBox.warning] and [QMessageBox.critical]. *)
Inductive message :=
  | warning (title text : string) (d : detail)
  | critical (title text : string) (d : detail).

(** The loop [while dest.exists(): dest = model_path / f"{model_name}_{counter}";
    counter += 1], unrolled [fuel] times. *)
Fixpoint while_exists (fuel : nat) (fs : FS) (model_path : path)
    (model_name : string) (dest : path) (counter : nat) : path :=
  match fuel with
  | 0 => dest
  | S fuel' =>
      if Path_exists fs dest
      then while_exists fuel' fs model_path model_name
             (joinpath model_path (numbered model_name counter)) (S counter)
      else dest
  end.

(** [dest = model_path / model_name; counter = 1] and the loop above.  The
    filesystem is finite, so the loop stops within [size fs + 2] tests
    ([free_dest_spec] below). *)
Definition free_dest (fs : FS) (model_path : path) (model_name : string) : path :=
  while_exists (size fs + 2) fs model_path model_name
    (joinpath model_path model_name) 1.

(** The body of [handle_dropped_item] for a [str]. *)
Definition handle_dropped_path (limit : nat) (model_path : path) (source : path)
    (fs : FS) : FS * list message :=
  if negb (Path_exists fs source) then
    (fs, [warning "Error" "Path does not exist:" (about_path source)])
  else if Path_is_file fs source && String.eqb (suffix (name source)) ".pth" then
    let model_name := stem (name source) in
    let dest_folder := free_dest fs model_path model_name in
    match (Path_mkdir false dest_folder;;
           shutil_copy2 source (joinpath dest_folder (name source))) fs with
    | (fs', Ok _) => (fs', [])
    | (fs', Raise e) =>
        (fs', [critical "Copy Error" "Failed to copy .pth file:" (about_exn e)])
    end
  else
    let model_name :=
      if Path_is_file fs source then stem (name source) else name source in
    let dest := free_dest fs model_path model_name in
    match (if Path_is_file fs source
           then shutil_copy2 source dest
           else shutil_copytree limit source dest) fs with
    | (fs', Ok _) => (fs', [])
    | (fs', Raise e) =>
        (fs', [critical "Copy Error" "Failed to copy:" (about_exn e)])
    end.

(** The loop [for f in files: self.handle_dropped_item(str(f))]. *)
Fixpoint handle_each (limit : nat) (model_path : path) (files : list path)
    (fs : FS) : FS * list message :=
  match files with
  | [] => (fs, [])
  | f :: rest =>
      let '(fs1, shown1) := handle_dropped_path limit model_path f fs in
      let '(fs2, shown2) := handle_each limit model_path rest fs1 in
      (fs2, shown1 ++ shown2)
  end.

(** The argument of [handle_dropped_item]: a [str] or a [list] of them. *)
Inductive dropped :=
  | one (p : path)
  | many (paths : list path).

Definition has_ext (ext : string) (f : path) : bool :=
  String.eqb (suffix (name f)) ext.

Definition handle_dropped_item (limit : nat) (model_path : path) (dropped_path : dropped)
    (fs : FS) : FS * list message :=
  match dropped_path with
  | many files =>
      let pth_files := List.filter (has_ext ".pth") files in
      let index_files := List.filter (has_ext ".index") files in
      if (length pth_files =? 1) && (length index_files =? 1) then
        match pth_files, index_files with
        | pth_file :: _, index_file :: _ =>
            let model_name := stem (name pth_file) in
            let dest_folder := free_dest fs model_path model_name in
            match (Path_mkdir false dest_folder;;
                   shutil_copy2 pth_file (joinpath dest_folder (name pth_file));;
                   shutil_copy2 index_file (joinpath dest_folder (name index_file))) fs with
            | (fs', Ok _) => (fs', [])
            | (fs', Raise e) =>
                (fs', [critical "Copy Error" "Failed to copy model files:" (about_exn e)])
            end
        | _, _ => (fs, [])
        end
      else handle_each limit model_path files fs
  | one source => handle_dropped_path limit model_path source fs
  end.

(** *** [rename_model] *)

(** The filesystem together with the rows of the list widget. *)
Record window := Window { disk : FS; model_list : list item }.

(** [rename_model]: [selected] is [model_list.currentItem()], and
    [(new_name, ok)] is what the input dialog returns. *)
Definition rename_model (model_path : path) (selected : option item)
    (new_name : string) (ok : bool) (w : window) : window * list message :=
  match selected with
  | None => (w, [warning "No Selection" "Please select a model to rename." no_detail])
  | Some current =>
      let model_name := text current in
      let model_dir := joinpath model_path model_name in
      if ok && negb (String.eqb new_name "") && negb (String.eqb new_name model_name) then
        let new_path := joinpath model_path new_name in
        if Path_exists (disk w) new_path then
          (w, [warning "Rename Error" "A model with that name already exists." no_detail])
        else
          match Path_rename model_dir new_path (disk w) with
          | (fs1, Raise e) =>
              (Window fs1 (model_list w),
               [critical "Rename Error" "Failed to rename model:" (about_exn e)])
          | (fs1, Ok _) =>
              match load_models model_path fs1 with
              | (fs2, Ok rows) => (Window fs2 rows, [])
              | (fs2, Raise e) =>
                  (Window fs2 [],
                   [critical "Rename Error" "Failed to rename model:" (about_exn e)])
              end
          end
      else (w, [])
  end.

(** *** [get_model_path] *)

(** A Python [str] read from a text file: its code points. *)
Definition text_str := list N.

(** [str.isspace] on one code point. *)
Definition isspace (c : N) : bool :=
  ((9 <=? c) && (c <=? 13) || (28 <=? c) && (c <=? 32)
   || (c =? 133) || (c =? 160) || (c =? 5760)
   || (8192 <=? c) && (c <=? 8202)
   || (c =? 8232) || (c =? 8233) || (c =? 8239) || (c =? 8287)
   || (c =? 12288))%N.

Fixpoint lstrip (s : text_str) : text_str :=
  match s with
  | c :: t => if isspace c then lstrip t else s
  | [] => []
  end.

Definition rstrip (s : text_str) : text_str := reverse (lstrip (reverse s)).

(** [str.strip()]. *)
Definition strip (s : text_str) : text_str := rstrip (lstrip s).

(** The persistence file [INSTALLER_PATH_FILE] as the program finds it:
    - [absent]: [os.stat] raises [FileNotFoundError];
    - [denied]: [os.stat] raises [PermissionError], as it does when the
      directory of the file may not be searched, and so does [open];
    - [a_directory]: the path is a directory, which [open] refuses;
    - [unreadable]: a file that may not be read;
    - [not_text]: a file whose bytes are not UTF-8;
    - [holding content]: a file that can be read and decodes to
      [content]. *)
Inductive path_file :=
  | absent
  | denied
  | a_directory
  | unreadable
  | not_text
  | holding (content : text_str).

Definition code_points (s : string) : text_str :=
  N_of_ascii <$> String.list_ascii_of_string s.

Definition DEFAULT_MODELS_PATH : text_str :=
  code_points "C:\AI Programs\Retrieval-based-Voice-Conversion-WebUI\models\rvc_models".

(** [Path.exists()]: [False] when [os.stat] fails with one of the errors
    that [pathlib] ignores ([ENOENT] among them); any other [OSError] is
    raised again. *)
Definition Path_exists_file (f : path_file) : result bool :=
  match f with
  | absent => Ok false
  | denied => Raise PermissionError
  | a_directory | unreadable | not_text | holding _ => Ok true
  end.

(** Reading in text mode with universal newlines: [\r\n] and a lone [\r]
    become [\n].  [pending_cr] tells that the code point before was a
    [\r], already turned into [\n]. *)
Fixpoint universal_newlines (pending_cr : bool) (s : text_str) : text_str :=
  match s with
  | [] => []
  | c :: t =>
      if (c =? 13)%N then 10%N :: universal_newlines true t
      else if (c =? 10)%N && pending_cr then universal_newlines false t
      else c :: universal_newlines false t
  end.

(** [Path.read_text(encoding='utf-8')]. *)
Definition Path_read_text (f : path_file) : result text_str :=
  match f with
  | absent => Raise FileNotFoundError
  | denied | unreadable => Raise PermissionError
  | a_directory => Raise IsADirectoryError
  | not_text => Raise UnicodeDecodeError
  | holding content => Ok (universal_newlines false content)
  end.

(** [get_model_path]: the text of the [Path] it returns.  The test
    [exists()] stands before the [try]; what [read_text] raises is
    swallowed by [except Exception: pass]. *)
Definition get_model_path (INSTALLER_PATH_FILE : path_file) : result text_str :=
  match Path_exists_file INSTALLER_PATH_FILE with
  | Raise e => Raise e
  | Ok true =>
      match Path_read_text INSTALLER_PATH_FILE with
      | Ok text =>
          let path := strip text in
          if bool_decide (path ≠ []) then Ok path else Ok DEFAULT_MODELS_PATH
      | Raise _ => Ok DEFAULT_MODELS_PATH
      end
  | Ok false => Ok DEFAULT_MODELS_PATH
  end.

(** *** [DropLabel.dropEvent] *)

(** What an event handler leaves behind: the window, the message boxes it
    showed, and the exception that escaped it, if one did. *)
Definition handled : Type := window * list message * result unit.

(** [dropEvent]: the local paths of the dropped URLs go to
    [handle_dropped_item], as a list when there are several and alone
    otherwise, and the list widget is reloaded.  A drop carries at least one
    URL, [local_paths = first :: others]. *)
Definition dropEvent (limit : nat) (model_path : path)
    (first : path) (others : list path) (w : window) : handled :=
  let local_paths := first :: others in
  let '(fs1, shown) :=
    if 1 <? length local_paths
    then handle_dropped_item limit model_path (many local_paths) (disk w)
    else handle_dropped_item limit model_path (one first) (disk w) in
  match load_models model_path fs1 with
  | (fs2, Ok rows) => (Window fs2 rows, shown, Ok ())
  | (fs2, Raise e) => (Window fs2 [], shown, Raise e)
  end.

(** *** [remove_model] *)

(** [shutil.rmtree(p)]: the directory and everything below it.  The root
    directory itself cannot be unlinked. *)
Definition shutil_rmtree (p : path) : io unit := λ fs,
  match stat fs p with
  | Some Dir =>
      (filter (λ e, ¬ p `suffix_of` e.1) fs,
       if bool_decide (p = []) then Raise InvalidArgument else Ok ())
  | Some (File _ _) => (fs, Raise NotADirectoryError)
  | None => (fs, Raise (missing_errno fs p))
  end.

(** [[f for f in sorted(self.model_path.iterdir()) if f.is_dir()]]. *)
Definition sorted_folders (model_path : path) : io (list path) :=
  names <- Path_iterdir model_path;;
  gets (λ fs,
    List.filter (Path_is_dir fs)
      ((λ c, c :: model_path) <$> merge_sort String.le names)).

(** [remove_model]: [selected] is [model_list.currentRow()], [-1] without a
    selection, and [confirmed] tells whether the question box is answered
    with Yes. *)
Definition remove_model (model_path : path) (selected : Z) (confirmed : bool)
    (w : window) : handled :=
  if (selected <? 0)%Z then
    (w, [warning "No Selection" "Please select a model to remove." no_detail], Ok ())
  else
    match sorted_folders model_path (disk w) with
    | (_, Raise e) => (w, [], Raise e)
    | (_, Ok folders) =>
        if (Z.of_nat (length folders) <=? selected)%Z then
          (w, [warning "Error" "Selected model does not exist." no_detail], Ok ())
        else
          match folders !! Z.to_nat selected with
          | None => (w, [], Ok ())
          | Some model_dir =>
              if confirmed then
                match shutil_rmtree model_dir (disk w) with
                | (fs1, Raise e) =>
                    (Window fs1 (model_list w),
                     [critical "Remove Error" "Failed to remove model:" (about_exn e)],
                     Ok ())
                | (fs1, Ok _) =>
                    match load_models model_path fs1 with
                    | (fs2, Ok rows) => (Window fs2 rows, [], Ok ())
                    | (fs2, Raise e) =>
                        (Window fs2 [],
                         [critical "Remove Error" "Failed to remove model:" (about_exn e)],
                         Ok ())
                    end
                end
              else (w, [], Ok ())
          end
    end.

(** *** [set_model_path] *)

(** The platform: [os.linesep] is [\n] on POSIX and [\r\n] on Windows. *)
Inductive os_name := posix | nt.

Definition linesep (os : os_name) : text_str :=
  match os with
  | posix => [10%N]
  | nt => [13%N; 10%N]
  end.

(** Writing in text mode: every [\n] goes out as [os.linesep]. *)
Fixpoint translate_newlines (os : os_name) (data : text_str) : text_str :=
  match data with
  | [] => []
  | c :: t =>
      (if (c =? 10)%N then linesep os else [c]) ++ translate_newlines os t
  end.

(** A lone surrogate, which the UTF-8 codec refuses. *)
Definition is_surrogate (c : N) : bool := ((55296 <=? c) && (c <=? 57343))%N.

(** The file after [content] was written to it: a file that may not be
    read stays so. *)
Definition written (content : text_str) (f : path_file) : path_file :=
  match f with
  | unreadable => unreadable
  | _ => holding content
  end.

(** [Path.write_text(data, encoding='utf-8')].  [writable] tells whether
    the file may be created or written.  [open] in mode [w] creates or
    empties the file, and the codec runs after that, on the whole text. *)
Definition Path_write_text (os : os_name) (writable : bool) (data : text_str)
    (f : path_file) : path_file * result unit :=
  match f with
  | denied => (f, Raise PermissionError)
  | a_directory => (f, Raise IsADirectoryError)
  | _ =>
      if negb writable then (f, Raise PermissionError)
      else if existsb is_surrogate data then (written [] f, Raise UnicodeEncodeError)
      else (written (translate_newlines os data) f, Ok ())
  end.

(** [set_model_path]: [path_text] is [str(path)]. *)
Definition set_model_path (os : os_name) (writable : bool) (path_text : text_str)
    (INSTALLER_PATH_FILE : path_file) : path_file * result unit :=
  Path_write_text os writable path_text INSTALLER_PATH_FILE.

(** * Notions the statements use *)

(** ** Frames *)

(** [preserves base m]: started on a filesystem that still holds every entry
    of [base], the operation [m] ends on one that does too. *)
Definition preserves (base : FS) {A} (m : io A) : Prop :=
  ∀ fs, base ⊆ fs → base ⊆ (m fs).1.

(** Nothing of [base] lies at or below [dst]. *)
Definition free_below (base : FS) (dst : path) : Prop :=
  ∀ q, dst `suffix_of` q → base !! q = None.

(** [writes_below dst m fs]: run on [fs], the operation [m] leaves every
    entry that is not at or below [dst] as it is. *)
Definition writes_below (dst : path) {A} (m : io A) (fs : FS) : Prop :=
  ∀ q, ¬ dst `suffix_of` q → (m fs).1 !! q = fs !! q.

(** Neither path lies at or below the other. *)
Definition apart (src dst : path) : Prop :=
  ¬ src `suffix_of` dst ∧ ¬ dst `suffix_of` src.

(** The entries at and below [src] form a tree whose nesting stays under
    [limit]: each of them sits in a directory. *)
Definition tree_within (limit : nat) (fs : FS) (src : path) : Prop :=
  (∀ r, is_Some (fs !! (r ++ src)) → length r < limit)
  ∧ (∀ c r, is_Some (fs !! (c :: r ++ src)) → fs !! (r ++ src) = Some Dir).

(** [copies_tree limit copytree]: on a directory [src] and a free target
    [dst] in an existing directory, apart from each other, [copytree] ends
    without an error, having put under [dst] what is under [src] and left
    the rest as it is. *)
Definition copies_tree (limit : nat) (copytree : path → path → io unit) : Prop :=
  ∀ src dst fs,
    fs !! src = Some Dir → apart src dst →
    dst ≠ [] → Path_is_dir fs (parent dst) = true → free_below fs dst →
    tree_within limit fs src →
    ∃ fs', copytree src dst fs = (fs', Ok ())
      ∧ (∀ r, fs' !! (r ++ dst) = fs !! (r ++ src))
      ∧ (∀ q, ¬ dst `suffix_of` q → fs' !! q = fs !! q).

(** A dropped path stands for a parsed [Path]: none of its components holds
    a separator. *)
Definition path_ok (p : path) : bool := forallb no_slash p.

Definition dropped_ok (d : dropped) : bool :=
  match d with
  | one p => path_ok p
  | many paths => forallb path_ok paths
  end.

(** A dropped path whose name, cut at the extension, is not [..]: a folder
    of that name would be the parent of the root, which the filesystem of
    this development does not interpret. *)
Definition importable (p : path) : bool :=
  path_ok p && negb (String.eqb (stem (name p)) "..").

(** No regular file sits at [p] or at one of its ancestors. *)
Fixpoint no_file_on (fs : FS) (p : path) : bool :=
  negb (Path_is_file fs p)
  && match p with
     | [] => true
     | _ :: dir => no_file_on fs dir
     end.

(** ** The collision policy, in the words of the specification *)

(** [first_free_name fs model_path model_name dest_name]: the destination is
    free under the root, and it is the computed name, or else the computed
    name exists and the destination is that name with the first free integer
    suffix [_1], [_2], ... *)
Definition first_free_name (fs : FS) (model_path : path)
    (model_name dest_name : string) : Prop :=
  fs !! (dest_name :: model_path) = None
  ∧ (dest_name = model_name
     ∨ is_Some (fs !! (model_name :: model_path))
       ∧ ∃ k, 1 ≤ k ∧ dest_name = numbered model_name k
              ∧ ∀ j, 1 ≤ j < k →
                  is_Some (fs !! (numbered model_name j :: model_path))).

(** ** The validation status, in the words of the specification *)

Inductive status :=
  | complete
  | missing_files
  | empty.

Definition has_child (fs : FS) (folder : path) : Prop :=
  ∃ c, is_Some (fs !! (c :: folder)).

(** A regular file with extension [ext] among the immediate children. *)
Definition has_file_with (ext : string) (fs : FS) (folder : path) : Prop :=
  ∃ c data mtime, fs !! (c :: folder) = Some (File data mtime) ∧ suffix c = ext.

(** Empty means no children at all; otherwise complete means both a weights
    file and an index file among the immediate children; otherwise files are
    missing. *)
Definition status_spec (fs : FS) (folder : path) (st : status) : Prop :=
  match st with
  | empty => ¬ has_child fs folder
  | complete =>
      has_child fs folder
      ∧ has_file_with ".pth" fs folder ∧ has_file_with ".index" fs folder
  | missing_files =>
      has_child fs folder
      ∧ ¬ (has_file_with ".pth" fs folder ∧ has_file_with ".index" fs folder)
  end.

(** How a row of the list shows a status: the bare folder name when
    complete, the name with a mark and a tooltip otherwise. *)
Definition shows (folder_name : string) (st : status) (row : item) : Prop :=
  match st with
  | complete => row = Item folder_name None
  | empty => row = Item (folder_name +:+ EMPTY_MARK) (Some "Folder is empty.")
  | missing_files =>
      text row = folder_name +:+ WARNING_MARK ∧ is_Some (toolTip row)
  end.

(** The folders [load_models] shows, in the order of the list. *)
Definition listed_folders (fs : FS) (model_path : path) : list string :=
  List.filter (λ c, Path_is_dir fs (c :: model_path))
    (merge_sort String.le (entries fs model_path).*1).

(** What [load_models] returns under a root that is a directory. *)
Definition rows_of (fs : FS) (model_path : path) : list item :=
  model_row fs <$> ((λ c, c :: model_path) <$> listed_folders fs model_path).

(** ** Batches, in the words of the specification *)

(** One drop after the other, each on the filesystem the previous one left,
    the message boxes in order. *)
Definition drop_one_by_one (limit : nat) (model_path : path)
    (files : list path) (fs : FS) : FS * list message :=
  foldl (λ done f,
           let r := handle_dropped_item limit model_path (one f) done.1 in
           (r.1, done.2 ++ r.2))
        (fs, []) files.

(** ** Example filesystems *)

(** A root [/models] and three files waiting in [/downloads]. *)
Definition demo_fs : FS :=
  list_to_map
    [ (abs ["models"], Dir);
      (abs ["downloads"], Dir);
      (abs ["downloads"; "voiceA.pth"], File "weights" 1);
      (abs ["downloads"; "voiceA.index"], File "index" 2);
      (abs ["downloads"; "extra.txt"], File "notes" 3) ].

Definition demo_root : path := abs ["models"].
Definition voiceA_pth : path := abs ["downloads"; "voiceA.pth"].
Definition voiceA_index : path := abs ["downloads"; "voiceA.index"].
Definition extra_txt : path := abs ["downloads"; "extra.txt"].

(** The pair together with a third item, and a batch with a path that does
    not exist. *)
Definition pair_and_extra : list path := [voiceA_pth; voiceA_index; extra_txt].
Definition mixed_batch : list path :=
  [voiceA_pth; abs ["downloads"]; abs ["gone.txt"]].

(** [demo_fs] after [voiceA.pth] was imported once. *)
Definition demo_fs_once : FS :=
  <[abs ["models"; "voiceA"; "voiceA.pth"]:=File "weights" 1]>
    (<[abs ["models"; "voiceA"]:=Dir]> demo_fs).

(** A root with a complete model, an incomplete one, an empty folder and a
    loose file. *)
Definition library_fs : FS :=
  list_to_map
    [ (abs ["models"], Dir);
      (abs ["models"; "voiceA"], Dir);
      (abs ["models"; "voiceA"; "voiceA.pth"], File "weights" 1);
      (abs ["models"; "voiceA"; "voiceA.index"], File "index" 2);
      (abs ["models"; "draft"], Dir);
      (abs ["models"; "draft"; "draft.pth"], File "weights" 4);
      (abs ["models"; "blank"], Dir);
      (abs ["models"; "readme.txt"], File "notes" 5) ].

(** The root is to be [/a/models], but [/a] is a regular file. *)
Definition blocked_fs : FS := list_to_map [ (abs ["a"], File "data" 1) ].
Definition blocked_root : path := abs ["a"; "models"].

(** A root with the single, empty folder [x], and the row that lists it. *)
Definition lonely_fs : FS :=
  list_to_map [ (abs ["models"], Dir); (abs ["models"; "x"], Dir) ].
Definition lonely_row : item := model_row lonely_fs (abs ["models"; "x"]).

(** The empty folder [x], and next to it a folder whose name is [x] followed
    by the mark of an empty folder. *)
Definition marked_fs : FS :=
  list_to_map
    [ (abs ["models"], Dir);
      (abs ["models"; "x"], Dir);
      (abs ["models"; "x" +:+ EMPTY_MARK], Dir) ].

(** The window on [marked_fs], its first row selected, after the dialog was
    answered with [y]. *)
Definition marked_row : item := model_row marked_fs (abs ["models"; "x"]).
Definition marked_window : window :=
  Window marked_fs
    [marked_row; model_row marked_fs (abs ["models"; "x" +:+ EMPTY_MARK])].
Definition marked_renamed : window * list message :=
  rename_model demo_root (Some marked_row) "y" true marked_window.

(** A folder waiting in [/downloads]: a complete model with a nested folder
    of notes, next to a root that already has a folder of its name. *)
Definition pack_fs : FS :=
  list_to_map
    [ (abs ["models"], Dir);
      (abs ["models"; "voiceC"], Dir);
      (abs ["downloads"], Dir);
      (abs ["downloads"; "voiceC"], Dir);
      (abs ["downloads"; "voiceC"; "voiceC.pth"], File "weights" 6);
      (abs ["downloads"; "voiceC"; "voiceC.index"], File "index" 7);
      (abs ["downloads"; "voiceC"; "notes"], Dir);
      (abs ["downloads"; "voiceC"; "notes"; "readme.txt"], File "notes" 8) ].
Definition pack_folder : path := abs ["downloads"; "voiceC"].

(** * Properties *)

(** ** Strings and paths *)

Section strings.
Implicit Types s t : string.

Lemma no_slash_app s t :
  no_slash (s +:+ t) = no_slash s && no_slash t.
Proof.
  induction s as [|c s IH]; simpl; [done|].
  rewrite IH. by rewrite andb_assoc.
Qed.

Lemma no_slash_substring s n m :
  no_slash s = true → no_slash (String.substring n m s) = true.
Proof.
  revert n m. induction s as [|c s IH]; intros n m; simpl.
  - by destruct n, m.
  - intros [Hc Hs]%andb_true_iff.
    destruct n as [|n]; [destruct m as [|m]; simpl; [done|]|].
    + rewrite Hc. simpl. by apply IH.
    + by apply IH.
Qed.

Lemma no_slash_stem s : no_slash s = true → no_slash (stem s) = true.
Proof.
  intros Hs. unfold stem. destruct (rfind_dot s) as [i|]; [|done].
  destruct (dot_splits s i); [|done]. by apply no_slash_substring.
Qed.

Lemma no_slash_uint (d : uint) : no_slash (NilEmpty.string_of_uint d) = true.
Proof. induction d; simpl; auto. Qed.

Lemma no_slash_numbered s k : no_slash (numbered s k) = no_slash s.
Proof.
  unfold numbered, str_of_nat. rewrite !no_slash_app, no_slash_uint. simpl.
  by rewrite andb_true_r.
Qed.

Lemma str_of_nat_inj j k : str_of_nat j = str_of_nat k → j = k.
Proof.
  unfold str_of_nat. intros E.
  apply Unsigned.to_uint_inj.
  pose proof (NilEmpty.usu (Nat.to_uint j)) as Hj.
  pose proof (NilEmpty.usu (Nat.to_uint k)) as Hk.
  rewrite E in Hj. congruence.
Qed.

Lemma numbered_inj s j k : numbered s j = numbered s k → j = k.
Proof.
  unfold numbered. intros E%(inj (String.app s)).
  apply str_of_nat_inj. by simplify_eq/=.
Qed.

Lemma components_no_slash s : no_slash s = true → components s = [s].
Proof.
  induction s as [|c s IH]; simpl; [done|].
  intros [Hc Hs]%andb_true_iff. apply negb_true_iff in Hc.
  rewrite Hc, (IH Hs). done.
Qed.

(** Appending a text without separator extends the last component. *)
Lemma components_app s t :
  no_slash t = true →
  ∃ init lc, components s = init ++ [lc]
             ∧ components (s +:+ t) = init ++ [lc +:+ t].
Proof.
  intros Ht. induction s as [|c s (init & lc & E1 & E2)]; simpl.
  - exists [], "". split; [done|]. by apply components_no_slash.
  - destruct (Ascii.eqb c "/").
    + exists ("" :: init), lc. by rewrite E1, E2.
    + rewrite E1, E2. destruct init as [|h r]; simpl.
      * by exists [], (String c lc).
      * by exists (String c h :: r), lc.
Qed.

Lemma kept_numbered s k : kept (numbered s k) = true.
Proof.
  unfold kept, numbered. destruct s as [|c [|c' s]]; simpl; [done| |].
  - destruct (Ascii.eqb c "."); simpl; by rewrite ?andb_true_r.
  - destruct (Ascii.eqb c "."); simpl; by rewrite ?andb_true_r.
Qed.

Lemma is_absolute_numbered s k :
  is_absolute (numbered s k) = is_absolute s.
Proof. by destruct s. Qed.

(** The candidates of the collision loop differ in the number only. *)
Lemma joinpath_numbered_shape (base : path) s :
  ∃ lc dir, ∀ k, joinpath base (numbered s k) = numbered lc k :: dir.
Proof.
  destruct (components_app s "_" eq_refl) as (init & lc & E1 & _).
  exists lc,
    (if is_absolute s then reverse (filter (λ c, Is_true (kept c)) init)
     else reverse (filter (λ c, Is_true (kept c)) init) ++ base).
  intros k. unfold joinpath, parts. rewrite is_absolute_numbered.
  destruct (components_app s ("_" +:+ str_of_nat k)) as (init' & lc' & E1' & E2').
  { change (no_slash (numbered "" k) = true). by rewrite no_slash_numbered. }
  rewrite E1 in E1'. apply app_inj_tail in E1' as [<- <-].
  change (s +:+ "_" +:+ str_of_nat k) with (numbered s k) in E2'.
  change (lc +:+ "_" +:+ str_of_nat k) with (numbered lc k) in E2'.
  rewrite E2', filter_app, filter_cons_True, filter_nil
    by (rewrite kept_numbered; done).
  rewrite reverse_app. by destruct (is_absolute s).
Qed.

Lemma joinpath_plain (base : path) s :
  no_slash s = true → s ≠ "" → s ≠ "." → joinpath base s = s :: base.
Proof.
  intros Hs H1 H2. unfold joinpath, parts.
  rewrite (components_no_slash s Hs).
  assert (is_absolute s = false) as ->.
  { destruct s as [|c s]; [done|]. simpl in *.
    apply andb_true_iff in Hs as [Hc _]. by apply negb_true_iff in Hc. }
  rewrite filter_cons_True; [done|].
  unfold kept. apply String.eqb_neq in H1, H2. by rewrite H1, H2.
Qed.

Lemma plain_name_spec s :
  plain_name s = true ↔ no_slash s = true ∧ s ≠ "" ∧ s ≠ "." ∧ s ≠ "..".
Proof.
  unfold plain_name. rewrite !andb_true_iff, !negb_true_iff, !String.eqb_neq.
  tauto.
Qed.

Lemma joinpath_plain_name (base : path) s :
  plain_name s = true → joinpath base s = s :: base.
Proof.
  intros (? & ? & ? & _)%plain_name_spec. by apply joinpath_plain.
Qed.

Lemma joinpath_numbered (base : path) s k :
  no_slash s = true → joinpath base (numbered s k) = numbered s k :: base.
Proof.
  intros Hs. apply joinpath_plain.
  - by rewrite no_slash_numbered.
  - intros E. pose proof (kept_numbered s k) as Hk. rewrite E in Hk. done.
  - intros E. pose proof (kept_numbered s k) as Hk. rewrite E in Hk. done.
Qed.
End strings.

(** ** The filesystem model *)

Section filesystem.
Implicit Types (fs base : FS) (p q src dst dir : path) (c : string).

Lemma stat_cons fs c dir : stat fs (c :: dir) = fs !! (c :: dir).
Proof. done. Qed.

Lemma Path_exists_false fs p : Path_exists fs p = false ↔ stat fs p = None.
Proof.
  unfold Path_exists. rewrite bool_decide_eq_false, <-eq_None_not_Some. done.
Qed.

Lemma Path_exists_true fs p : Path_exists fs p = true ↔ is_Some (stat fs p).
Proof. unfold Path_exists. by rewrite bool_decide_eq_true. Qed.

Lemma Path_exists_root fs : Path_exists fs [] = true.
Proof. apply Path_exists_true. by eexists. Qed.

Lemma stat_None_lookup fs p : stat fs p = None → p ≠ [] ∧ fs !! p = None.
Proof. by destruct p. Qed.

Lemma Path_is_dir_true fs p : Path_is_dir fs p = true ↔ stat fs p = Some Dir.
Proof.
  unfold Path_is_dir. by destruct (stat fs p) as [[]|].
Qed.

Lemma Path_is_file_true fs p :
  Path_is_file fs p = true ↔
  p ≠ [] ∧ ∃ data mtime, fs !! p = Some (File data mtime).
Proof.
  destruct p as [|c dir].
  - split; [done|]. by intros [? _].
  - unfold Path_is_file. rewrite stat_cons. split.
    + destruct (fs !! (c :: dir)) as [[data mtime|]|]; [|done..].
      intros _. split; [done|]. eauto.
    + by intros [_ (data & mtime & ->)].
Qed.

(** In a well-formed filesystem every entry sits under directories only, so
    nothing lies below a path that does not exist. *)
Lemma wf_lookup fs c dir n :
  wf fs → fs !! (c :: dir) = Some n →
  plain_name c = true ∧ stat fs dir = Some Dir.
Proof.
  intros Hwf Hn. specialize (Hwf _ _ Hn). simpl in Hwf.
  apply Is_true_true, andb_true_iff in Hwf as [? ?].
  by rewrite <-Path_is_dir_true.
Qed.

Lemma wf_not_root fs n : wf fs → fs !! [] = Some n → False.
Proof. intros Hwf Hn. by specialize (Hwf _ _ Hn). Qed.

Lemma stat_lookup fs p : p ≠ [] → stat fs p = fs !! p.
Proof. by destruct p. Qed.

Lemma wf_free_below fs p q :
  wf fs → stat fs p = None → p `suffix_of` q → fs !! q = None.
Proof.
  intros Hwf Hp [ext ->]. induction ext as [|c ext IH]; simpl.
  - by apply stat_None_lookup in Hp as [_ ?].
  - destruct (fs !! (c :: ext ++ p)) as [n|] eqn:E; [|done].
    apply wf_lookup in E as [_ E]; [|done].
    destruct (ext ++ p) as [|c' r] eqn:Er.
    + apply app_eq_nil in Er as [_ ->]. done.
    + simpl in E. congruence.
Qed.

(** *** The collision loop *)

Lemma while_exists_free fuel fs model_path model_name dest counter :
  Path_exists fs dest = false →
  while_exists fuel fs model_path model_name dest counter = dest.
Proof. intros H. destruct fuel; simpl; [done|]. by rewrite H. Qed.

Lemma while_exists_taken fs model_path model_name fuel :
  ∀ dest counter j,
  Path_exists fs dest = true →
  counter ≤ j → j < counter + fuel - 1 →
  (∀ i, counter ≤ i < j →
     Path_exists fs (joinpath model_path (numbered model_name i)) = true) →
  Path_exists fs (joinpath model_path (numbered model_name j)) = false →
  while_exists fuel fs model_path model_name dest counter
  = joinpath model_path (numbered model_name j).
Proof.
  induction fuel as [|fuel IH]; intros dest counter j Hd Hle Hlt Hbelow Hfree.
  - lia.
  - simpl. rewrite Hd. destruct (decide (j = counter)) as [->|Hne].
    + by apply while_exists_free.
    + apply IH; [apply Hbelow; lia|lia|lia| |done].
      intros i Hi. apply Hbelow. lia.
Qed.

(** More numbered names than entries: one of them is free. *)
Lemma numbered_not_all_taken fs lc dir :
  ∃ k, 1 ≤ k ≤ size fs + 1 ∧ Path_exists fs (numbered lc k :: dir) = false.
Proof.
  set (cand := λ k, numbered lc k :: dir).
  set (ks := seq 1 (size fs + 1)).
  destruct (decide (Forall (λ k, Path_exists fs (cand k) = true) ks))
    as [Hall|Hnot].
  - exfalso.
    assert (NoDup (cand <$> ks)) as Hnd.
    { apply NoDup_fmap_2; [|apply NoDup_seq].
      intros j k [= E]. by apply numbered_inj in E. }
    assert (list_to_set (cand <$> ks) ⊆ dom fs) as Hsub.
    { intros q [k [-> Hk]]%elem_of_list_to_set%list_elem_of_fmap.
      rewrite Forall_forall in Hall. specialize (Hall _ Hk).
      apply Path_exists_true in Hall. by apply elem_of_dom. }
    apply subseteq_size in Hsub.
    rewrite size_list_to_set, length_fmap, size_dom in Hsub by done.
    unfold ks in Hsub. rewrite length_seq in Hsub. lia.
  - apply not_Forall_Exists in Hnot; [|apply _].
    apply Exists_exists in Hnot as (k & Hk & Hfree).
    apply elem_of_seq in Hk. exists k. split; [lia|].
    simpl in Hfree. by apply not_true_is_false.
Qed.

(** The least element of a decidable property below a bound. *)
Lemma least_from_one (P : nat → Prop) `{!∀ k, Decision (P k)} n :
  (∃ k, 1 ≤ k ≤ n ∧ P k) →
  ∃ j, 1 ≤ j ≤ n ∧ P j ∧ ∀ i, 1 ≤ i < j → ¬ P i.
Proof.
  induction n as [|n IH]; intros (k & Hk & HP); [lia|].
  destruct (decide (Exists P (seq 1 n))) as [Hex|Hno].
  - apply Exists_exists in Hex as (k' & Hk'%elem_of_seq & HP').
    destruct IH as (j & ? & ? & ?); [exists k'; split; [lia|done]|].
    exists j. split; [lia|]. by split.
  - assert (∀ i, 1 ≤ i < S n → ¬ P i) as Hnone.
    { intros i Hi HPi. apply Hno, Exists_exists. exists i.
      split; [apply elem_of_seq; lia|done]. }
    assert (k = S n) as ->.
    { destruct (decide (k = S n)); [done|]. destruct (Hnone k); [lia|done]. }
    exists (S n). split; [lia|]. by split.
Qed.

(** What the collision loop computes: the plain destination when it is free,
    and otherwise the candidate with the least free number, counted from 1. *)
Lemma free_dest_spec fs model_path model_name :
  let dest := free_dest fs model_path model_name in
  Path_exists fs dest = false
  ∧ (Path_exists fs (joinpath model_path model_name) = false →
     dest = joinpath model_path model_name)
  ∧ (Path_exists fs (joinpath model_path model_name) = true →
     ∃ k, 1 ≤ k
          ∧ dest = joinpath model_path (numbered model_name k)
          ∧ ∀ j, 1 ≤ j < k →
              Path_exists fs (joinpath model_path (numbered model_name j)) = true).
Proof.
  unfold free_dest.
  destruct (Path_exists fs (joinpath model_path model_name)) eqn:E0.
  - destruct (joinpath_numbered_shape model_path model_name) as (lc & dir & Hshape).
    destruct (least_from_one
                (λ k, Path_exists fs (numbered lc k :: dir) = false)
                (size fs + 1) (numbered_not_all_taken fs lc dir))
      as (k & Hk & Hfree & Hleast).
    assert (while_exists (size fs + 2) fs model_path model_name
              (joinpath model_path model_name) 1
            = joinpath model_path (numbered model_name k)) as ->.
    { apply while_exists_taken; [done|lia|lia| |by rewrite Hshape].
      intros i Hi. rewrite Hshape. apply not_false_iff_true, Hleast. lia. }
    split_and!; [by rewrite Hshape|done|].
    intros _. exists k. split_and!; [lia|done|].
    intros j Hj. rewrite Hshape. by apply not_false_iff_true, Hleast.
  - rewrite while_exists_free by done. split_and!; [done|done|done].
Qed.

Lemma free_dest_free fs model_path model_name :
  stat fs (free_dest fs model_path model_name) = None.
Proof. apply Path_exists_false, free_dest_spec. Qed.
End filesystem.

(** ** What an operation leaves in place *)

Section preservation.
Context (base : FS).
Implicit Types (fs : FS) (p q src dst dir : path) (c : string).

Lemma preserves_bind {A B} (m : io A) (k : A → io B) :
  preserves base m → (∀ a, preserves base (k a)) → preserves base (bind m k).
Proof.
  intros Hm Hk fs Hfs. unfold bind. specialize (Hm fs Hfs).
  destruct (m fs) as [fs' [a|e]]; simpl in *; [by apply Hk|done].
Qed.

Lemma preserves_ret {A} (a : A) : preserves base (ret a).
Proof. by intros fs. Qed.

Lemma preserves_gets {A} (f : FS → A) : preserves base (gets f).
Proof. by intros fs. Qed.

Lemma preserves_if {A} (b : bool) (m1 m2 : io A) :
  preserves base m1 → preserves base m2 → preserves base (if b then m1 else m2).
Proof. by destruct b. Qed.

Lemma os_mkdir_preserves p : preserves base (os_mkdir p).
Proof.
  intros fs Hfs. unfold os_mkdir. destruct (stat fs p) eqn:E; [done|].
  destruct (Path_is_dir fs (parent p)); [|done]. simpl.
  apply stat_None_lookup in E as [_ E].
  apply insert_subseteq_r; [|done]. by eapply lookup_weaken_None.
Qed.

Lemma Path_mkdir_single_preserves exist_ok p :
  preserves base (Path_mkdir_single exist_ok p).
Proof.
  intros fs Hfs. unfold Path_mkdir_single.
  pose proof (os_mkdir_preserves p fs Hfs) as H.
  destruct (os_mkdir p fs) as [fs' [u|e]]; simpl in *; [done|].
  destruct e; simpl; try done; by destruct (exist_ok && _).
Qed.

Lemma Path_mkdir_preserves exist_ok p : preserves base (Path_mkdir exist_ok p).
Proof.
  revert exist_ok. induction p as [|c dir IH]; intros exist_ok fs Hfs; simpl.
  - by destruct (exist_ok && _).
  - pose proof (os_mkdir_preserves (c :: dir) fs Hfs) as H.
    destruct (os_mkdir (c :: dir) fs) as [fs' [u|e]]; simpl in *; [done|].
    destruct e; simpl; try done;
      try by destruct (exist_ok && _).
    apply (preserves_bind (Path_mkdir true dir)
             (λ _, Path_mkdir_single exist_ok (c :: dir))); [apply IH| |done].
    intros _. apply Path_mkdir_single_preserves.
Qed.

Lemma os_makedirs_preserves p : preserves base (os_makedirs p).
Proof.
  induction p as [|c head IH]; intros fs Hfs.
  - exact (os_mkdir_preserves [] fs Hfs).
  - cbn [os_makedirs]. destruct (negb (Path_exists fs head)).
    + specialize (IH fs Hfs).
      destruct (os_makedirs head fs) as [fs1 [u|e]]; cbn [fst] in *.
      * by apply os_mkdir_preserves.
      * destruct e; try done. by apply os_mkdir_preserves.
    + by apply os_mkdir_preserves.
Qed.

Lemma shutil_copy2_preserves src dst :
  base !! dst = None → base !! (name src :: dst) = None →
  preserves base (shutil_copy2 src dst).
Proof.
  intros H1 H2 fs Hfs. unfold shutil_copy2.
  set (dst' := if Path_is_dir fs dst then name src :: dst else dst).
  assert (base !! dst' = None) as Hdst'.
  { unfold dst'. by destruct (Path_is_dir fs dst). }
  destruct (bool_decide (src = dst') && Path_exists fs src); [done|].
  destruct (stat fs src) as [[data mtime|]|]; [|done..].
  destruct (stat fs dst') as [[]|].
  - by apply insert_subseteq_r.
  - done.
  - destruct (Path_is_dir fs (parent dst')); [|done].
    by apply insert_subseteq_r.
Qed.

Lemma free_below_child dst c : free_below base dst → free_below base (c :: dst).
Proof.
  intros H q Hq. apply H. etrans; [|done]. by apply suffix_cons_r.
Qed.

Lemma free_below_self dst : free_below base dst → base !! dst = None.
Proof. intros H. by apply H. Qed.

Lemma copy_entries_preserves (copytree : path → path → io unit) src dst es :
  (∀ c, preserves base (copytree (c :: src) (c :: dst))) →
  (∀ c, free_below base (c :: dst)) →
  ∀ errors, preserves base (copy_entries copytree src dst es errors).
Proof.
  intros Hrec Hfree. induction es as [|[c n] es IH]; intros errors fs Hfs; simpl.
  - done.
  - set (copied := match n with
                   | Dir => copytree (c :: src) (c :: dst) fs
                   | File _ _ => shutil_copy2 (c :: src) (c :: dst) fs
                   end).
    assert (base ⊆ copied.1) as Hc.
    { unfold copied. destruct n; [|by apply Hrec].
      apply shutil_copy2_preserves; [| |done].
      - by apply free_below_self.
      - by apply free_below_self, free_below_child. }
    destruct copied as [fs1 [u|e]]; simpl in *; [by apply IH|].
    destruct e; simpl; first [by apply IH|done].
Qed.

Lemma shutil_copytree_preserves limit :
  ∀ src dst, free_below base dst → preserves base (shutil_copytree limit src dst).
Proof.
  induction limit as [|deeper IH]; intros src dst Hfree fs Hfs; simpl; [done|].
  destruct (stat fs src) as [[]|]; [done| |done].
  pose proof (os_makedirs_preserves dst fs Hfs) as H1.
  destruct (os_makedirs dst fs) as [fs1 [u|e]]; simpl in *; [|done].
  pose proof (copy_entries_preserves (shutil_copytree deeper) src dst
                (entries fs src)
                (λ c, IH (c :: src) (c :: dst) (free_below_child dst c Hfree))
                (λ c, free_below_child dst c Hfree) [] fs1 H1) as H2.
  destruct (copy_entries _ _ _ _ _ fs1) as [fs2 [[|? ?]|e]]; done.
Qed.
End preservation.

(** ** Imports only add *)

Section imports_preserve.
Context (base : FS) (Hwf : wf base).
Implicit Types (fs : FS) (p q source dest : path).

Lemma path_ok_name p : path_ok p = true → no_slash (name p) = true.
Proof. destruct p; [done|]. by intros [? _]%andb_true_iff. Qed.

Lemma no_slash_not_absolute s : no_slash s = true → is_absolute s = false.
Proof.
  destruct s as [|c s]; [done|]. simpl.
  intros [Hc _]%andb_true_iff. by apply negb_true_iff in Hc.
Qed.

Lemma joinpath_below dest s :
  no_slash s = true → dest `suffix_of` joinpath dest s.
Proof.
  intros Hs. unfold joinpath. rewrite (no_slash_not_absolute s Hs).
  by apply suffix_app_r.
Qed.

Lemma free_below_absent fs dest :
  base ⊆ fs → stat fs dest = None → free_below base dest.
Proof.
  intros Hfs [Hne Hdest]%stat_None_lookup q Hq.
  apply (wf_free_below base dest q); [done| |done].
  destruct dest; [done|]. simpl. by eapply lookup_weaken_None.
Qed.

Lemma free_below_joinpath dest s :
  no_slash s = true → free_below base dest →
  base !! joinpath dest s = None
  ∧ ∀ c, base !! (c :: joinpath dest s) = None.
Proof.
  intros Hs Hfree. pose proof (joinpath_below dest s Hs) as Hbelow. split.
  - by apply Hfree.
  - intros c. apply Hfree. etrans; [done|]. by apply suffix_cons_r.
Qed.

Lemma reported_fst {A} (r : FS * result A) (quiet : list message)
    (loud : exn → list message) :
  (match r with
   | (fs', Ok _) => (fs', quiet)
   | (fs', Raise e) => (fs', loud e)
   end).1 = r.1.
Proof. by destruct r as [fs' [a|e]]. Qed.

Lemma handle_dropped_path_preserves limit model_path source fs :
  path_ok source = true → base ⊆ fs →
  base ⊆ (handle_dropped_path limit model_path source fs).1.
Proof.
  intros Hok%path_ok_name Hfs. unfold handle_dropped_path.
  destruct (negb (Path_exists fs source)); [done|].
  destruct (Path_is_file fs source && _).
  - set (dest := free_dest fs model_path (stem (name source))).
    pose proof (free_below_absent fs dest Hfs (free_dest_free _ _ _)) as Hfree.
    destruct (free_below_joinpath dest (name source) Hok Hfree) as [H1 H2].
    rewrite reported_fst.
    apply preserves_bind; [apply Path_mkdir_preserves| |done].
    intros _. by apply shutil_copy2_preserves.
  - set (dest := free_dest fs model_path _).
    pose proof (free_below_absent fs dest Hfs (free_dest_free _ _ _)) as Hfree.
    rewrite reported_fst.
    apply preserves_if; [| |done].
    + apply shutil_copy2_preserves; [by apply Hfree|].
      apply Hfree. by apply suffix_cons_r.
    + by apply shutil_copytree_preserves.
Qed.

Lemma handle_each_preserves limit model_path files :
  forallb path_ok files = true →
  ∀ fs, base ⊆ fs → base ⊆ (handle_each limit model_path files fs).1.
Proof.
  induction files as [|f files IH]; intros Hok fs Hfs; simpl; [done|].
  apply andb_true_iff in Hok as [Hf Hfiles].
  pose proof (handle_dropped_path_preserves limit model_path f fs Hf Hfs) as H1.
  destruct (handle_dropped_path limit model_path f fs) as [fs1 shown1].
  specialize (IH Hfiles fs1 H1).
  by destruct (handle_each limit model_path files fs1) as [fs2 shown2].
Qed.

Lemma filter_head_ok (keep : path → bool) files f rest :
  forallb path_ok files = true → List.filter keep files = f :: rest →
  path_ok f = true.
Proof.
  intros Hok E. rewrite forallb_forall in Hok. apply Hok.
  apply (List.filter_In keep). rewrite E. by left.
Qed.

Lemma handle_dropped_item_preserves limit model_path d fs :
  dropped_ok d = true → base ⊆ fs →
  base ⊆ (handle_dropped_item limit model_path d fs).1.
Proof.
  intros Hok Hfs. destruct d as [source|files]; simpl in *.
  - by apply handle_dropped_path_preserves.
  - destruct (_ && _); [|by apply handle_each_preserves].
    destruct (List.filter (has_ext ".pth") files) as [|pth_file ?] eqn:Ep; [done|].
    destruct (List.filter (has_ext ".index") files) as [|index_file ?] eqn:Ei; [done|].
    apply filter_head_ok, path_ok_name in Ep, Ei; [|done..].
    set (dest := free_dest fs model_path _).
    pose proof (free_below_absent fs dest Hfs (free_dest_free _ _ _)) as Hfree.
    destruct (free_below_joinpath dest (name pth_file) Ep Hfree) as [H1 H2].
    destruct (free_below_joinpath dest (name index_file) Ei Hfree) as [H3 H4].
    rewrite reported_fst.
    apply preserves_bind; [apply Path_mkdir_preserves| |done]. intros _.
    apply preserves_bind; [by apply shutil_copy2_preserves|]. intros _.
    by apply shutil_copy2_preserves.
Qed.
End imports_preserve.

(** ** When the calls succeed, and where they write *)

Section effects.
Implicit Types (fs : FS) (p q src dst dir : path) (c : string).

Lemma os_mkdir_fresh fs p :
  stat fs p = None → Path_is_dir fs (parent p) = true →
  os_mkdir p fs = (<[p:=Dir]> fs, Ok ()).
Proof. intros Hp Hdir. unfold os_mkdir. by rewrite Hp, Hdir. Qed.

Lemma Path_mkdir_fresh fs exist_ok p :
  stat fs p = None → Path_is_dir fs (parent p) = true →
  Path_mkdir exist_ok p fs = (<[p:=Dir]> fs, Ok ()).
Proof.
  intros Hp Hdir. destruct p as [|c dir]; [done|].
  cbn [Path_mkdir]. by rewrite os_mkdir_fresh.
Qed.

Lemma os_makedirs_fresh fs p :
  stat fs p = None → Path_is_dir fs (parent p) = true →
  os_makedirs p fs = (<[p:=Dir]> fs, Ok ()).
Proof.
  intros Hp Hdir. destruct p as [|c head]; [done|].
  cbn [os_makedirs]. simpl in Hdir.
  assert (Path_exists fs head = true) as ->.
  { apply Path_exists_true. apply Path_is_dir_true in Hdir. by rewrite Hdir. }
  simpl. by apply os_mkdir_fresh.
Qed.

Lemma shutil_copy2_fresh fs src dst data mtime :
  stat fs src = Some (File data mtime) →
  stat fs dst = None → Path_is_dir fs (parent dst) = true →
  shutil_copy2 src dst fs = (<[dst:=File data mtime]> fs, Ok ()).
Proof.
  intros Hsrc Hdst Hdir. unfold shutil_copy2.
  assert (Path_is_dir fs dst = false) as ->.
  { unfold Path_is_dir. by rewrite Hdst. }
  rewrite bool_decide_eq_false_2 by congruence. simpl.
  by rewrite Hsrc, Hdst, Hdir.
Qed.

Lemma not_below_child dst c q : ¬ dst `suffix_of` q → ¬ (c :: dst) `suffix_of` q.
Proof. intros H Hq. apply H. etrans; [|done]. by apply suffix_cons_r. Qed.

Lemma not_below_self dst c : ¬ (c :: dst) `suffix_of` dst.
Proof. intros H%suffix_length. simpl in H. lia. Qed.

Lemma os_mkdir_writes_below p fs : writes_below p (os_mkdir p) fs.
Proof.
  intros q Hq. unfold os_mkdir. destruct (stat fs p); [done|].
  destruct (Path_is_dir fs (parent p)); [|done]. simpl.
  apply lookup_insert_ne. by intros ->.
Qed.

Lemma shutil_copy2_writes_below src dst fs :
  writes_below dst (shutil_copy2 src dst) fs.
Proof.
  intros q Hq. unfold shutil_copy2.
  set (dst' := if Path_is_dir fs dst then name src :: dst else dst).
  assert (dst' ≠ q) as Hne.
  { unfold dst'. intros <-. apply Hq.
    destruct (Path_is_dir fs dst); [by apply suffix_cons_r|done]. }
  destruct (bool_decide (src = dst') && Path_exists fs src); [done|].
  destruct (stat fs src) as [[data mtime|]|]; [|done..].
  destruct (stat fs dst') as [[]|].
  - by apply lookup_insert_ne.
  - done.
  - destruct (Path_is_dir fs (parent dst')); [|done].
    by apply lookup_insert_ne.
Qed.

Lemma os_makedirs_in_dir fs c dir :
  Path_is_dir fs dir = true → os_makedirs (c :: dir) fs = os_mkdir (c :: dir) fs.
Proof.
  intros Hdir. cbn [os_makedirs].
  assert (Path_exists fs dir = true) as ->; [|done].
  apply Path_exists_true. apply Path_is_dir_true in Hdir. by rewrite Hdir.
Qed.

Lemma Path_is_dir_lookup fs fs' p :
  fs' !! p = fs !! p → Path_is_dir fs' p = Path_is_dir fs p.
Proof. intros E. unfold Path_is_dir. destruct p; [done|]. simpl. by rewrite E. Qed.

(** Inside a directory, the loop over the entries writes below the target
    only, provided each nested copy does. *)
Lemma copy_entries_writes_below (copytree : path → path → io unit) src c0 dir es :
  (∀ c fs, Path_is_dir fs (c0 :: dir) = true →
           writes_below (c :: c0 :: dir) (copytree (c :: src) (c :: c0 :: dir)) fs) →
  ∀ errors fs, Path_is_dir fs (c0 :: dir) = true →
    writes_below (c0 :: dir) (copy_entries copytree src (c0 :: dir) es errors) fs.
Proof.
  intros Hrec. induction es as [|[c n] es IH]; intros errors fs Hdir q Hq; simpl.
  - done.
  - set (copied := match n with
                   | Dir => copytree (c :: src) (c :: c0 :: dir) fs
                   | File _ _ => shutil_copy2 (c :: src) (c :: c0 :: dir) fs
                   end).
    assert (∀ q', ¬ (c :: c0 :: dir) `suffix_of` q' → copied.1 !! q' = fs !! q')
      as Hc.
    { unfold copied. destruct n.
      - apply shutil_copy2_writes_below.
      - by apply Hrec. }
    assert (Path_is_dir copied.1 (c0 :: dir) = true) as Hdir'.
    { rewrite <-Hdir. apply Path_is_dir_lookup, Hc, not_below_self. }
    rewrite <-(Hc q) by by apply not_below_child.
    destruct copied as [fs1 [u|e]]; simpl in *; [by apply IH|].
    destruct e; simpl; first [by apply IH|done].
Qed.

Lemma shutil_copytree_writes_below limit :
  ∀ src c dir fs, Path_is_dir fs dir = true →
    writes_below (c :: dir) (shutil_copytree limit src (c :: dir)) fs.
Proof.
  induction limit as [|deeper IH]; intros src c dir fs Hdir q Hq;
    cbn [shutil_copytree]; [done|].
  destruct (stat fs src) as [[]|]; [done| |done].
  rewrite os_makedirs_in_dir by done.
  pose proof (os_mkdir_writes_below (c :: dir) fs q Hq) as H1.
  unfold os_mkdir in *. destruct (stat fs (c :: dir)) eqn:Ec; [done|].
  cbn [parent tail] in *. rewrite Hdir in *. cbn [fst] in H1.
  pose proof (copy_entries_writes_below (shutil_copytree deeper) src c dir
                (entries fs src) (λ c' fs', IH (c' :: src) c' (c :: dir) fs')
                [] (<[c :: dir:=Dir]> fs)) as H2.
  rewrite <-H1, <-H2; [| |done].
  - by destruct (copy_entries _ _ _ _ _ _) as [fs2 [[|? ?]|e]].
  - unfold Path_is_dir. cbn [stat]. by rewrite lookup_insert_eq.
Qed.

(** The target of a recursive copy is there afterwards. *)
Lemma shutil_copytree_makes_target limit src c dir fs :
  wf fs → stat fs src = Some Dir → stat fs (c :: dir) = None →
  Path_is_dir fs dir = true →
  (shutil_copytree (S limit) src (c :: dir) fs).1 !! (c :: dir) = Some Dir.
Proof.
  intros Hwf Hsrc Hdst Hdir. cbn [shutil_copytree]. rewrite Hsrc.
  rewrite os_makedirs_fresh by done.
  set (made := <[c :: dir:=Dir]> fs).
  assert (∀ c', free_below made (c' :: c :: dir)) as Hfree.
  { intros c' q Hq. unfold made. rewrite lookup_insert_ne.
    - apply (wf_free_below fs (c :: dir) q); [done..|].
      etrans; [|done]. by apply suffix_cons_r.
    - intros E. subst q. exact (not_below_self _ _ Hq). }
  pose proof (copy_entries_preserves made (shutil_copytree limit) src (c :: dir)
                (entries fs src)
                (λ c', shutil_copytree_preserves made limit _ _ (Hfree c'))
                Hfree [] made (reflexivity _)) as Hsub.
  assert (made !! (c :: dir) = Some Dir) as Hmade
    by (unfold made; by rewrite lookup_insert_eq).
  destruct (copy_entries _ _ _ _ _ made) as [fs2 [[|? ?]|e]]; cbn [fst] in *;
    by eapply lookup_weaken.
Qed.
End effects.

(** ** Single imports under a root that is a directory *)

Section single_imports.
Context (limit : nat) (model_path : path) (fs : FS).
Context (Hwf : wf fs) (Hroot : Path_is_dir fs model_path = true).
Implicit Types (source : path) (c : string).

Lemma free_dest_first_free model_name :
  plain_name model_name = true →
  ∃ dest_name,
    free_dest fs model_path model_name = dest_name :: model_path
    ∧ first_free_name fs model_path model_name dest_name.
Proof.
  intros Hplain. pose proof Hplain as (Hns & _)%plain_name_spec.
  destruct (free_dest_spec fs model_path model_name) as (Hfree & Hkeep & Hnum).
  rewrite joinpath_plain_name in Hkeep, Hnum by done.
  apply Path_exists_false in Hfree.
  destruct (Path_exists fs (model_name :: model_path)) eqn:E.
  - destruct (Hnum eq_refl) as (k & Hk & Hdest & Hbelow).
    rewrite joinpath_numbered in Hdest by done.
    exists (numbered model_name k). split; [done|]. rewrite Hdest in Hfree.
    split; [done|]. right. split; [by apply Path_exists_true in E|].
    exists k. split; [done|]. split; [done|]. intros j Hj.
    specialize (Hbelow j Hj). rewrite joinpath_numbered in Hbelow by done.
    by apply Path_exists_true in Hbelow.
  - exists model_name. rewrite (Hkeep eq_refl) in Hfree |- *.
    split; [done|]. split; [done|]. by left.
Qed.

Lemma wf_stat_file source data mtime :
  stat fs source = Some (File data mtime) →
  fs !! source = Some (File data mtime) ∧ plain_name (name source) = true.
Proof.
  destruct source as [|c dir]; [done|]. simpl. intros E. split; [done|].
  by apply (wf_lookup fs c dir _ Hwf E).
Qed.

Lemma in_fresh_folder dest_name c :
  fs !! (dest_name :: model_path) = None →
  fs !! (c :: dest_name :: model_path) = None.
Proof.
  intros E. apply (wf_free_below fs (dest_name :: model_path)); [done..|].
  by apply suffix_cons_r.
Qed.

(** A dropped [.pth] file: a new folder, and the file copied into it. *)
Lemma import_pth_file source data mtime :
  stat fs source = Some (File data mtime) →
  suffix (name source) = ".pth" →
  plain_name (stem (name source)) = true →
  ∃ dest_name,
    first_free_name fs model_path (stem (name source)) dest_name
    ∧ handle_dropped_item limit model_path (one source) fs
      = (<[name source :: dest_name :: model_path:=File data mtime]>
           (<[dest_name :: model_path:=Dir]> fs), []).
Proof.
  intros Hsrc Hext Hstem.
  destruct (free_dest_first_free _ Hstem) as (dest_name & Hdest & Hff).
  exists dest_name. split; [done|]. destruct Hff as [Hfree _].
  destruct (wf_stat_file _ _ _ Hsrc) as [Hlook Hname].
  cbn [handle_dropped_item]. unfold handle_dropped_path.
  assert (Path_exists fs source = true) as ->
    by (apply Path_exists_true; by rewrite Hsrc).
  assert (Path_is_file fs source = true) as ->
    by (unfold Path_is_file; by rewrite Hsrc).
  rewrite Hext, Hdest, String.eqb_refl. cbn [negb andb].
  rewrite joinpath_plain_name by done.
  unfold bind. rewrite Path_mkdir_fresh by done.
  rewrite (shutil_copy2_fresh _ _ _ data mtime); [done| | |].
  - destruct source; [done|]. cbn [stat] in *.
    rewrite lookup_insert_ne; [done|]. intros E. rewrite E in Hfree. congruence.
  - cbn [stat]. rewrite lookup_insert_ne; [by apply in_fresh_folder|].
    intros E. apply (f_equal length) in E. simpl in E. lia.
  - unfold Path_is_dir. cbn [parent tail stat]. by rewrite lookup_insert_eq.
Qed.

(** A dropped file of any other kind: copied to the destination itself. *)
Lemma import_other_file source data mtime :
  stat fs source = Some (File data mtime) →
  suffix (name source) ≠ ".pth" →
  plain_name (stem (name source)) = true →
  ∃ dest_name,
    first_free_name fs model_path (stem (name source)) dest_name
    ∧ handle_dropped_item limit model_path (one source) fs
      = (<[dest_name :: model_path:=File data mtime]> fs, []).
Proof.
  intros Hsrc Hext Hstem.
  destruct (free_dest_first_free _ Hstem) as (dest_name & Hdest & Hff).
  exists dest_name. split; [done|]. destruct Hff as [Hfree _].
  cbn [handle_dropped_item]. unfold handle_dropped_path.
  assert (Path_exists fs source = true) as ->
    by (apply Path_exists_true; by rewrite Hsrc).
  assert (Path_is_file fs source = true) as ->
    by (unfold Path_is_file; by rewrite Hsrc).
  apply String.eqb_neq in Hext. rewrite Hext, Hdest. cbn [negb andb].
  by rewrite (shutil_copy2_fresh _ _ _ data mtime).
Qed.

(** A dropped directory: the destination becomes a directory and nothing
    outside of it changes. *)
Lemma import_directory source :
  stat fs source = Some Dir →
  plain_name (name source) = true →
  0 < limit →
  ∃ dest_name,
    first_free_name fs model_path (name source) dest_name
    ∧ (handle_dropped_item limit model_path (one source) fs).1
        !! (dest_name :: model_path) = Some Dir
    ∧ ∀ q, ¬ (dest_name :: model_path) `suffix_of` q →
        (handle_dropped_item limit model_path (one source) fs).1 !! q = fs !! q.
Proof.
  intros Hsrc Hname Hlimit.
  destruct (free_dest_first_free _ Hname) as (dest_name & Hdest & Hff).
  exists dest_name. split; [done|]. destruct Hff as [Hfree _].
  cbn [handle_dropped_item]. unfold handle_dropped_path.
  assert (Path_exists fs source = true) as ->
    by (apply Path_exists_true; by rewrite Hsrc).
  assert (Path_is_file fs source = false) as ->
    by (unfold Path_is_file; by rewrite Hsrc).
  rewrite Hdest. cbn [negb andb]. rewrite reported_fst.
  destruct limit as [|deeper]; [lia|]. split.
  - by apply shutil_copytree_makes_target.
  - by apply shutil_copytree_writes_below.
Qed.
End single_imports.

(** ** Listing *)

Section listing.
Implicit Types (fs : FS) (dir folder : path) (c : string) (n : node).

Lemma elem_of_entries fs dir c n :
  (c, n) ∈ entries fs dir ↔ fs !! (c :: dir) = Some n.
Proof.
  unfold entries. rewrite list_elem_of_omap. split.
  - intros ([q n'] & Hin%elem_of_map_to_list & Hc). unfold child_of in Hc.
    simpl in Hc. destruct q as [|c' d]; [done|].
    destruct (decide (d = dir)) as [->|]; [|done]. by simplify_eq.
  - intros E. exists (c :: dir, n). split; [by apply elem_of_map_to_list|].
    unfold child_of. simpl. by rewrite decide_True.
Qed.

Lemma NoDup_omap_inj {A B} (f : A → option B) (l : list A) :
  (∀ x y z, f x = Some z → f y = Some z → x = y) →
  NoDup l → NoDup (omap f l).
Proof.
  intros Hinj. induction 1 as [|x l Hx Hl IH]; simpl; [constructor|].
  destruct (f x) as [z|] eqn:E; [|done].
  constructor; [|done]. intros (y & Hy & Ey)%list_elem_of_omap.
  by rewrite (Hinj x y z E Ey) in Hx.
Qed.

Lemma NoDup_entries_names fs dir : NoDup (entries fs dir).*1.
Proof.
  apply NoDup_fmap_fst.
  - intros c n1 n2 H1%elem_of_entries H2%elem_of_entries. congruence.
  - apply NoDup_omap_inj; [|apply NoDup_map_to_list].
    intros [q1 n1] [q2 n2] [c n]. unfold child_of. simpl.
    destruct q1 as [|c1 d1], q2 as [|c2 d2]; try done.
    repeat case_decide; intros; by simplify_eq.
Qed.

Lemma elem_of_entries_names fs dir c :
  c ∈ (entries fs dir).*1 ↔ is_Some (fs !! (c :: dir)).
Proof.
  rewrite list_elem_of_fmap. split.
  - intros ([c' n] & -> & Hin%elem_of_entries). by exists n.
  - intros [n Hn]. exists (c, n). split; [done|]. by apply elem_of_entries.
Qed.

Lemma has_any_spec fs folder :
  existsb (λ _, true) (entries fs folder) = true ↔ has_child fs folder.
Proof.
  rewrite existsb_exists. split.
  - intros ([c n] & Hin%list_elem_of_In%elem_of_entries & _). exists c. by exists n.
  - intros (c & n & Hn). exists (c, n). split; [|done].
    by apply list_elem_of_In, elem_of_entries.
Qed.

Lemma any_file_with_suffix_spec ext fs folder :
  any_file_with_suffix ext (entries fs folder) = true ↔
  has_file_with ext fs folder.
Proof.
  unfold any_file_with_suffix. rewrite existsb_exists. split.
  - intros ([c n] & [Hin Hfile]%List.filter_In & Hext%String.eqb_eq).
    apply list_elem_of_In, elem_of_entries in Hin. simpl in *.
    destruct n as [data mtime|]; [|done]. by exists c, data, mtime.
  - intros (c & data & mtime & Hc & Hext). exists (c, File data mtime).
    split; [|by apply String.eqb_eq].
    apply List.filter_In. split; [|done]. by apply list_elem_of_In, elem_of_entries.
Qed.

(** The row computed for a folder shows the status the specification
    assigns to it. *)
Lemma model_row_shows fs c dir :
  ∃ st, status_spec fs (c :: dir) st ∧ shows c st (model_row fs (c :: dir)).
Proof.
  unfold model_row.
  pose proof (has_any_spec fs (c :: dir)) as Hany.
  pose proof (any_file_with_suffix_spec ".pth" fs (c :: dir)) as Hpth.
  pose proof (any_file_with_suffix_spec ".index" fs (c :: dir)) as Hindex.
  destruct (existsb _ (entries fs (c :: dir))).
  - destruct (any_file_with_suffix ".pth" _).
    + destruct (any_file_with_suffix ".index" _).
      * exists complete. simpl. split; [|done]. split; [by apply Hany|].
        split; [by apply Hpth|by apply Hindex].
      * exists missing_files. simpl. split; [|by split; [|eexists]].
        split; [by apply Hany|]. intros [_ H%Hindex]. done.
    + exists missing_files. simpl. split; [|by split; [|eexists]].
      split; [by apply Hany|]. intros [H%Hpth _]. done.
  - exists empty. simpl. split; [|done]. intros H%Hany. done.
Qed.

Lemma StronglySorted_List_filter {A} (R : relation A) (keep : A → bool) l :
  StronglySorted R l → StronglySorted R (List.filter keep l).
Proof.
  induction 1 as [|x l Hl IH Hx]; simpl; [constructor|].
  destruct (keep x); [|done]. constructor; [done|].
  rewrite Forall_forall in Hx |- *. intros y Hy%list_elem_of_In%List.filter_In.
  apply Hx, list_elem_of_In, Hy.
Qed.

Lemma NoDup_List_filter {A} (keep : A → bool) (l : list A) :
  NoDup l → NoDup (List.filter keep l).
Proof.
  induction 1 as [|x l Hx Hl IH]; simpl; [constructor|].
  destruct (keep x); [|done]. constructor; [|done].
  intros Hin%list_elem_of_In%List.filter_In. apply Hx, list_elem_of_In, Hin.
Qed.

Lemma List_filter_fmap {A B} (g : A → B) (keep : B → bool) l :
  List.filter keep (g <$> l) = g <$> List.filter (λ x, keep (g x)) l.
Proof.
  induction l as [|x l IH]; [done|].
  cbn [fmap list_fmap List.filter]. fold (g <$> l).
  destruct (keep (g x)); cbn [fmap list_fmap]; by rewrite IH.
Qed.

Lemma load_models_in_dir fs model_path :
  Path_is_dir fs model_path = true →
  load_models model_path fs
  = (fs, Ok (model_row fs <$> ((λ c, c :: model_path) <$> listed_folders fs model_path))).
Proof.
  intros Hdir. unfold load_models, bind, gets, ret, Path_iterdir.
  assert (Path_exists fs model_path = true) as ->.
  { apply Path_exists_true. apply Path_is_dir_true in Hdir. by rewrite Hdir. }
  apply Path_is_dir_true in Hdir. simpl. rewrite Hdir.
  by rewrite List_filter_fmap.
Qed.

Lemma listed_folders_spec fs model_path :
  StronglySorted String.le (listed_folders fs model_path)
  ∧ NoDup (listed_folders fs model_path)
  ∧ ∀ c, c ∈ listed_folders fs model_path ↔ fs !! (c :: model_path) = Some Dir.
Proof.
  unfold listed_folders. split; [|split].
  - apply StronglySorted_List_filter, StronglySorted_merge_sort; apply _.
  - apply NoDup_List_filter. rewrite merge_sort_Permutation.
    apply NoDup_entries_names.
  - intros c. rewrite list_elem_of_In, List.filter_In, <-list_elem_of_In.
    rewrite merge_sort_Permutation, elem_of_entries_names, Path_is_dir_true.
    simpl. split; [by intros [_ ?]|]. intros E. by rewrite E.
Qed.
End listing.

(** ** Creating the root *)

Section root.
Context (fs : FS) (Hwf : wf fs).
Implicit Types (p q a dir : path) (c : string).

Lemma no_file_on_parent c dir :
  no_file_on fs (c :: dir) = true → no_file_on fs dir = true.
Proof. simpl. by intros [_ ?]%andb_true_iff. Qed.

Lemma no_file_on_stat p :
  no_file_on fs p = true → Path_is_dir fs p = false → stat fs p = None.
Proof.
  intros Hno Hdir. destruct p as [|c dir]; [done|]. simpl in Hno.
  apply andb_true_iff in Hno as [Hfile%negb_true_iff _].
  unfold Path_is_dir, Path_is_file in *.
  by destruct (stat fs (c :: dir)) as [[]|].
Qed.

Lemma missing_errno_no_file p :
  no_file_on fs p = true → missing_errno fs p = FileNotFoundError.
Proof.
  induction p as [|c dir IH]; [done|]. intros Hno%no_file_on_parent. simpl.
  destruct (stat fs dir) as [[data mtime|]|] eqn:E; [|done|by apply IH].
  destruct dir as [|c' dir']; [done|]. simpl in Hno.
  apply andb_true_iff in Hno as [Hfile%negb_true_iff _].
  unfold Path_is_file in Hfile. by rewrite E in Hfile.
Qed.

Lemma wf_ancestors_dir dir a :
  Path_is_dir fs dir = true → a `suffix_of` dir → Path_is_dir fs a = true.
Proof.
  intros Hdir [ext ->]. induction ext as [|c ext IH]; [done|]. apply IH.
  apply Path_is_dir_true in Hdir. simpl in Hdir.
  apply Path_is_dir_true. by apply (wf_lookup fs c (ext ++ a) Dir).
Qed.

Lemma suffix_cons_inv' a c dir :
  a `suffix_of` c :: dir → a = c :: dir ∨ a `suffix_of` dir.
Proof.
  intros [[|c' ext] E]; [by left|]. right. simplify_eq/=. by exists ext.
Qed.
End root.

(** [Path.mkdir(parents=True)] on a missing path whose ancestors are no
    regular files: it succeeds, every ancestor is a directory afterwards,
    and only the path and its ancestors were touched. *)
Lemma Path_mkdir_chain fs p :
  wf fs → ∀ exist_ok, stat fs p = None → no_file_on fs p = true →
  ∃ fs', Path_mkdir exist_ok p fs = (fs', Ok ())
         ∧ fs ⊆ fs'
         ∧ (∀ a, a `suffix_of` p → Path_is_dir fs' a = true)
         ∧ (∀ q, ¬ q `suffix_of` p → fs' !! q = fs !! q).
Proof.
  intros Hwf. induction p as [|c dir IH]; intros exist_ok Hp Hno; [done|].
  cbn [Path_mkdir]. unfold os_mkdir. rewrite Hp. cbn [parent tail].
  destruct (Path_is_dir fs dir) eqn:Hdir.
  - exists (<[c :: dir:=Dir]> fs). split; [done|]. split; [|split].
    + by apply insert_subseteq.
    + intros a [->|Ha]%suffix_cons_inv'.
      * unfold Path_is_dir. cbn [stat]. by rewrite lookup_insert_eq.
      * pose proof (wf_ancestors_dir fs Hwf dir a Hdir Ha) as Hd.
        rewrite <-Hd. apply Path_is_dir_lookup, lookup_insert_ne.
        intros <-. apply suffix_length in Ha. simpl in Ha. lia.
    + intros q Hq. apply lookup_insert_ne. by intros <-.
  - rewrite (missing_errno_no_file fs (c :: dir) Hno).
    pose proof (no_file_on_parent fs c dir Hno) as Hno'.
    destruct (IH true (no_file_on_stat fs dir Hno' Hdir) Hno')
      as (fs1 & E1 & Hsub & Hdirs & Hsame).
    unfold bind. rewrite E1. unfold Path_mkdir_single, os_mkdir.
    assert (fs1 !! (c :: dir) = None) as Hp1.
    { rewrite Hsame; [done|]. intros H%suffix_length. simpl in H. lia. }
    cbn [stat parent tail]. rewrite Hp1, (Hdirs dir) by done.
    exists (<[c :: dir:=Dir]> fs1). split; [done|]. split; [|split].
    + etrans; [done|]. by apply insert_subseteq.
    + intros a [->|Ha]%suffix_cons_inv'.
      * unfold Path_is_dir. cbn [stat]. by rewrite lookup_insert_eq.
      * rewrite <-(Hdirs a Ha). apply Path_is_dir_lookup, lookup_insert_ne.
        intros <-. apply suffix_length in Ha. simpl in Ha. lia.
    + intros q Hq. rewrite lookup_insert_ne by by intros <-.
      apply Hsame. intros Hq'. apply Hq. by apply suffix_cons_r.
Qed.

Lemma entries_nil fs dir :
  (∀ c, fs !! (c :: dir) = None) → entries fs dir = [].
Proof.
  intros Hnone. apply elem_of_nil_inv. intros [c n] Hin%elem_of_entries.
  by rewrite Hnone in Hin.
Qed.

Lemma load_models_missing_root fs model_path :
  wf fs → stat fs model_path = None → no_file_on fs model_path = true →
  ∃ fs', load_models model_path fs = (fs', Ok [])
         ∧ fs ⊆ fs'
         ∧ ∀ a, a `suffix_of` model_path → Path_is_dir fs' a = true.
Proof.
  intros Hwf Hroot Hno.
  destruct (Path_mkdir_chain fs model_path Hwf false Hroot Hno)
    as (fs' & E & Hsub & Hdirs & Hsame).
  exists fs'. split; [|done].
  unfold load_models, bind, gets, ret, Path_iterdir.
  assert (Path_exists fs model_path = false) as ->
    by by apply Path_exists_false.
  cbn [negb]. rewrite E.
  pose proof (Hdirs model_path (reflexivity _)) as Hdir.
  apply Path_is_dir_true in Hdir. rewrite Hdir.
  rewrite entries_nil; [done|]. intros c. rewrite Hsame.
  - apply (wf_free_below fs model_path); [done..|]. by apply suffix_cons_r.
  - intros H%suffix_length. simpl in H. lia.
Qed.

(** ** Status and rows determine each other *)

Lemma append_ne s t : t ≠ "" → s +:+ t ≠ s.
Proof. intros Ht. induction s as [|c s IH]; simpl; [done|]. by intros [= E]. Qed.

Lemma status_spec_unique fs folder st1 st2 :
  status_spec fs folder st1 → status_spec fs folder st2 → st1 = st2.
Proof. destruct st1, st2; simpl; tauto. Qed.

Lemma shows_unique folder_name st1 st2 row :
  shows folder_name st1 row → shows folder_name st2 row → st1 = st2.
Proof.
  destruct st1, st2; simpl; try done.
  - intros -> [_ [? ?]]. done.
  - by intros -> [= ].
  - intros [_ [? ?]] ->. done.
  - intros [E _] ->. simpl in E. by apply (inj (String.app folder_name)) in E.
  - by intros -> [= ].
  - intros -> [E _]. simpl in E. by apply (inj (String.app folder_name)) in E.
Qed.

Lemma model_row_shows_iff fs c dir st :
  shows c st (model_row fs (c :: dir)) ↔ status_spec fs (c :: dir) st.
Proof.
  destruct (model_row_shows fs c dir) as (st0 & Hspec & Hshows). split.
  - intros H. by rewrite (shows_unique _ _ _ _ H Hshows).
  - intros H. by rewrite (status_spec_unique _ _ _ _ H Hspec).
Qed.

(** The text of a row that is not complete is the folder name with a mark,
    never the folder name itself. *)
Lemma marked_text fs c dir :
  ¬ status_spec fs (c :: dir) complete →
  (text (model_row fs (c :: dir)) = c +:+ EMPTY_MARK
   ∨ text (model_row fs (c :: dir)) = c +:+ WARNING_MARK)
  ∧ text (model_row fs (c :: dir)) ≠ c.
Proof.
  intros Hnot. destruct (model_row_shows fs c dir) as ([] & Hspec & Hshows);
    simpl in Hshows.
  - done.
  - destruct Hshows as [-> _]. split; [by right|]. by apply append_ne.
  - rewrite Hshows. simpl. split; [by left|]. by apply append_ne.
Qed.

(** ** Renaming *)

Section renaming.
Context (model_path : path) (current : item) (new_name : string) (w : window).
Context (Hnew : new_name ≠ "") (Hother : new_name ≠ text current).

Lemma rename_guard_passes :
  true && negb (String.eqb new_name "") && negb (String.eqb new_name (text current))
  = true.
Proof.
  apply String.eqb_neq in Hnew, Hother. by rewrite Hnew, Hother.
Qed.

(** The new name is taken: a warning, and nothing changes. *)
Lemma rename_model_collision :
  Path_exists (disk w) (joinpath model_path new_name) = true →
  rename_model model_path (Some current) new_name true w
  = (w, [warning "Rename Error" "A model with that name already exists." no_detail]).
Proof.
  intros Hex. unfold rename_model. by rewrite rename_guard_passes, Hex.
Qed.

(** The path built from the row's text does not exist: the rename raises,
    the error is shown, and nothing changes. *)
Lemma rename_model_missing_source :
  Path_exists (disk w) (joinpath model_path new_name) = false →
  stat (disk w) (joinpath model_path (text current)) = None →
  rename_model model_path (Some current) new_name true w
  = (w, [critical "Rename Error" "Failed to rename model:"
           (about_exn (missing_errno (disk w) (joinpath model_path (text current))))]).
Proof.
  intros Hfree Hsrc. unfold rename_model, Path_rename.
  rewrite rename_guard_passes, Hfree, Hsrc. by destruct w.
Qed.
End renaming.

(** A dialog that is cancelled, left empty, or left at the row's own text:
    nothing happens and nothing is shown. *)
Lemma rename_model_declined model_path current new_name ok w :
  ok = false ∨ new_name = "" ∨ new_name = text current →
  rename_model model_path (Some current) new_name ok w = (w, []).
Proof.
  intros H. unfold rename_model.
  assert (ok && negb (String.eqb new_name "")
          && negb (String.eqb new_name (text current)) = false) as ->; [|done].
  destruct H as [->|[->| ->]]; [done| |].
  - by rewrite andb_false_r.
  - by rewrite String.eqb_refl, andb_false_r.
Qed.

(** ** Batches *)

Lemma handle_each_foldl limit model_path files :
  ∀ fs shown,
  foldl (λ done f,
           let r := handle_dropped_item limit model_path (one f) done.1 in
           (r.1, done.2 ++ r.2))
        (fs, shown) files
  = ((handle_each limit model_path files fs).1,
     shown ++ (handle_each limit model_path files fs).2).
Proof.
  induction files as [|f files IH]; intros fs shown; cbn [foldl handle_each].
  - by rewrite app_nil_r.
  - rewrite IH. cbn [handle_dropped_item fst snd].
    destruct (handle_dropped_path limit model_path f fs) as [fs1 shown1].
    cbn [fst snd].
    destruct (handle_each limit model_path files fs1) as [fs2 shown2].
    cbn [fst snd]. by rewrite app_assoc.
Qed.

(** ** [str.strip] *)

Lemma lstrip_nil_iff s : lstrip s = [] ↔ Forall (λ c, isspace c = true) s.
Proof.
  induction s as [|c s IH]; simpl; [by split|].
  destruct (isspace c) eqn:E.
  - rewrite IH. split; [by constructor|by inversion 1].
  - split; [done|]. inversion 1. congruence.
Qed.

Lemma lstrip_spaces_iff s :
  Forall (λ c, isspace c = true) (lstrip s) ↔ Forall (λ c, isspace c = true) s.
Proof.
  induction s as [|c s IH]; simpl; [done|].
  destruct (isspace c) eqn:E; [|done].
  rewrite IH. split; [by constructor|by inversion 1].
Qed.

Lemma strip_nil_iff s : strip s = [] ↔ Forall (λ c, isspace c = true) s.
Proof.
  unfold strip, rstrip. rewrite <-lstrip_spaces_iff.
  generalize (lstrip s). intros t.
  rewrite <-(Forall_reverse _ t), <-lstrip_nil_iff.
  split; [|by intros ->].
  intros E. apply (f_equal reverse) in E. by rewrite reverse_involutive in E.
Qed.

(** ** Text mode *)

Lemma universal_newlines_spaces pending_cr s :
  Forall (λ c, isspace c = true) (universal_newlines pending_cr s)
  ↔ Forall (λ c, isspace c = true) s.
Proof.
  revert pending_cr. induction s as [|c s IH]; intros pending_cr; simpl; [done|].
  destruct (c =? 13)%N eqn:E13.
  - apply N.eqb_eq in E13 as ->. rewrite !Forall_cons, IH.
    split; intros [_ ?]; by split.
  - destruct ((c =? 10)%N && pending_cr) eqn:E10.
    + apply andb_true_iff in E10 as [->%N.eqb_eq _]. rewrite Forall_cons, IH.
      split; [by split|by intros [_ ?]].
    + by rewrite !Forall_cons, IH.
Qed.

(** What is read in text mode holds no [\r]. *)
Lemma universal_newlines_no_cr pending_cr s :
  13%N ∉ universal_newlines pending_cr s.
Proof.
  revert pending_cr. induction s as [|c s IH]; intros pending_cr; simpl.
  - apply not_elem_of_nil.
  - destruct (c =? 13)%N eqn:E13.
    + apply not_elem_of_cons. split; [done|apply IH].
    + destruct ((c =? 10)%N && pending_cr); [apply IH|].
      apply not_elem_of_cons. split; [|apply IH].
      apply N.eqb_neq in E13. congruence.
Qed.

(** A text without [\r] is read back as it was written, on either
    platform. *)
Lemma universal_newlines_translate os data :
  13%N ∉ data →
  universal_newlines false (translate_newlines os data) = data.
Proof.
  induction data as [|c data IH]; [done|].
  intros [Hc Hdata]%not_elem_of_cons. cbn [translate_newlines].
  destruct (c =? 10)%N eqn:E10.
  - apply N.eqb_eq in E10 as ->. destruct os; simpl; by rewrite IH.
  - simpl. assert ((c =? 13)%N = false) as -> by (apply N.eqb_neq; congruence).
    rewrite E10. simpl. by rewrite IH.
Qed.

Lemma elem_of_lstrip c s : c ∈ lstrip s → c ∈ s.
Proof.
  induction s as [|c' s IH]; simpl; [done|].
  destruct (isspace c'); [|done]. intros H. right. by apply IH.
Qed.

Lemma elem_of_strip c s : c ∈ strip s → c ∈ s.
Proof.
  unfold strip, rstrip. rewrite elem_of_reverse. intros H%elem_of_lstrip.
  rewrite elem_of_reverse in H. by apply elem_of_lstrip.
Qed.

(** ** [get_model_path] where it returns *)

(** Unless the test [exists()] itself raises, [get_model_path] returns: the
    default when the file is absent, when reading it raises, and when it
    holds whitespace only; otherwise the text it reads, stripped, which is
    not empty. *)
Lemma get_model_path_returns :
  get_model_path absent = Ok DEFAULT_MODELS_PATH
  ∧ (∀ f, f = a_directory ∨ f = unreadable ∨ f = not_text →
       get_model_path f = Ok DEFAULT_MODELS_PATH)
  ∧ (∀ content, Forall (λ c, isspace c = true) content →
       get_model_path (holding content) = Ok DEFAULT_MODELS_PATH)
  ∧ (∀ content, ¬ Forall (λ c, isspace c = true) content →
       get_model_path (holding content)
       = Ok (strip (universal_newlines false content))
       ∧ strip (universal_newlines false content) ≠ []).
Proof.
  split; [done|]. split; [by intros f [->|[->| ->]]|]. split.
  - intros content Hspace%(universal_newlines_spaces false)%strip_nil_iff.
    unfold get_model_path. simpl. rewrite Hspace.
    by rewrite bool_decide_eq_false_2 by by intros H.
  - intros content Hsome.
    assert (strip (universal_newlines false content) ≠ []) as Hne.
    { by rewrite strip_nil_iff, universal_newlines_spaces. }
    split; [|done]. unfold get_model_path. simpl.
    by rewrite bool_decide_eq_true_2.
Qed.

(** * The claims *)

(** ** The example filesystems are well-formed *)

Lemma wf_by_computation (fs : FS) : bool_decide (wf fs) = true → wf fs.
Proof. apply bool_decide_eq_true_1. Qed.

Lemma demo_fs_wf : wf demo_fs.
Proof. apply wf_by_computation. by vm_compute. Qed.

Lemma demo_fs_once_wf : wf demo_fs_once.
Proof. apply wf_by_computation. by vm_compute. Qed.

Lemma library_fs_wf : wf library_fs.
Proof. apply wf_by_computation. by vm_compute. Qed.

Lemma blocked_fs_wf : wf blocked_fs.
Proof. apply wf_by_computation. by vm_compute. Qed.

Lemma marked_fs_wf : wf marked_fs.
Proof. apply wf_by_computation. by vm_compute. Qed.

Lemma lonely_fs_wf : wf lonely_fs.
Proof. apply wf_by_computation. by vm_compute. Qed.

(** ** C10: reading the persisted root *)

(** C10.  The test [exists()] stands outside the [try].  When [os.stat] on
    the persistence file raises [PermissionError], which [Path.exists] does
    not ignore, [get_model_path] raises it and returns no path, where the
    claim promises the default.  The same exception raised by the read,
    inside the [try], is swallowed and gives the default; the failing test
    is the only way for [get_model_path] to raise. *)
Theorem get_model_path_raises_when_exists_raises :
  get_model_path denied = Raise PermissionError
  ∧ Path_read_text unreadable = Raise PermissionError
  ∧ get_model_path unreadable = Ok DEFAULT_MODELS_PATH
  ∧ ∀ f e, get_model_path f = Raise e ↔ f = denied ∧ e = PermissionError.
Proof.
  split; [done|]. split; [done|]. split; [done|]. intros f e. split.
  - destruct f as [| | | | |content]; try done.
    + by intros [= <-].
    + unfold get_model_path. simpl.
      by destruct (bool_decide (strip (universal_newlines false content) ≠ [])).
  - by intros [-> ->].
Qed.

(** Everywhere else the claim holds: a blank file gives the default, and a
    text with a line end and blanks around it is returned stripped. *)
Example get_model_path_of_blank_and_padded :
  get_model_path (holding (code_points "  ")) = Ok DEFAULT_MODELS_PATH
  ∧ get_model_path (holding (code_points " /srv/models " ++ [13; 10]%N))
    = Ok (code_points "/srv/models").
Proof.
  destruct get_model_path_returns as (_ & _ & Hblank & Htext). split.
  - apply Hblank. by repeat constructor.
  - destruct (Htext (code_points " /srv/models " ++ [13; 10]%N)) as [E _].
    + intros H. by inversion H as [|? ? _ H']; inversion H' as [|? ? Hs _].
    + exact E.
Qed.

(** ** C1: batches that are not a pair *)

(** C1, as stated, fails.  Dropping [voiceA.pth], [voiceA.index] and
    [extra.txt] together is not three independent imports: the batch holds
    exactly one [.pth] and exactly one [.index] item, so the pair is imported
    into the single folder [voiceA], and nothing named [extra] or [voiceA_1]
    appears under the root. *)
Lemma pair_with_extra_is_not_imported_one_by_one :
  (entries (handle_dropped_item 10 demo_root (many pair_and_extra) demo_fs).1
     demo_root).*1 = ["voiceA"]
  ∧ (handle_dropped_item 10 demo_root (many pair_and_extra) demo_fs).1
      !! abs ["models"; "extra"] = None
  ∧ (drop_one_by_one 10 demo_root pair_and_extra demo_fs).1
      !! abs ["models"; "extra"] = Some (File "notes" 3)
  ∧ handle_dropped_item 10 demo_root (many pair_and_extra) demo_fs
    ≠ drop_one_by_one 10 demo_root pair_and_extra demo_fs.
Proof.
  assert ((handle_dropped_item 10 demo_root (many pair_and_extra) demo_fs).1
            !! abs ["models"; "extra"] = None) as H1
    by (vm_compute; reflexivity).
  assert ((drop_one_by_one 10 demo_root pair_and_extra demo_fs).1
            !! abs ["models"; "extra"] = Some (File "notes" 3)) as H2
    by (vm_compute; reflexivity).
  split; [vm_compute; reflexivity|]. split; [done|]. split; [done|].
  intros E. rewrite E in H1. congruence.
Qed.

(** C1, amended.  A batch in which the [.pth] items are not exactly one or
    the [.index] items are not exactly one is imported item by item: the
    result is that of dropping each item alone, in order, each on the
    filesystem the previous drop left. *)
Theorem batch_without_single_pair_is_imported_one_by_one
    limit model_path files fs :
  ¬ (length (List.filter (has_ext ".pth") files) = 1
     ∧ length (List.filter (has_ext ".index") files) = 1) →
  handle_dropped_item limit model_path (many files) fs
  = drop_one_by_one limit model_path files fs.
Proof.
  intros Hnot. cbn [handle_dropped_item].
  assert ((length (List.filter (has_ext ".pth") files) =? 1)
          && (length (List.filter (has_ext ".index") files) =? 1) = false) as ->.
  { apply not_true_is_false. intros [H1 H2]%andb_true_iff.
    apply Nat.eqb_eq in H1, H2. by apply Hnot. }
  unfold drop_one_by_one. rewrite handle_each_foldl.
  by destruct (handle_each limit model_path files fs).
Qed.

Lemma batch_without_single_pair_is_imported_one_by_one_witness :
  ¬ (length (List.filter (has_ext ".pth") [voiceA_pth; extra_txt]) = 1
     ∧ length (List.filter (has_ext ".index") [voiceA_pth; extra_txt]) = 1)
  ∧ handle_dropped_item 10 demo_root (many [voiceA_pth; extra_txt]) demo_fs
    = drop_one_by_one 10 demo_root [voiceA_pth; extra_txt] demo_fs.
Proof.
  assert (¬ (length (List.filter (has_ext ".pth") [voiceA_pth; extra_txt]) = 1
             ∧ length (List.filter (has_ext ".index") [voiceA_pth; extra_txt]) = 1))
    as Hnot by (vm_compute; intros [_ H]; discriminate H).
  split; [exact Hnot|].
  exact (batch_without_single_pair_is_imported_one_by_one 10 demo_root _ demo_fs Hnot).
Defined.

(** ** C2: the paired import *)



(** The folder of the example is [voiceA] itself, and it holds both files. *)
Example paired_import_of_voiceA :
  let dropped := handle_dropped_item 10 demo_root (many [voiceA_pth; voiceA_index]) demo_fs in
  (entries dropped.1 demo_root).*1 = ["voiceA"]
  ∧ dropped.1 !! abs ["models"; "voiceA"; "voiceA.pth"] = Some (File "weights" 1)
  ∧ dropped.1 !! abs ["models"; "voiceA"; "voiceA.index"] = Some (File "index" 2)
  ∧ dropped.2 = [].
Proof. repeat split; vm_compute; reflexivity. Qed.

(** ** C3: a dropped file that is not a weights file *)

(** C3 describes a folder; the code makes a file.  Dropping [extra.txt] on
    an empty root copies it to the regular file [/models/extra]: no
    directory [extra] is made, nothing lies inside it, and the list shows no
    entry for it.  The [.pth] branch next to it makes the folder first. *)
Theorem import_of_extra_txt_makes_a_file_not_a_folder :
  handle_dropped_item 10 demo_root (one extra_txt) demo_fs
  = (<[abs ["models"; "extra"]:=File "notes" 3]> demo_fs, [])
  ∧ Path_is_dir (handle_dropped_item 10 demo_root (one extra_txt) demo_fs).1
      (abs ["models"; "extra"]) = false
  ∧ (handle_dropped_item 10 demo_root (one extra_txt) demo_fs).1
      !! abs ["models"; "extra"; "extra.txt"] = None
  ∧ (load_models demo_root
       (handle_dropped_item 10 demo_root (one extra_txt) demo_fs).1).2 = Ok [].
Proof.
  assert (handle_dropped_item 10 demo_root (one extra_txt) demo_fs
          = (<[abs ["models"; "extra"]:=File "notes" 3]> demo_fs, []))
    as E.
  { destruct (import_other_file 10 demo_root demo_fs eq_refl extra_txt "notes" 3)
      as (dest_name & [_ Hname] & Hdropped); [done| |done|].
    { vm_compute. intros H; discriminate H. }
    destruct Hname as [->|[[n Hn] _]]; [exact Hdropped|].
    exfalso. vm_compute in Hn. discriminate Hn. }
  split; [exact E|]. rewrite E. cbn [fst].
  split; [vm_compute; reflexivity|]. split; vm_compute; reflexivity.
Qed.

(** ** C5: the collision policy *)

(** C5.  A single dropped item whose computed destination name already
    exists under the root is imported under that name with the first free
    integer suffix, counted from 1 on the filesystem as it is: the numbered
    names below it all exist, it does not, it exists after the import, and
    nothing outside of it changed.  (The root is a directory, the computed
    name an ordinary one, and a recursive copy has room to start.) *)
Theorem colliding_import_takes_first_free_suffix limit model_path source fs :
  wf fs →
  Path_is_dir fs model_path = true →
  Path_exists fs source = true →
  0 < limit →
  let model_name :=
    if Path_is_file fs source then stem (name source) else name source in
  plain_name model_name = true →
  is_Some (fs !! (model_name :: model_path)) →
  ∃ k, 1 ≤ k
       ∧ (∀ j, 1 ≤ j < k → is_Some (fs !! (numbered model_name j :: model_path)))
       ∧ fs !! (numbered model_name k :: model_path) = None
       ∧ is_Some ((handle_dropped_item limit model_path (one source) fs).1
                    !! (numbered model_name k :: model_path))
       ∧ ∀ q, ¬ (numbered model_name k :: model_path) `suffix_of` q →
           (handle_dropped_item limit model_path (one source) fs).1 !! q = fs !! q.
Proof.
  intros Hwf Hroot Hsrc Hlimit model_name Hplain Htaken.
  assert (∀ dest_name,
            first_free_name fs model_path model_name dest_name →
            ∃ k, 1 ≤ k ∧ dest_name = numbered model_name k
                 ∧ (∀ j, 1 ≤ j < k →
                      is_Some (fs !! (numbered model_name j :: model_path)))
                 ∧ fs !! (numbered model_name k :: model_path) = None) as Hnum.
  { intros dest_name [Hfree [->|(_ & k & Hk & -> & Hbelow)]].
    - rewrite Hfree in Htaken. by destruct Htaken.
    - by exists k. }
  apply Path_exists_true in Hsrc as [n Hsrc]. unfold model_name in *. clear model_name.
  destruct n as [data mtime|].
  - assert (Path_is_file fs source = true) as Hfile
      by (unfold Path_is_file; by rewrite Hsrc).
    rewrite Hfile in *.
    destruct (decide (suffix (name source) = ".pth")) as [Hext|Hext].
    + destruct (import_pth_file limit model_path fs Hwf Hroot source data mtime
                  Hsrc Hext Hplain) as (dest_name & Hff & ->).
      destruct (Hnum dest_name Hff) as (k & Hk & -> & Hbelow & Hfree).
      exists k. split; [done|]. split; [done|]. split; [done|]. cbn [fst]. split.
      * rewrite lookup_insert_ne, lookup_insert_eq; [by eexists|].
        intros E. apply (f_equal length) in E. simpl in E. lia.
      * intros q Hq. rewrite !lookup_insert_ne; [done| |].
        -- by intros <-.
        -- intros <-. apply Hq. by apply suffix_cons_r.
    + destruct (import_other_file limit model_path fs Hroot source data mtime
                  Hsrc Hext Hplain) as (dest_name & Hff & ->).
      destruct (Hnum dest_name Hff) as (k & Hk & -> & Hbelow & Hfree).
      exists k. split; [done|]. split; [done|]. split; [done|]. cbn [fst]. split.
      * rewrite lookup_insert_eq. by eexists.
      * intros q Hq. rewrite lookup_insert_ne; [done|]. by intros <-.
  - assert (Path_is_file fs source = false) as Hfile
      by (unfold Path_is_file; by rewrite Hsrc).
    rewrite Hfile in *.
    destruct (import_directory limit model_path fs Hwf Hroot source
                Hsrc Hplain Hlimit) as (dest_name & Hff & Hmade & Hsame).
    destruct (Hnum dest_name Hff) as (k & Hk & -> & Hbelow & Hfree).
    exists k. split; [done|]. split; [done|]. split; [done|].
    split; [by eexists|done].
Qed.

Lemma colliding_import_takes_first_free_suffix_witness :
  ∃ k, 1 ≤ k
       ∧ (∀ j, 1 ≤ j < k → is_Some (demo_fs_once !! (numbered "voiceA" j :: demo_root)))
       ∧ demo_fs_once !! (numbered "voiceA" k :: demo_root) = None
       ∧ is_Some ((handle_dropped_item 10 demo_root (one voiceA_pth) demo_fs_once).1
                    !! (numbered "voiceA" k :: demo_root))
       ∧ ∀ q, ¬ (numbered "voiceA" k :: demo_root) `suffix_of` q →
           (handle_dropped_item 10 demo_root (one voiceA_pth) demo_fs_once).1 !! q
           = demo_fs_once !! q.
Proof.
  apply (colliding_import_takes_first_free_suffix 10 demo_root voiceA_pth demo_fs_once).
  - exact demo_fs_once_wf.
  - vm_compute; reflexivity.
  - vm_compute; reflexivity.
  - lia.
  - vm_compute; reflexivity.
  - vm_compute. by eexists.
Defined.

(** Importing [voiceA.pth] twice yields the folders [voiceA] and
    [voiceA_1], each holding a copy. *)
Example voiceA_imported_twice :
  let once := (handle_dropped_item 10 demo_root (one voiceA_pth) demo_fs).1 in
  let twice := (handle_dropped_item 10 demo_root (one voiceA_pth) once).1 in
  merge_sort String.le (entries twice demo_root).*1 = ["voiceA"; "voiceA_1"]
  ∧ twice !! abs ["models"; "voiceA"; "voiceA.pth"] = Some (File "weights" 1)
  ∧ twice !! abs ["models"; "voiceA_1"; "voiceA.pth"] = Some (File "weights" 1).
Proof. repeat split; vm_compute; reflexivity. Qed.

(** ** C8: imports copy, they never move *)

(** C8.  Whatever is dropped, a path, a directory or a batch, and whether
    the import succeeds or fails, every entry that existed before is still
    there afterwards with the same kind, data and metadata.  In particular
    every source file and everything inside a source directory is as it
    was. *)
Theorem import_keeps_every_existing_entry limit model_path dropped_path fs :
  wf fs →
  dropped_ok dropped_path = true →
  ∀ p n, fs !! p = Some n →
    (handle_dropped_item limit model_path dropped_path fs).1 !! p = Some n.
Proof.
  intros Hwf Hok p n Hp.
  eapply lookup_weaken; [done|].
  by apply (handle_dropped_item_preserves fs Hwf).
Qed.

Lemma import_keeps_every_existing_entry_witness :
  wf demo_fs
  ∧ dropped_ok (many mixed_batch) = true
  ∧ ∀ p n, demo_fs !! p = Some n →
      (handle_dropped_item 10 demo_root (many mixed_batch) demo_fs).1 !! p
      = Some n.
Proof.
  assert (dropped_ok (many mixed_batch) = true) as Hok
    by (vm_compute; reflexivity).
  split; [exact demo_fs_wf|]. split; [exact Hok|].
  exact (import_keeps_every_existing_entry 10 demo_root (many mixed_batch)
           demo_fs demo_fs_wf Hok).
Defined.

(** A copied file carries the data and the metadata of its source, and a
    copied directory its files. *)
Example copies_keep_data_and_metadata :
  let dropped := handle_dropped_item 10 demo_root (many mixed_batch) demo_fs in
  dropped.1 !! abs ["models"; "voiceA"; "voiceA.pth"] = Some (File "weights" 1)
  ∧ dropped.1 !! abs ["models"; "downloads"; "extra.txt"] = Some (File "notes" 3)
  ∧ dropped.1 !! voiceA_pth = Some (File "weights" 1)
  ∧ dropped.2 = [warning "Error" "Path does not exist:" (about_path (abs ["gone.txt"]))].
Proof. repeat split; vm_compute; reflexivity. Qed.

(** ** C4: the listing *)

(** C4.  Under a root that is a directory, [load_models] leaves the
    filesystem alone and shows one row per immediate subdirectory, sorted by
    name and without repetition; regular files under the root are not
    listed.  A row shows a status exactly when the specification assigns it:
    empty iff the folder has no child at all, complete iff it has a child
    and both a [.pth] file and an [.index] file among its immediate
    children, missing files otherwise. *)
Theorem load_models_lists_folders_with_their_status model_path fs :
  Path_is_dir fs model_path = true →
  ∃ names rows,
    load_models model_path fs = (fs, Ok rows)
    ∧ StronglySorted String.le names
    ∧ NoDup names
    ∧ (∀ c, c ∈ names ↔ fs !! (c :: model_path) = Some Dir)
    ∧ Forall2 (λ c row, ∀ st, shows c st row ↔ status_spec fs (c :: model_path) st)
        names rows.
Proof.
  intros Hdir. exists (listed_folders fs model_path).
  eexists. split; [by apply load_models_in_dir|].
  destruct (listed_folders_spec fs model_path) as (Hsorted & Hnodup & Hiff).
  split; [done|]. split; [done|]. split; [done|].
  rewrite <-list_fmap_compose. apply Forall2_fmap_r, Forall_Forall2_diag.
  apply Forall_forall. intros c _ st. apply model_row_shows_iff.
Qed.

Lemma load_models_lists_folders_with_their_status_witness :
  ∃ names rows,
    load_models demo_root library_fs = (library_fs, Ok rows)
    ∧ StronglySorted String.le names
    ∧ NoDup names
    ∧ (∀ c, c ∈ names ↔ library_fs !! (c :: demo_root) = Some Dir)
    ∧ Forall2 (λ c row, ∀ st, shows c st row ↔ status_spec library_fs (c :: demo_root) st)
        names rows.
Proof.
  apply (load_models_lists_folders_with_their_status demo_root library_fs).
  vm_compute; reflexivity.
Defined.

(** The rows of the example: an empty folder, an incomplete one, a complete
    one, in that order; the loose file is not shown. *)
Example rows_of_the_library :
  (load_models demo_root library_fs).2
  = Ok [ Item ("blank" +:+ EMPTY_MARK) (Some "Folder is empty.");
         Item ("draft" +:+ WARNING_MARK)
              (Some "Missing .index file(s). Model won't work.");
         Item "voiceA" None ].
Proof. vm_compute; reflexivity. Qed.

(** ** C7: a missing root *)

(** C7, as stated, fails.  When an ancestor of the root is a regular file
    the root does not exist and cannot be made: [load_models] raises, and
    the root still does not exist afterwards. *)
Lemma load_models_fails_below_a_regular_file :
  wf blocked_fs
  ∧ Path_exists blocked_fs blocked_root = false
  ∧ (load_models blocked_root blocked_fs).2 = Raise NotADirectoryError
  ∧ Path_exists (load_models blocked_root blocked_fs).1 blocked_root = false.
Proof.
  split; [exact blocked_fs_wf|]. repeat split; vm_compute; reflexivity.
Qed.

(** C7, amended.  On every filesystem in which neither the root nor one of
    its ancestors is a regular file, [load_models] returns a listing and the
    root is a directory afterwards; nothing that existed is lost.  When the
    root did not exist, it was made together with every missing ancestor and
    the listing is empty. *)
Theorem load_models_makes_a_missing_root model_path fs :
  wf fs →
  no_file_on fs model_path = true →
  ∃ fs' rows,
    load_models model_path fs = (fs', Ok rows)
    ∧ Path_is_dir fs' model_path = true
    ∧ fs ⊆ fs'
    ∧ (Path_exists fs model_path = false →
       rows = [] ∧ ∀ a, a `suffix_of` model_path → Path_is_dir fs' a = true).
Proof.
  intros Hwf Hno. destruct (Path_is_dir fs model_path) eqn:Hdir.
  - exists fs. eexists. split; [by apply load_models_in_dir|].
    split; [done|]. split; [done|]. intros Hmissing%Path_exists_false.
    apply Path_is_dir_true in Hdir. congruence.
  - pose proof (no_file_on_stat fs model_path Hno Hdir) as Hmissing.
    destruct (load_models_missing_root fs model_path Hwf Hmissing Hno)
      as (fs' & E & Hsub & Hdirs).
    exists fs', []. split; [done|]. split; [by apply Hdirs|]. by split.
Qed.

Lemma load_models_makes_a_missing_root_witness :
  ∃ fs' rows,
    load_models (abs ["srv"; "rvc"; "models"]) demo_fs = (fs', Ok rows)
    ∧ Path_is_dir fs' (abs ["srv"; "rvc"; "models"]) = true
    ∧ demo_fs ⊆ fs'
    ∧ (Path_exists demo_fs (abs ["srv"; "rvc"; "models"]) = false →
       rows = []
       ∧ ∀ a, a `suffix_of` abs ["srv"; "rvc"; "models"] → Path_is_dir fs' a = true).
Proof.
  apply (load_models_makes_a_missing_root (abs ["srv"; "rvc"; "models"]) demo_fs).
  - exact demo_fs_wf.
  - vm_compute; reflexivity.
Defined.

(** ** C6 and C9: renaming *)

(** The refusals of [rename_model] leave the window, and with it the
    filesystem, as it was: an empty new name, the text of the selected row,
    a name that exists under the root, and a cancelled dialog. *)
Lemma rename_model_refusal_changes_nothing model_path current new_name ok w :
  ok = false ∨ new_name = "" ∨ new_name = text current
  ∨ Path_exists (disk w) (joinpath model_path new_name) = true →
  (rename_model model_path (Some current) new_name ok w).1 = w.
Proof.
  intros H.
  destruct (decide (ok = false ∨ new_name = "" ∨ new_name = text current))
    as [Hdecl|Hacc].
  - by rewrite rename_model_declined.
  - destruct H as [?|[?|[?|Hex]]]; try tauto.
    destruct ok; [|tauto].
    rewrite rename_model_collision; [done| | |done].
    + intros ->. tauto.
    + intros ->. tauto.
Qed.

(** C6 holds for the row of a complete folder; for a row with a mark the
    code departs from it.  The empty folder [x] is listed as [x] followed by
    the mark; renaming that entry to [x], its own current name, is answered
    with the warning that a model of that name already exists, where the
    claim says that no error is reported.  The filesystem is unchanged. *)
Theorem rename_of_marked_entry_to_its_own_name_warns :
  (load_models demo_root lonely_fs).2 = Ok [lonely_row]
  ∧ text lonely_row = "x" +:+ EMPTY_MARK
  ∧ rename_model demo_root (Some lonely_row) "x" true (Window lonely_fs [lonely_row])
    = (Window lonely_fs [lonely_row],
       [warning "Rename Error" "A model with that name already exists." no_detail]).
Proof.
  split; [vm_compute; reflexivity|].
  split; [vm_compute; reflexivity|].
  apply rename_model_collision.
  - done.
  - vm_compute. intros H; discriminate H.
  - vm_compute; reflexivity.
Qed.

(** C9, as stated, fails.  The empty folder [x] is listed with the mark;
    next to it lies a folder whose name is that very text.  Renaming the
    entry [x] to [y] then reports no error: the other folder is renamed.
    The folder [x] itself stays. *)
Lemma rename_of_marked_entry_can_hit_another_folder :
  status_spec marked_fs (abs ["models"; "x"]) empty
  ∧ (load_models demo_root marked_fs).2 = Ok (model_list marked_window)
  ∧ text marked_row = "x" +:+ EMPTY_MARK
  ∧ marked_renamed.2 = []
  ∧ disk marked_renamed.1 !! abs ["models"; "y"] = Some Dir
  ∧ disk marked_renamed.1 !! abs ["models"; "x" +:+ EMPTY_MARK] = None
  ∧ disk marked_renamed.1 !! abs ["models"; "x"] = Some Dir.
Proof.
  split.
  - apply (model_row_shows_iff marked_fs "x" ["models"] empty).
    vm_compute; reflexivity.
  - repeat split; vm_compute; reflexivity.
Qed.

(** C9, amended.  For a listed folder whose status is empty or missing
    files, the text of the row is the folder name with a mark appended, not
    the folder name, and [rename_model] builds its source path from that
    text.  Unless a path of that very name exists under the root, an
    accepted dialog with a new name that is neither empty nor the row's text
    ends in one message box, a warning or an error, and the filesystem and
    the list are unchanged, the folder itself included. *)
Theorem rename_of_marked_entry_reports_and_changes_nothing
    model_path fs c new_name rows :
  status_spec fs (c :: model_path) empty
  ∨ status_spec fs (c :: model_path) missing_files →
  stat fs (joinpath model_path (text (model_row fs (c :: model_path)))) = None →
  new_name ≠ "" →
  new_name ≠ text (model_row fs (c :: model_path)) →
  (text (model_row fs (c :: model_path)) = c +:+ EMPTY_MARK
   ∨ text (model_row fs (c :: model_path)) = c +:+ WARNING_MARK)
  ∧ text (model_row fs (c :: model_path)) ≠ c
  ∧ ∃ box,
      rename_model model_path (Some (model_row fs (c :: model_path)))
        new_name true (Window fs rows)
      = (Window fs rows, [box]).
Proof.
  intros Hstatus Hsrc Hnew Hother.
  assert (¬ status_spec fs (c :: model_path) complete) as Hnot.
  { intros Hc. destruct Hstatus as [H|H];
      by pose proof (status_spec_unique _ _ _ _ Hc H). }
  destruct (marked_text fs c model_path Hnot) as [Hmark Hne].
  split; [done|]. split; [done|].
  destruct (Path_exists fs (joinpath model_path new_name)) eqn:Hex.
  - eexists. by apply rename_model_collision.
  - eexists. by apply rename_model_missing_source.
Qed.

Lemma rename_of_marked_entry_reports_and_changes_nothing_witness :
  (text (model_row lonely_fs ("x" :: demo_root)) = "x" +:+ EMPTY_MARK
   ∨ text (model_row lonely_fs ("x" :: demo_root)) = "x" +:+ WARNING_MARK)
  ∧ text (model_row lonely_fs ("x" :: demo_root)) ≠ "x"
  ∧ ∃ box,
      rename_model demo_root (Some (model_row lonely_fs ("x" :: demo_root)))
        "y" true (Window lonely_fs [lonely_row])
      = (Window lonely_fs [lonely_row], [box]).
Proof.
  apply (rename_of_marked_entry_reports_and_changes_nothing
           demo_root lonely_fs "x" "y").
  - left. apply (model_row_shows_iff lonely_fs "x" demo_root empty).
    vm_compute; reflexivity.
  - vm_compute; reflexivity.
  - done.
  - vm_compute. intros H; discriminate H.
Defined.

(** * The rest of the program *)

(** ** The listing depends on the root's own children only *)

Section listing_ext.
Implicit Types (fs : FS) (folder : path) (c : string).

Lemma bool_eq_by_iff (b1 b2 : bool) : (b1 = true ↔ b2 = true) → b1 = b2.
Proof. destruct b1, b2; intros [H1 H2]; auto; by rewrite ?H1, ?H2. Qed.

Lemma has_child_ext fs fs' folder :
  (∀ c, fs' !! (c :: folder) = fs !! (c :: folder)) →
  has_child fs' folder ↔ has_child fs folder.
Proof.
  intros H. unfold has_child. split; intros [c Hc]; exists c.
  - by rewrite <-H.
  - by rewrite H.
Qed.

Lemma has_file_with_ext ext fs fs' folder :
  (∀ c, fs' !! (c :: folder) = fs !! (c :: folder)) →
  has_file_with ext fs' folder ↔ has_file_with ext fs folder.
Proof.
  intros H. unfold has_file_with.
  split; intros (c & data & mtime & Hc & Hext); exists c, data, mtime.
  - by rewrite <-H.
  - by rewrite H.
Qed.

(** The row of a folder is a function of the folder's immediate children. *)
Lemma model_row_ext fs fs' folder :
  (∀ c, fs' !! (c :: folder) = fs !! (c :: folder)) →
  model_row fs' folder = model_row fs folder.
Proof.
  intros H. unfold model_row.
  assert (existsb (λ _, true) (entries fs' folder)
          = existsb (λ _, true) (entries fs folder)) as ->.
  { apply bool_eq_by_iff. rewrite !has_any_spec. by apply has_child_ext. }
  assert (∀ ext, any_file_with_suffix ext (entries fs' folder)
                 = any_file_with_suffix ext (entries fs folder)) as Hany.
  { intros ext. apply bool_eq_by_iff. rewrite !any_file_with_suffix_spec.
    by apply has_file_with_ext. }
  by rewrite !Hany.
Qed.

(** Two filesystems with the same subdirectories directly under the root
    list the same folders in the same order. *)
Lemma listed_folders_ext fs fs' model_path :
  (∀ c, fs' !! (c :: model_path) = Some Dir ↔ fs !! (c :: model_path) = Some Dir) →
  listed_folders fs' model_path = listed_folders fs model_path.
Proof.
  intros H.
  destruct (listed_folders_spec fs model_path) as (Hs & Hn & Hin).
  destruct (listed_folders_spec fs' model_path) as (Hs' & Hn' & Hin').
  apply (StronglySorted_unique String.le); [done..|].
  apply NoDup_Permutation; [done..|]. intros c. by rewrite Hin, Hin', H.
Qed.

Lemma rows_of_ext fs fs' model_path :
  (∀ c, fs' !! (c :: model_path) = Some Dir ↔ fs !! (c :: model_path) = Some Dir) →
  (∀ c c', fs !! (c :: model_path) = Some Dir →
           fs' !! (c' :: c :: model_path) = fs !! (c' :: c :: model_path)) →
  rows_of fs' model_path = rows_of fs model_path.
Proof.
  intros Hdirs Hchildren. unfold rows_of.
  rewrite (listed_folders_ext fs fs') by done.
  rewrite <-!list_fmap_compose. apply list_fmap_ext. intros i c Hc. simpl.
  apply model_row_ext. intros c'. apply Hchildren.
  apply listed_folders_spec. by eapply list_elem_of_lookup_2.
Qed.
End listing_ext.

(** ** Removing *)

Section removing.
Implicit Types (fs : FS) (p q model_path : path) (c : string).

Lemma rmtree_lookup p fs q :
  filter (λ e : path * node, ¬ p `suffix_of` e.1) fs !! q
  = if decide (p `suffix_of` q) then None else fs !! q.
Proof.
  destruct (decide (p `suffix_of` q)) as [Hq|Hq].
  - apply map_lookup_filter_None. right. intros n _ H. by apply H.
  - destruct (fs !! q) as [n|] eqn:E.
    + by apply map_lookup_filter_Some.
    + apply map_lookup_filter_None. by left.
Qed.

Lemma shutil_rmtree_folder fs c dir :
  fs !! (c :: dir) = Some Dir →
  shutil_rmtree (c :: dir) fs
  = (filter (λ e : path * node, ¬ (c :: dir) `suffix_of` e.1) fs, Ok ()).
Proof. intros E. unfold shutil_rmtree. cbn [stat]. by rewrite E. Qed.

(** Removing a directory keeps the filesystem well formed. *)
Lemma rmtree_wf p fs :
  wf fs → wf (filter (λ e : path * node, ¬ p `suffix_of` e.1) fs).
Proof.
  intros Hwf q n Hq. rewrite rmtree_lookup in Hq.
  destruct (decide (p `suffix_of` q)) as [|Hnot]; [done|].
  destruct q as [|c dir]; [by destruct (wf_not_root fs n Hwf Hq)|].
  destruct (wf_lookup fs c dir n Hwf Hq) as [Hplain Hdir].
  cbn [wf_entry]. rewrite Hplain. cbn [andb].
  apply Is_true_true. rewrite <-(proj2 (Path_is_dir_true fs dir) Hdir).
  apply Path_is_dir_lookup. rewrite rmtree_lookup, decide_False; [done|].
  intros H. apply Hnot. by apply suffix_cons_r.
Qed.

Lemma sorted_folders_in_dir fs model_path :
  Path_is_dir fs model_path = true →
  sorted_folders model_path fs
  = (fs, Ok ((λ c, c :: model_path) <$> listed_folders fs model_path)).
Proof.
  intros Hdir%Path_is_dir_true. unfold sorted_folders, bind, gets, Path_iterdir.
  rewrite Hdir. by rewrite List_filter_fmap.
Qed.

Lemma sorted_folders_not_dir fs model_path :
  Path_is_dir fs model_path = false →
  ∃ e, sorted_folders model_path fs = (fs, Raise e).
Proof.
  intros Hdir. unfold sorted_folders, bind, Path_iterdir, Path_is_dir in *.
  destruct (stat fs model_path) as [[]|]; [by eexists|done|by eexists].
Qed.

(** Taking one folder out of the root takes its name out of the listing. *)
Lemma listed_folders_delete fs fs' model_path i c :
  listed_folders fs model_path !! i = Some c →
  (∀ c', fs' !! (c' :: model_path) = Some Dir
         ↔ fs !! (c' :: model_path) = Some Dir ∧ c' ≠ c) →
  listed_folders fs' model_path = delete i (listed_folders fs model_path).
Proof.
  intros Hi Hdirs.
  destruct (listed_folders_spec fs model_path) as (Hs & Hn & Hin).
  destruct (listed_folders_spec fs' model_path) as (Hs' & Hn' & Hin').
  apply list_elem_of_split_length in Hi as (l1 & l2 & E & ->).
  rewrite E in *. rewrite delete_middle.
  apply NoDup_app in Hn as (Hn1 & Hn12 & Hn2).
  apply NoDup_cons in Hn2 as [Hc2 Hn2].
  apply (StronglySorted_unique String.le); [done| |].
  - apply StronglySorted_app in Hs as (H12 & Hs1 & Hs2).
    apply StronglySorted_cons in Hs2 as [_ Hs2].
    apply StronglySorted_app. split; [|done].
    intros x1 x2 H1 H2. apply H12; [done|]. by right.
  - apply NoDup_Permutation; [done| |].
    + apply NoDup_app. split; [done|]. split; [|done].
      intros x H1 H2. apply (Hn12 x H1). by right.
    + intros c'. rewrite Hin', Hdirs, <-Hin, !elem_of_app, elem_of_cons.
      split.
      * intros [[H1|[->|H2]] Hne]; [by left|done|by right].
      * intros [H1|H2].
        -- split; [by left|]. intros ->. apply (Hn12 c H1). by left.
        -- split; [by right; right|]. by intros ->.
Qed.

Lemma below_sibling c c' dir : (c :: dir) `suffix_of` (c' :: dir) ↔ c = c'.
Proof.
  split; [|by intros ->].
  intros [[= ]|H]%suffix_cons_inv'; [done|]. by apply suffix_cons_not in H.
Qed.

Lemma below_nephew c c' c'' dir :
  (c :: dir) `suffix_of` (c'' :: c' :: dir) ↔ c = c'.
Proof.
  split; [|intros ->; by apply suffix_cons_r].
  intros [E|H]%suffix_cons_inv'; [|by apply below_sibling in H].
  apply (f_equal length) in E. simpl in E. lia.
Qed.

(** The rows after a listed folder is gone: the old rows without its row. *)
Lemma rows_of_rmtree fs model_path i c :
  listed_folders fs model_path !! i = Some c →
  rows_of (filter (λ e : path * node, ¬ (c :: model_path) `suffix_of` e.1) fs)
    model_path
  = delete i (rows_of fs model_path).
Proof.
  intros Hi.
  set (fs' := filter (λ e : path * node, ¬ (c :: model_path) `suffix_of` e.1) fs).
  assert (∀ c', fs' !! (c' :: model_path) = Some Dir
                ↔ fs !! (c' :: model_path) = Some Dir ∧ c' ≠ c) as Hdirs.
  { intros c'. unfold fs'. rewrite rmtree_lookup.
    destruct (decide _) as [Hb%below_sibling|Hb].
    - split; [done|]. by intros [_ ?].
    - rewrite below_sibling in Hb. split; [|by intros [? _]].
      intros ?. split; [done|]. by intros ->. }
  unfold rows_of.
  rewrite (listed_folders_delete fs fs' model_path i c) by done.
  rewrite <-!list_fmap_delete, <-!list_fmap_compose.
  apply list_fmap_ext. intros j c' Hj. cbn [compose].
  assert (c' ≠ c) as Hne.
  { apply (Hdirs c'). apply listed_folders_spec.
    rewrite (listed_folders_delete fs fs' model_path i c) by done.
    by eapply list_elem_of_lookup_2. }
  apply model_row_ext. intros c''. unfold fs'.
  rewrite rmtree_lookup, decide_False; [done|].
  rewrite below_nephew. by intros ->.
Qed.

Lemma rmtree_keeps_root fs model_path c :
  Path_is_dir (filter (λ e : path * node, ¬ (c :: model_path) `suffix_of` e.1) fs)
    model_path
  = Path_is_dir fs model_path.
Proof.
  apply Path_is_dir_lookup.
  rewrite rmtree_lookup, decide_False; [done|]. apply suffix_cons_not.
Qed.

(** What [remove_model] does once a listed folder is chosen and the question
    is answered with Yes. *)
Lemma remove_model_confirmed fs rows model_path i c :
  Path_is_dir fs model_path = true →
  listed_folders fs model_path !! i = Some c →
  remove_model model_path (Z.of_nat i) true (Window fs rows)
  = (Window (filter (λ e : path * node, ¬ (c :: model_path) `suffix_of` e.1) fs)
       (delete i (rows_of fs model_path)), [], Ok ()).
Proof.
  intros Hdir Hi. unfold remove_model.
  assert ((Z.of_nat i <? 0)%Z = false) as -> by (apply Z.ltb_ge; lia).
  cbn [disk model_list]. rewrite sorted_folders_in_dir by done.
  rewrite length_fmap.
  pose proof (lookup_lt_Some _ _ _ Hi) as Hlen.
  assert ((Z.of_nat (length (listed_folders fs model_path)) <=? Z.of_nat i)%Z = false)
    as -> by (apply Z.leb_gt; lia).
  rewrite Nat2Z.id, list_lookup_fmap, Hi. cbn [fmap option_fmap option_map].
  assert (fs !! (c :: model_path) = Some Dir) as Hc.
  { apply listed_folders_spec. by eapply list_elem_of_lookup_2. }
  rewrite shutil_rmtree_folder by done.
  rewrite load_models_in_dir by by rewrite rmtree_keeps_root.
  fold (rows_of (filter (λ e : path * node, ¬ (c :: model_path) `suffix_of` e.1) fs)
          model_path).
  by rewrite (rows_of_rmtree fs model_path i c Hi).
Qed.

(** Whatever the selection and the answer, [remove_model] leaves the
    filesystem as it is or takes out one subdirectory of the root. *)
Lemma remove_model_disk model_path selected confirmed w :
  disk (remove_model model_path selected confirmed w).1.1 = disk w
  ∨ ∃ c, disk w !! (c :: model_path) = Some Dir
         ∧ disk (remove_model model_path selected confirmed w).1.1
           = filter (λ e : path * node, ¬ (c :: model_path) `suffix_of` e.1) (disk w).
Proof.
  unfold remove_model. destruct (selected <? 0)%Z; [by left|].
  destruct (Path_is_dir (disk w) model_path) eqn:Hdir.
  - rewrite sorted_folders_in_dir by done.
    destruct (_ <=? _)%Z; [by left|].
    rewrite list_lookup_fmap.
    destruct (listed_folders (disk w) model_path !! Z.to_nat selected)
      as [c|] eqn:Hi; [|by left].
    cbn [fmap option_fmap option_map]. destruct confirmed; [|by left].
    assert (disk w !! (c :: model_path) = Some Dir) as Hc.
    { apply listed_folders_spec. by eapply list_elem_of_lookup_2. }
    right. exists c. split; [done|].
    rewrite shutil_rmtree_folder by done.
    by rewrite load_models_in_dir by by rewrite rmtree_keeps_root.
  - destruct (sorted_folders_not_dir _ _ Hdir) as [e ->]. by left.
Qed.
End removing.

(** ** What the list shows after a drop *)

(** The effect of a paired import, for the statements below. *)
Lemma paired_import_effect
    limit model_path files fs pth_file index_file d1 t1 d2 t2 :
  wf fs →
  Path_is_dir fs model_path = true →
  List.filter (has_ext ".pth") files = [pth_file] →
  List.filter (has_ext ".index") files = [index_file] →
  fs !! pth_file = Some (File d1 t1) →
  fs !! index_file = Some (File d2 t2) →
  plain_name (stem (name pth_file)) = true →
  ∃ dest_name,
    first_free_name fs model_path (stem (name pth_file)) dest_name
    ∧ handle_dropped_item limit model_path (many files) fs
      = (<[name index_file :: dest_name :: model_path:=File d2 t2]>
           (<[name pth_file :: dest_name :: model_path:=File d1 t1]>
              (<[dest_name :: model_path:=Dir]> fs)), []).
Proof.
  intros Hwf Hroot Ep Ei Hp Hi Hstem.
  destruct (free_dest_first_free model_path fs (stem (name pth_file)) Hstem)
    as (dest_name & Hdest & Hff).
  exists dest_name. split; [done|]. destruct Hff as [Hfree _].
  assert (pth_file ≠ [] ∧ index_file ≠ []) as [Hpne Hine].
  { split; intros ->; by eapply wf_not_root. }
  assert (stat fs pth_file = Some (File d1 t1)) as Hp'
    by by rewrite stat_lookup.
  assert (stat fs index_file = Some (File d2 t2)) as Hi'
    by by rewrite stat_lookup.
  destruct (wf_stat_file fs Hwf _ _ _ Hp') as [_ Hpname].
  destruct (wf_stat_file fs Hwf _ _ _ Hi') as [_ Hiname].
  assert (name pth_file ≠ name index_file) as Hnames.
  { assert (has_ext ".pth" pth_file = true) as H1.
    { apply (List.filter_In (has_ext ".pth") pth_file files). rewrite Ep. by left. }
    assert (has_ext ".index" index_file = true) as H2.
    { apply (List.filter_In (has_ext ".index") index_file files). rewrite Ei. by left. }
    unfold has_ext in *. apply String.eqb_eq in H1, H2. intros E.
    rewrite E, H2 in H1. discriminate H1. }
  pose proof (in_fresh_folder model_path fs Hwf dest_name) as Hin.
  cbn [handle_dropped_item]. rewrite Ep, Ei, Hdest. cbn [length Nat.eqb andb].
  rewrite !joinpath_plain_name by done.
  unfold bind. rewrite Path_mkdir_fresh by done.
  rewrite (shutil_copy2_fresh _ _ _ d1 t1); cycle 1.
  { rewrite stat_lookup by done. rewrite lookup_insert_ne; [done|].
    intros E. rewrite <-E in Hp. congruence. }
  { cbn [stat]. rewrite lookup_insert_ne; [by apply Hin|].
    intros E. apply (f_equal length) in E. simpl in E. lia. }
  { unfold Path_is_dir. cbn [parent tail stat]. by rewrite lookup_insert_eq. }
  rewrite (shutil_copy2_fresh _ _ _ d2 t2); [done| | |].
  - destruct index_file as [|c dir]; [done|]. cbn [stat].
    rewrite !lookup_insert_ne; [done| |].
    + intros E. rewrite <-E in Hi. congruence.
    + intros E. rewrite <-E in Hi. rewrite Hin in Hi by done. congruence.
  - cbn [stat]. rewrite !lookup_insert_ne; [by apply Hin| |].
    + intros E. apply (f_equal length) in E. simpl in E. lia.
    + intros [= E]. done.
  - unfold Path_is_dir. cbn [parent tail stat].
    rewrite lookup_insert_ne, lookup_insert_eq; [done|].
    intros E. apply (f_equal length) in E. simpl in E. lia.
Qed.

Section after_a_drop.
Context (model_path : path) (fs fs' : FS) (dest_name : string).
Context (Hroot : Path_is_dir fs model_path = true).
Context (Hsame : ∀ q, ¬ (dest_name :: model_path) `suffix_of` q → fs' !! q = fs !! q).
Context (Hfree : fs !! (dest_name :: model_path) = None).
Implicit Types (c : string).

Lemma after_drop_root : Path_is_dir fs' model_path = true.
Proof.
  rewrite <-Hroot. apply Path_is_dir_lookup, Hsame, suffix_cons_not.
Qed.

Lemma after_drop_load :
  load_models model_path fs' = (fs', Ok (rows_of fs' model_path)).
Proof. apply load_models_in_dir, after_drop_root. Qed.

Lemma after_drop_other_rows c :
  c ≠ dest_name →
  fs' !! (c :: model_path) = fs !! (c :: model_path)
  ∧ model_row fs' (c :: model_path) = model_row fs (c :: model_path).
Proof.
  intros Hne. split.
  - apply Hsame. rewrite below_sibling. by intros ->.
  - apply model_row_ext. intros c'. apply Hsame. rewrite below_nephew. by intros ->.
Qed.

(** A new folder adds its name to the listing and leaves the other rows. *)
Lemma after_drop_of_folder :
  fs' !! (dest_name :: model_path) = Some Dir →
  listed_folders fs' model_path ≡ₚ dest_name :: listed_folders fs model_path.
Proof.
  intros Hnew.
  destruct (listed_folders_spec fs model_path) as (_ & Hn & Hin).
  destruct (listed_folders_spec fs' model_path) as (_ & Hn' & Hin').
  apply NoDup_Permutation; [done| |].
  - apply NoDup_cons. split; [|done]. rewrite Hin. by rewrite Hfree.
  - intros c. rewrite elem_of_cons, Hin, Hin'.
    destruct (decide (c = dest_name)) as [->|Hne].
    + split; [by left|done].
    + destruct (after_drop_other_rows c Hne) as [-> _]. split; [by right|].
      by intros [?|?].
Qed.

(** A new regular file directly under the root changes no row. *)
Lemma after_drop_of_file :
  fs' !! (dest_name :: model_path) ≠ Some Dir →
  rows_of fs' model_path = rows_of fs model_path.
Proof.
  intros Hnew. apply rows_of_ext.
  - intros c. destruct (decide (c = dest_name)) as [->|Hne].
    + by rewrite Hfree.
    + by destruct (after_drop_other_rows c Hne) as [-> _].
  - intros c c' Hc. apply Hsame. rewrite below_nephew. intros ->.
    by rewrite Hfree in Hc.
Qed.
End after_a_drop.

Lemma two_filtered_items {A} (keep1 keep2 : A → bool) (l : list A) x y :
  List.filter keep1 l = [x] → List.filter keep2 l = [y] → x ≠ y →
  (1 <? length l) = true.
Proof.
  intros E1 E2 Hne. destruct l as [|a [|b l]]; [done| |done].
  simpl in E1, E2. destruct (keep1 a), (keep2 a); congruence.
Qed.

(** The row of a folder that holds a weights file and an index file, and
    the row of one that holds a weights file only. *)
Lemma model_row_complete fs c dir :
  status_spec fs (c :: dir) complete → model_row fs (c :: dir) = Item c None.
Proof. intros H. by apply (model_row_shows_iff fs c dir complete). Qed.

Lemma model_row_without_index fs c dir :
  has_file_with ".pth" fs (c :: dir) →
  ¬ has_file_with ".index" fs (c :: dir) →
  model_row fs (c :: dir)
  = Item (c +:+ WARNING_MARK) (Some "Missing .index file(s). Model won't work.").
Proof.
  intros Hpth Hindex. unfold model_row.
  assert (existsb (λ _, true) (entries fs (c :: dir)) = true) as ->.
  { apply has_any_spec. destruct Hpth as (c' & data & mtime & E & _).
    exists c'. by rewrite E. }
  assert (any_file_with_suffix ".pth" (entries fs (c :: dir)) = true) as ->
    by by apply any_file_with_suffix_spec.
  assert (any_file_with_suffix ".index" (entries fs (c :: dir)) = false) as ->.
  { apply not_true_is_false. by rewrite any_file_with_suffix_spec. }
  done.
Qed.

(** X4.  Dropping a weights file and an index file together, both regular
    files, on a root that is a directory: no message, nothing raised, and
    the list is reloaded.  It now has one more folder, shown without a mark
    because it is complete; every other row is as it was. *)
Theorem drop_of_a_pair_shows_a_complete_row
    limit model_path first others fs rows pth_file index_file d1 t1 d2 t2 :
  wf fs →
  Path_is_dir fs model_path = true →
  List.filter (has_ext ".pth") (first :: others) = [pth_file] →
  List.filter (has_ext ".index") (first :: others) = [index_file] →
  fs !! pth_file = Some (File d1 t1) →
  fs !! index_file = Some (File d2 t2) →
  plain_name (stem (name pth_file)) = true →
  ∃ dest_name fs',
    first_free_name fs model_path (stem (name pth_file)) dest_name
    ∧ dropEvent limit model_path first others (Window fs rows)
      = (Window fs' (rows_of fs' model_path), [], Ok ())
    ∧ listed_folders fs' model_path ≡ₚ dest_name :: listed_folders fs model_path
    ∧ model_row fs' (dest_name :: model_path) = Item dest_name None
    ∧ ∀ c, c ≠ dest_name →
        model_row fs' (c :: model_path) = model_row fs (c :: model_path).
Proof.
  intros Hwf Hroot Ep Ei Hp Hi Hstem.
  destruct (paired_import_effect limit model_path (first :: others) fs
              pth_file index_file d1 t1 d2 t2 Hwf Hroot Ep Ei Hp Hi Hstem)
    as (dest_name & Hff & Himport).
  exists dest_name. eexists. split; [exact Hff|].
  assert (has_ext ".pth" pth_file = true ∧ has_ext ".index" index_file = true)
    as [Hpext Hiext].
  { split.
    - apply (List.filter_In (has_ext ".pth") pth_file (first :: others)).
      rewrite Ep. by left.
    - apply (List.filter_In (has_ext ".index") index_file (first :: others)).
      rewrite Ei. by left. }
  unfold has_ext in Hpext, Hiext. apply String.eqb_eq in Hpext, Hiext.
  assert (pth_file ≠ index_file) as Hne.
  { intros E. rewrite E, Hiext in Hpext. discriminate Hpext. }
  destruct Hff as [Hfree _].
  set (fs' := <[name index_file :: dest_name :: model_path:=File d2 t2]>
                (<[name pth_file :: dest_name :: model_path:=File d1 t1]>
                   (<[dest_name :: model_path:=Dir]> fs))) in *.
  assert (∀ q, ¬ (dest_name :: model_path) `suffix_of` q → fs' !! q = fs !! q)
    as Hsame.
  { intros q Hq. unfold fs'. rewrite !lookup_insert_ne; [done| | |].
    - by intros <-.
    - intros <-. apply Hq. by apply suffix_cons_r.
    - intros <-. apply Hq. by apply suffix_cons_r. }
  assert (fs' !! (dest_name :: model_path) = Some Dir) as Hnew.
  { unfold fs'. rewrite lookup_insert_ne, lookup_insert_ne, lookup_insert_eq; [done| |].
    - intros E. apply (f_equal length) in E. simpl in E. lia.
    - intros E. apply (f_equal length) in E. simpl in E. lia. }
  split; [|split; [|split]].
  - unfold dropEvent. cbn [disk].
    rewrite (two_filtered_items _ _ _ _ _ Ep Ei Hne), Himport.
    by rewrite (after_drop_load model_path fs fs' dest_name Hroot Hsame).
  - by apply after_drop_of_folder.
  - apply model_row_complete. split; [|split].
    + exists (name index_file). unfold fs'. rewrite lookup_insert_eq. by eexists.
    + exists (name pth_file), d1, t1. split; [|done]. unfold fs'.
      rewrite lookup_insert_ne, lookup_insert_eq; [done|].
      intros [= E]. rewrite E, Hpext in Hiext. discriminate Hiext.
    + exists (name index_file), d2, t2. split; [|done]. unfold fs'.
      by rewrite lookup_insert_eq.
  - intros c Hc. by apply (after_drop_other_rows model_path fs fs' dest_name).
Qed.

Lemma drop_of_a_pair_shows_a_complete_row_witness :
  ∃ dest_name fs',
    first_free_name demo_fs demo_root "voiceA" dest_name
    ∧ dropEvent 10 demo_root voiceA_pth [voiceA_index] (Window demo_fs [])
      = (Window fs' (rows_of fs' demo_root), [], Ok ())
    ∧ listed_folders fs' demo_root ≡ₚ dest_name :: listed_folders demo_fs demo_root
    ∧ model_row fs' (dest_name :: demo_root) = Item dest_name None
    ∧ ∀ c, c ≠ dest_name →
        model_row fs' (c :: demo_root) = model_row demo_fs (c :: demo_root).
Proof.
  apply (drop_of_a_pair_shows_a_complete_row 10 demo_root voiceA_pth
           [voiceA_index] demo_fs [] voiceA_pth voiceA_index "weights" 1 "index" 2).
  - exact demo_fs_wf.
  - vm_compute; reflexivity.
  - vm_compute; reflexivity.
  - vm_compute; reflexivity.
  - vm_compute; reflexivity.
  - vm_compute; reflexivity.
  - vm_compute; reflexivity.
Defined.

(** X5.  Dropping a single weights file on a root that is a directory: no
    message, and the reloaded list has one more folder, holding the copy; its
    row carries the warning mark and the tooltip that names the missing
    index file.  Every other row is as it was. *)
Theorem drop_of_a_lone_pth_shows_a_warning_row
    limit model_path source fs rows data mtime :
  wf fs →
  Path_is_dir fs model_path = true →
  stat fs source = Some (File data mtime) →
  suffix (name source) = ".pth" →
  plain_name (stem (name source)) = true →
  ∃ dest_name fs',
    first_free_name fs model_path (stem (name source)) dest_name
    ∧ dropEvent limit model_path source [] (Window fs rows)
      = (Window fs' (rows_of fs' model_path), [], Ok ())
    ∧ fs' !! (name source :: dest_name :: model_path) = Some (File data mtime)
    ∧ listed_folders fs' model_path ≡ₚ dest_name :: listed_folders fs model_path
    ∧ model_row fs' (dest_name :: model_path)
      = Item (dest_name +:+ WARNING_MARK)
             (Some "Missing .index file(s). Model won't work.")
    ∧ ∀ c, c ≠ dest_name →
        model_row fs' (c :: model_path) = model_row fs (c :: model_path).
Proof.
  intros Hwf Hroot Hsrc Hext Hstem.
  destruct (import_pth_file limit model_path fs Hwf Hroot source data mtime
              Hsrc Hext Hstem) as (dest_name & Hff & Himport).
  exists dest_name. eexists. split; [done|]. destruct Hff as [Hfree _].
  set (fs' := <[name source :: dest_name :: model_path:=File data mtime]>
                (<[dest_name :: model_path:=Dir]> fs)) in *.
  assert (∀ q, ¬ (dest_name :: model_path) `suffix_of` q → fs' !! q = fs !! q)
    as Hsame.
  { intros q Hq. unfold fs'. rewrite !lookup_insert_ne; [done| |].
    - by intros <-.
    - intros <-. apply Hq. by apply suffix_cons_r. }
  assert (fs' !! (dest_name :: model_path) = Some Dir) as Hnew.
  { unfold fs'. rewrite lookup_insert_ne, lookup_insert_eq; [done|].
    intros E. apply (f_equal length) in E. simpl in E. lia. }
  split; [|split; [|split; [|split]]].
  - unfold dropEvent. cbn [disk length Nat.ltb Nat.leb]. rewrite Himport.
    by rewrite (after_drop_load model_path fs fs' dest_name Hroot Hsame).
  - unfold fs'. by rewrite lookup_insert_eq.
  - by apply after_drop_of_folder.
  - apply model_row_without_index.
    + exists (name source), data, mtime. split; [|done]. unfold fs'.
      by rewrite lookup_insert_eq.
    + intros (c & d & t & Hc & Hcext). unfold fs' in Hc.
      destruct (decide (c = name source)) as [->|Hne].
      * rewrite Hext in Hcext. discriminate Hcext.
      * rewrite !lookup_insert_ne in Hc.
        -- by rewrite (in_fresh_folder model_path fs Hwf dest_name c Hfree) in Hc.
        -- intros E. apply (f_equal length) in E. simpl in E. lia.
        -- by intros [= E].
  - intros c Hc. by apply (after_drop_other_rows model_path fs fs' dest_name).
Qed.

Lemma drop_of_a_lone_pth_shows_a_warning_row_witness :
  ∃ dest_name fs',
    first_free_name demo_fs demo_root "voiceA" dest_name
    ∧ dropEvent 10 demo_root voiceA_pth [] (Window demo_fs [])
      = (Window fs' (rows_of fs' demo_root), [], Ok ())
    ∧ fs' !! ("voiceA.pth" :: dest_name :: demo_root) = Some (File "weights" 1)
    ∧ listed_folders fs' demo_root ≡ₚ dest_name :: listed_folders demo_fs demo_root
    ∧ model_row fs' (dest_name :: demo_root)
      = Item (dest_name +:+ WARNING_MARK)
             (Some "Missing .index file(s). Model won't work.")
    ∧ ∀ c, c ≠ dest_name →
        model_row fs' (c :: demo_root) = model_row demo_fs (c :: demo_root).
Proof.
  apply (drop_of_a_lone_pth_shows_a_warning_row 10 demo_root voiceA_pth
           demo_fs [] "weights" 1).
  - exact demo_fs_wf.
  - vm_compute; reflexivity.
  - vm_compute; reflexivity.
  - vm_compute; reflexivity.
  - vm_compute; reflexivity.
Defined.

(** X6.  Dropping a single regular file that is not a weights file on a root
    that is a directory: the file is copied to a regular file directly under
    the root, no message is shown, and the reloaded list is the listing from
    before the drop.  The copy is never shown. *)
Theorem drop_of_another_file_shows_nothing
    limit model_path source fs rows data mtime :
  Path_is_dir fs model_path = true →
  stat fs source = Some (File data mtime) →
  suffix (name source) ≠ ".pth" →
  plain_name (stem (name source)) = true →
  ∃ dest_name,
    first_free_name fs model_path (stem (name source)) dest_name
    ∧ dropEvent limit model_path source [] (Window fs rows)
      = (Window (<[dest_name :: model_path:=File data mtime]> fs)
           (rows_of fs model_path), [], Ok ()).
Proof.
  intros Hroot Hsrc Hext Hstem.
  destruct (import_other_file limit model_path fs Hroot source data mtime
              Hsrc Hext Hstem) as (dest_name & Hff & Himport).
  exists dest_name. split; [done|]. destruct Hff as [Hfree _].
  assert (∀ q, ¬ (dest_name :: model_path) `suffix_of` q →
               <[dest_name :: model_path:=File data mtime]> fs !! q = fs !! q)
    as Hsame.
  { intros q Hq. rewrite lookup_insert_ne; [done|]. by intros <-. }
  unfold dropEvent. cbn [disk length Nat.ltb Nat.leb]. rewrite Himport.
  rewrite (after_drop_load model_path fs _ dest_name Hroot Hsame).
  rewrite (after_drop_of_file model_path fs _ dest_name Hsame Hfree); [done|].
  by rewrite lookup_insert_eq.
Qed.

Lemma drop_of_another_file_shows_nothing_witness :
  ∃ dest_name,
    first_free_name demo_fs demo_root "extra" dest_name
    ∧ dropEvent 10 demo_root extra_txt [] (Window demo_fs [])
      = (Window (<[dest_name :: demo_root:=File "notes" 3]> demo_fs)
           (rows_of demo_fs demo_root), [], Ok ()).
Proof.
  apply (drop_of_another_file_shows_nothing 10 demo_root extra_txt demo_fs []
           "notes" 3).
  - vm_compute; reflexivity.
  - vm_compute; reflexivity.
  - vm_compute. intros H; discriminate H.
  - vm_compute; reflexivity.
Defined.

(** ** Removing a listed folder *)

(** X1.  With a fresh list under a root that is a directory, choosing row
    [i] and answering Yes removes the folder that row stands for, marked or
    not, with everything below it, and nothing else; no message is shown.
    The list afterwards is the old list without that row, and it is what the
    next [load_models] returns. *)
Theorem remove_model_removes_the_selected_folder model_path fs i c :
  Path_is_dir fs model_path = true →
  listed_folders fs model_path !! i = Some c →
  ∃ fs',
    remove_model model_path (Z.of_nat i) true (Window fs (rows_of fs model_path))
    = (Window fs' (delete i (rows_of fs model_path)), [], Ok ())
    ∧ rows_of fs model_path !! i = Some (model_row fs (c :: model_path))
    ∧ (∀ q, fs' !! q
            = if decide ((c :: model_path) `suffix_of` q) then None else fs !! q)
    ∧ load_models model_path fs' = (fs', Ok (delete i (rows_of fs model_path))).
Proof.
  intros Hdir Hi. eexists. split; [by apply remove_model_confirmed|].
  split; [|split].
  - unfold rows_of. by rewrite !list_lookup_fmap, Hi.
  - intros q. apply rmtree_lookup.
  - rewrite load_models_in_dir by by rewrite rmtree_keeps_root.
    fold (rows_of (filter (λ e : path * node, ¬ (c :: model_path) `suffix_of` e.1) fs)
            model_path).
    by rewrite (rows_of_rmtree fs model_path i c Hi).
Qed.

Lemma remove_model_removes_the_selected_folder_witness :
  ∃ fs',
    remove_model demo_root (Z.of_nat 2) true
      (Window library_fs (rows_of library_fs demo_root))
    = (Window fs' (delete 2 (rows_of library_fs demo_root)), [], Ok ())
    ∧ rows_of library_fs demo_root !! 2
      = Some (model_row library_fs ("voiceA" :: demo_root))
    ∧ (∀ q, fs' !! q
            = if decide (("voiceA" :: demo_root) `suffix_of` q) then None
              else library_fs !! q)
    ∧ load_models demo_root fs' = (fs', Ok (delete 2 (rows_of library_fs demo_root))).
Proof.
  apply (remove_model_removes_the_selected_folder demo_root library_fs 2 "voiceA").
  - vm_compute; reflexivity.
  - vm_compute; reflexivity.
Defined.

(** X2.  [remove_model] keeps the filesystem well formed, whatever the
    selection, the answer and the state of the list. *)
Theorem remove_model_keeps_the_filesystem_well_formed
    model_path selected confirmed w :
  wf (disk w) →
  wf (disk (remove_model model_path selected confirmed w).1.1).
Proof.
  intros Hwf.
  destruct (remove_model_disk model_path selected confirmed w)
    as [->|(c & _ & ->)]; [done|]. by apply rmtree_wf.
Qed.

Lemma remove_model_keeps_the_filesystem_well_formed_witness :
  wf (disk (remove_model demo_root 1 true (Window library_fs [])).1.1).
Proof.
  apply (remove_model_keeps_the_filesystem_well_formed demo_root 1 true
           (Window library_fs [])).
  exact library_fs_wf.
Defined.

(** X3.  [remove_model] never reaches outside the folders of the root: an
    entry that is neither a child of the root nor below one, the root itself
    included, is the same afterwards, for every selection, every answer and
    every list, fresh or stale. *)
Theorem remove_model_stays_below_the_root model_path selected confirmed w q :
  (∀ c, ¬ (c :: model_path) `suffix_of` q) →
  disk (remove_model model_path selected confirmed w).1.1 !! q = disk w !! q.
Proof.
  intros Hq.
  destruct (remove_model_disk model_path selected confirmed w)
    as [->|(c & _ & ->)]; [done|].
  rewrite rmtree_lookup, decide_False; [done|]. apply Hq.
Qed.

Lemma remove_model_stays_below_the_root_witness :
  pack_fs !! ("voiceC" :: demo_root) = Some Dir
  ∧ disk (remove_model demo_root 0 true (Window pack_fs [])).1.1
      !! ("voiceC" :: demo_root) = None
  ∧ (∀ c, ¬ (c :: demo_root) `suffix_of` abs ["downloads"; "voiceC"; "voiceC.pth"])
  ∧ disk (remove_model demo_root 0 true (Window pack_fs [])).1.1
      !! abs ["downloads"; "voiceC"; "voiceC.pth"]
    = pack_fs !! abs ["downloads"; "voiceC"; "voiceC.pth"].
Proof.
  assert (∀ c, ¬ (c :: demo_root)
                 `suffix_of` abs ["downloads"; "voiceC"; "voiceC.pth"])
    as Hout.
  { intros c [[|a [|b [|d ext]]] E]; vm_compute in E; try discriminate E.
    apply (f_equal length) in E. rewrite !length_cons, length_app in E.
    simpl in E. lia. }
  split; [vm_compute; reflexivity|]. split; [vm_compute; reflexivity|].
  split; [exact Hout|].
  exact (remove_model_stays_below_the_root demo_root 0 true (Window pack_fs [])
           _ Hout).
Defined.

(** ** Reloading *)

Lemma load_models_Ok_inv model_path fs fs1 rows :
  load_models model_path fs = (fs1, Ok rows) →
  Path_is_dir fs1 model_path = true ∧ rows = rows_of fs1 model_path.
Proof.
  unfold load_models, bind, gets, ret, Path_iterdir. cbn beta.
  set (made := if negb (Path_exists fs model_path)
               then Path_mkdir false model_path
               else λ fs0, (fs0, Ok ())).
  destruct (made fs) as [fs0 [[]|e]]; [|done].
  destruct (stat fs0 model_path) as [[]|] eqn:Hstat; [done| |done].
  intros [= <- <-]. split; [by apply Path_is_dir_true|].
  unfold rows_of. by rewrite List_filter_fmap.
Qed.

(** X7.  Reloading is idempotent: when [load_models] returns a listing, a
    second [load_models] right after it returns the same listing and leaves
    the filesystem as the first one left it. *)
Theorem load_models_again_changes_nothing model_path fs fs1 rows :
  load_models model_path fs = (fs1, Ok rows) →
  load_models model_path fs1 = (fs1, Ok rows).
Proof.
  intros [Hdir ->]%load_models_Ok_inv. by apply load_models_in_dir.
Qed.

Lemma load_models_again_changes_nothing_witness :
  demo_fs !! abs ["srv"; "rvc"; "models"] = None
  ∧ (load_models (abs ["srv"; "rvc"; "models"]) demo_fs).2 = Ok []
  ∧ (load_models (abs ["srv"; "rvc"; "models"]) demo_fs).1
      !! abs ["srv"; "rvc"; "models"] = Some Dir
  ∧ load_models (abs ["srv"; "rvc"; "models"])
      (load_models (abs ["srv"; "rvc"; "models"]) demo_fs).1
    = ((load_models (abs ["srv"; "rvc"; "models"]) demo_fs).1, Ok []).
Proof.
  split; [vm_compute; reflexivity|]. split; [vm_compute; reflexivity|].
  split; [vm_compute; reflexivity|].
  apply (load_models_again_changes_nothing (abs ["srv"; "rvc"; "models"]) demo_fs).
  apply injective_projections; [reflexivity|vm_compute; reflexivity].
Defined.

(** ** Saving the root and reading it back *)

Section strip_fixed.
Implicit Types (t : text_str) (c : N).

Lemma lstrip_length t : length (lstrip t) ≤ length t.
Proof.
  induction t as [|c t IH]; simpl; [done|].
  destruct (isspace c); simpl; lia.
Qed.

Lemma lstrip_fixed t :
  lstrip t = t ↔ ∀ c, head t = Some c → isspace c = false.
Proof.
  destruct t as [|c t]; simpl; [by split|].
  destruct (isspace c) eqn:E.
  - split.
    + intros H. pose proof (lstrip_length t) as Hlen. rewrite H in Hlen.
      simpl in Hlen. lia.
    + intros H. specialize (H c eq_refl). congruence.
  - split; [|done]. by intros _ ? [= <-].
Qed.

Lemma rstrip_length t : length (rstrip t) ≤ length t.
Proof.
  unfold rstrip. rewrite length_reverse.
  etrans; [apply lstrip_length|]. by rewrite length_reverse.
Qed.

Lemma rstrip_fixed t :
  rstrip t = t ↔ ∀ c, last t = Some c → isspace c = false.
Proof.
  unfold rstrip. rewrite <-(head_reverse t), <-lstrip_fixed. split.
  - intros H. rewrite <-H at 2. by rewrite reverse_involutive.
  - intros ->. by rewrite reverse_involutive.
Qed.

Lemma strip_fixed t :
  strip t = t ↔
  (∀ c, head t = Some c → isspace c = false)
  ∧ (∀ c, last t = Some c → isspace c = false).
Proof.
  rewrite <-lstrip_fixed, <-rstrip_fixed. unfold strip. split.
  - intros H. assert (lstrip t = t) as Hl.
    { apply lstrip_fixed. intros c Hc.
      destruct (isspace c) eqn:E; [|done]. exfalso.
      destruct t as [|c' t]; simplify_eq/=. rewrite E in H.
      pose proof (rstrip_length (lstrip t)) as H1.
      pose proof (lstrip_length t) as H2. rewrite H in H1. simpl in H1. lia. }
    split; [done|]. by rewrite Hl in H.
  - intros [-> ->]. done.
Qed.
End strip_fixed.

(** X8.  Saving the root and reading it back.  When [set_model_path]
    returns and the file is not one that may not be read, [get_model_path]
    on the file it leaves gives back the saved text exactly when that text is
    not empty, has no whitespace at either end and holds no [\r]: text mode
    turns every [\r] into [\n] on the way back, and [strip] takes the ends
    off. *)
Theorem saved_root_is_read_back_iff_clean os writable path_text f :
  (set_model_path os writable path_text f).2 = Ok () →
  f ≠ unreadable →
  (get_model_path (set_model_path os writable path_text f).1 = Ok path_text
   ↔ (∃ c, head path_text = Some c ∧ isspace c = false)
     ∧ (∃ c, last path_text = Some c ∧ isspace c = false)
     ∧ 13%N ∉ path_text).
Proof.
  unfold set_model_path. intros Hok Hf.
  assert (Path_write_text os writable path_text f
          = (holding (translate_newlines os path_text), Ok ())) as E.
  { unfold Path_write_text in *. destruct f; try done;
      destruct (negb writable); try done;
      destruct (existsb is_surrogate path_text); done. }
  rewrite E. clear E Hok. cbn [fst].
  set (text := universal_newlines false (translate_newlines os path_text)).
  assert (13%N ∉ text) as Hcr by apply universal_newlines_no_cr.
  assert (get_model_path (holding (translate_newlines os path_text))
          = if bool_decide (strip text ≠ []) then Ok (strip text)
            else Ok DEFAULT_MODELS_PATH) as -> by done.
  split.
  - intros H. assert (13%N ∉ path_text) as Hcr'.
    { destruct (bool_decide (strip text ≠ [])); injection H as H';
        rewrite <-H'.
      - intros Hin%elem_of_strip. done.
      - apply (bool_decide_eq_true_1 (13%N ∉ DEFAULT_MODELS_PATH)).
        vm_compute. reflexivity. }
    assert (text = path_text) as Htext
      by by apply universal_newlines_translate.
    rewrite Htext in H. split_and!; [| |done].
    + destruct (decide (strip path_text = [])) as [Hnil|Hsome].
      * rewrite Hnil, bool_decide_eq_false_2 in H by by intros ?.
        injection H as H. apply strip_nil_iff in Hnil. rewrite <-H in Hnil.
        exfalso. vm_compute in Hnil. inversion Hnil as [|? ? Hspace _].
        discriminate Hspace.
      * rewrite bool_decide_eq_true_2 in H by done. injection H as H.
        pose proof H as [Hh _]%strip_fixed.
        destruct path_text as [|c t]; [by rewrite H in Hsome|].
        exists c. split; [done|]. by apply Hh.
    + destruct (decide (strip path_text = [])) as [Hnil|Hsome].
      * rewrite Hnil, bool_decide_eq_false_2 in H by by intros ?.
        injection H as H. apply strip_nil_iff in Hnil. rewrite <-H in Hnil.
        exfalso. vm_compute in Hnil. inversion Hnil as [|? ? Hspace _].
        discriminate Hspace.
      * rewrite bool_decide_eq_true_2 in H by done. injection H as H.
        pose proof H as [_ Hl]%strip_fixed.
        destruct (last path_text) as [c'|] eqn:El.
        -- exists c'. split; [done|]. by apply Hl.
        -- apply last_None in El. by rewrite El in Hsome.
  - intros ((c & Hc & Hcs) & (c' & Hc' & Hcs') & Hcr').
    assert (text = path_text) as ->
      by by apply universal_newlines_translate.
    assert (strip path_text = path_text) as ->.
    { apply strip_fixed. split; intros ? ?; congruence. }
    rewrite bool_decide_eq_true_2; [done|]. by intros ->.
Qed.

Lemma saved_root_is_read_back_iff_clean_witness :
  (set_model_path nt true (code_points "C:\rvc models") absent).2 = Ok ()
  ∧ absent ≠ unreadable
  ∧ (get_model_path
       (set_model_path nt true (code_points "C:\rvc models") absent).1
     = Ok (code_points "C:\rvc models")
     ↔ (∃ c, head (code_points "C:\rvc models") = Some c ∧ isspace c = false)
       ∧ (∃ c, last (code_points "C:\rvc models") = Some c ∧ isspace c = false)
       ∧ 13%N ∉ code_points "C:\rvc models").
Proof.
  assert ((set_model_path nt true (code_points "C:\rvc models") absent).2 = Ok ())
    as Hok by (vm_compute; reflexivity).
  assert (absent ≠ unreadable) as Hf by discriminate.
  split; [exact Hok|]. split; [exact Hf|].
  exact (saved_root_is_read_back_iff_clean nt true
           (code_points "C:\rvc models") absent Hok Hf).
Defined.

(** A root typed with a line end inside is not read back as it was saved,
    although it is clean at both ends. *)
Example saved_root_with_a_carriage_return :
  (set_model_path posix true [97; 13; 98]%N absent).2 = Ok ()
  ∧ get_model_path (set_model_path posix true [97; 13; 98]%N absent).1
    = Ok [97; 10; 98]%N.
Proof. split; vm_compute; reflexivity. Qed.

(** ** Renaming a folder that the row's text names *)

Section moving.
Implicit Types (fs : FS) (src dst q r : path) (c : string).

Lemma rebase_below src dst r : rebase src dst (r ++ src) = r ++ dst.
Proof.
  unfold rebase. rewrite bool_decide_eq_true_2 by by apply suffix_app_r.
  rewrite length_app, Nat.add_sub. by rewrite take_app_length.
Qed.

Lemma rebase_other src dst q : ¬ src `suffix_of` q → rebase src dst q = q.
Proof. intros H. unfold rebase. by rewrite bool_decide_eq_false_2. Qed.

(** With nothing at or below the target, no two entries land on one path. *)
Lemma rebase_inj_on fs src dst q1 q2 :
  free_below fs dst →
  is_Some (fs !! q1) → is_Some (fs !! q2) →
  rebase src dst q1 = rebase src dst q2 → q1 = q2.
Proof.
  intros Hfree H1 H2.
  destruct (decide (src `suffix_of` q1)) as [[r1 ->]|N1];
    destruct (decide (src `suffix_of` q2)) as [[r2 ->]|N2];
    rewrite ?rebase_below, ?(rebase_other _ _ _ N1), ?(rebase_other _ _ _ N2).
  - by intros ->%(inj (.++ dst)).
  - intros <-. rewrite Hfree in H2 by by apply suffix_app_r.
    by destruct H2.
  - intros ->. rewrite Hfree in H1 by by apply suffix_app_r.
    by destruct H1.
  - done.
Qed.

Lemma moved_lookup fs src dst q n :
  free_below fs dst →
  (list_to_map (prod_map (rebase src dst) id <$> map_to_list fs) : FS) !! q = Some n
  ↔ ∃ q0, fs !! q0 = Some n ∧ rebase src dst q0 = q.
Proof.
  intros Hfree. rewrite <-elem_of_list_to_map.
  - rewrite list_elem_of_fmap. split.
    + intros ([q0 n0] & [= -> ->] & Hin%elem_of_map_to_list). eauto.
    + intros (q0 & Hq0 & <-). exists (q0, n). split; [done|].
      by apply elem_of_map_to_list.
  - assert ((prod_map (rebase src dst) id <$> map_to_list fs).*1
            = rebase src dst <$> (map_to_list fs).*1) as ->.
    { rewrite <-!list_fmap_compose. apply list_fmap_ext. by intros ? [] ?. }
    apply NoDup_fmap_2_strong.
    + intros q1 q2 [[? n1] [-> H1%elem_of_map_to_list]]%list_elem_of_fmap
        [[? n2] [-> H2%elem_of_map_to_list]]%list_elem_of_fmap. simpl.
      by apply (rebase_inj_on fs); [|eexists..].
    + apply NoDup_fst_map_to_list.
Qed.

(** What [Path.rename] leaves when it succeeds. *)
Lemma Path_rename_moves fs src dst :
  is_Some (stat fs src) →
  free_below fs dst → dst ≠ [] →
  Path_is_dir fs (parent dst) = true →
  ¬ src `suffix_of` dst →
  ∃ fs', Path_rename src dst fs = (fs', Ok ())
    ∧ (∀ r, fs' !! (r ++ dst) = fs !! (r ++ src))
    ∧ (∀ q, src `suffix_of` q → ¬ dst `suffix_of` q → fs' !! q = None)
    ∧ (∀ q, ¬ src `suffix_of` q → ¬ dst `suffix_of` q → fs' !! q = fs !! q).
Proof.
  intros [n Hsrc] Hfree Hdst Hparent Hnot. eexists. split; [|split; [|split]].
  - unfold Path_rename. rewrite Hsrc, Hparent.
    assert (Path_exists fs dst = false) as ->.
    { apply Path_exists_false. rewrite stat_lookup by done. by apply Hfree. }
    simpl. by rewrite bool_decide_eq_false_2.
  - intros r. apply option_eq. intros n'. rewrite moved_lookup by done. split.
    + intros (q0 & Hq0 & E).
      destruct (decide (src `suffix_of` q0)) as [[r0 ->]|N].
      * rewrite rebase_below in E. by apply (inj (.++ dst)) in E as ->.
      * rewrite rebase_other in E by done. subst q0.
        rewrite Hfree in Hq0 by by apply suffix_app_r. done.
    + intros H. exists (r ++ src). by rewrite rebase_below.
  - intros q Hq Nq. apply eq_None_not_Some. intros [n' Hn'].
    apply moved_lookup in Hn' as (q0 & Hq0 & E); [|done].
    destruct (decide (src `suffix_of` q0)) as [[r0 ->]|N].
    + rewrite rebase_below in E. subst q. apply Nq. by apply suffix_app_r.
    + rewrite rebase_other in E by done. by subst q0.
  - intros q Nsrc Ndst. apply option_eq. intros n'.
    rewrite moved_lookup by done. split.
    + intros (q0 & Hq0 & E).
      destruct (decide (src `suffix_of` q0)) as [[r0 ->]|N].
      * rewrite rebase_below in E. subst q. exfalso. apply Ndst.
        by apply suffix_app_r.
      * rewrite rebase_other in E by done. by subst q0.
    + intros H. exists q. by rewrite rebase_other.
Qed.

(** [rename_model] on a row whose text names an entry of the root, with a
    new name that is free. *)
Lemma rename_model_effect model_path current new_name w :
  Path_is_dir (disk w) model_path = true →
  plain_name (text current) = true → plain_name new_name = true →
  new_name ≠ text current →
  is_Some (disk w !! (text current :: model_path)) →
  free_below (disk w) (new_name :: model_path) →
  ∃ fs',
    rename_model model_path (Some current) new_name true w
    = (Window fs' (rows_of fs' model_path), [])
    ∧ Path_is_dir fs' model_path = true
    ∧ (∀ r, fs' !! (r ++ new_name :: model_path)
            = disk w !! (r ++ text current :: model_path))
    ∧ (∀ q, (text current :: model_path) `suffix_of` q → fs' !! q = None)
    ∧ (∀ q, ¬ (text current :: model_path) `suffix_of` q →
            ¬ (new_name :: model_path) `suffix_of` q → fs' !! q = disk w !! q).
Proof.
  intros Hroot Hold Hnew Hne Hsrc Hfree.
  destruct (Path_rename_moves (disk w) (text current :: model_path)
              (new_name :: model_path)) as (fs' & Hrun & Hin & Hgone & Hout);
    [done..| |].
  { intros H%below_sibling. congruence. }
  assert (∀ q, (text current :: model_path) `suffix_of` q →
               ¬ (new_name :: model_path) `suffix_of` q) as Hsep.
  { intros q [r1 ->] [r2 E].
    assert (length r1 = length r2) as Hlen.
    { apply (f_equal length) in E. rewrite !length_app in E. simpl in E. lia. }
    apply app_inj_1 in E as [_ [= ?]]; [|done]. congruence. }
  assert (Path_is_dir fs' model_path = true) as Hroot'.
  { destruct model_path as [|c dir]; [done|].
    apply Path_is_dir_true. apply Path_is_dir_true in Hroot.
    rewrite stat_cons in *. rewrite Hout; [done|..].
    - intros H%suffix_cons_not. done.
    - intros H%suffix_cons_not. done. }
  exists fs'. split; [|split; [done|split; [done|split; [|done]]]].
  - unfold rename_model. rewrite !joinpath_plain_name by done.
    assert (new_name ≠ "") as Hnonempty.
    { apply plain_name_spec in Hnew. tauto. }
    rewrite rename_guard_passes by done.
    assert (Path_exists (disk w) (new_name :: model_path) = false) as ->.
    { apply Path_exists_false. rewrite stat_cons. by apply Hfree. }
    rewrite Hrun. by rewrite load_models_in_dir.
  - intros q Hq. apply Hgone; [done|]. by apply Hsep.
Qed.
End moving.

(** X9.  A successful rename.  When the text of the selected row names an
    entry of the root that is a directory, the new name is an ordinary name
    other than that text, and no entry of the root carries it, [rename_model]
    shows no message and reloads the list; the entry and everything below it
    are found under the new name, nothing is left under the old one, and
    every other entry is as it was. *)
Theorem rename_model_moves_the_folder model_path current new_name w :
  wf (disk w) →
  Path_is_dir (disk w) model_path = true →
  plain_name (text current) = true → plain_name new_name = true →
  new_name ≠ text current →
  is_Some (disk w !! (text current :: model_path)) →
  disk w !! (new_name :: model_path) = None →
  ∃ fs',
    rename_model model_path (Some current) new_name true w
    = (Window fs' (rows_of fs' model_path), [])
    ∧ (∀ r, fs' !! (r ++ new_name :: model_path)
            = disk w !! (r ++ text current :: model_path))
    ∧ (∀ q, (text current :: model_path) `suffix_of` q → fs' !! q = None)
    ∧ (∀ q, ¬ (text current :: model_path) `suffix_of` q →
            ¬ (new_name :: model_path) `suffix_of` q → fs' !! q = disk w !! q).
Proof.
  intros Hwf Hroot Hold Hnew Hne Hsrc Hfree.
  destruct (rename_model_effect model_path current new_name w)
    as (fs' & Hrun & _ & Hrest); [done..| |by exists fs'].
  intros q Hq. by apply (wf_free_below _ (new_name :: model_path)).
Qed.

Lemma rename_model_moves_the_folder_witness :
  ∃ fs',
    rename_model demo_root (Some (Item "voiceA" None)) "voiceB" true
      (Window library_fs (rows_of library_fs demo_root))
    = (Window fs' (rows_of fs' demo_root), [])
    ∧ (∀ r, fs' !! (r ++ "voiceB" :: demo_root)
            = library_fs !! (r ++ "voiceA" :: demo_root))
    ∧ (∀ q, ("voiceA" :: demo_root) `suffix_of` q → fs' !! q = None)
    ∧ (∀ q, ¬ ("voiceA" :: demo_root) `suffix_of` q →
            ¬ ("voiceB" :: demo_root) `suffix_of` q → fs' !! q = library_fs !! q).
Proof.
  apply (rename_model_moves_the_folder demo_root (Item "voiceA" None) "voiceB"
           (Window library_fs (rows_of library_fs demo_root))).
  - exact library_fs_wf.
  - vm_compute; reflexivity.
  - vm_compute; reflexivity.
  - vm_compute; reflexivity.
  - simpl; discriminate.
  - vm_compute; eexists; reflexivity.
  - vm_compute; reflexivity.
Defined.

(** X10.  Renaming there and back.  After a successful rename, selecting the
    row that carries the new name and renaming it to the old name gives back
    the filesystem as it was before the first rename, entry by entry, and the
    list that belongs to it. *)
Theorem rename_model_there_and_back model_path current back new_name w :
  wf (disk w) →
  Path_is_dir (disk w) model_path = true →
  plain_name (text current) = true → plain_name new_name = true →
  new_name ≠ text current →
  is_Some (disk w !! (text current :: model_path)) →
  disk w !! (new_name :: model_path) = None →
  text back = new_name →
  ∃ w1,
    rename_model model_path (Some current) new_name true w = (w1, [])
    ∧ rename_model model_path (Some back) (text current) true w1
      = (Window (disk w) (rows_of (disk w) model_path), []).
Proof.
  intros Hwf Hroot Hold Hnew Hne Hsrc Hfree <-.
  destruct (rename_model_effect model_path current (text back) w)
    as (fs1 & Hrun1 & Hroot1 & Hin1 & Hgone1 & Hout1); [done..| |].
  { intros q Hq. by apply (wf_free_below _ (text back :: model_path)). }
  destruct (rename_model_effect model_path back (text current)
              (Window fs1 (rows_of fs1 model_path)))
    as (fs2 & Hrun2 & _ & Hin2 & Hgone2 & Hout2); [done..| | |].
  { specialize (Hin1 []). simpl in *. by rewrite Hin1. }
  { intros q Hq. simpl. by apply Hgone1. }
  eexists. split; [exact Hrun1|]. rewrite Hrun2.
  assert (fs2 = disk w) as ->; [|done].
  apply map_eq. intros q.
  destruct (decide ((text current :: model_path) `suffix_of` q)) as [[r ->]|N1].
  - by rewrite Hin2, Hin1.
  - destruct (decide ((text back :: model_path) `suffix_of` q)) as [Hq|N2].
    + rewrite Hgone2 by done. symmetry.
      by apply (wf_free_below _ (text back :: model_path)).
    + rewrite Hout2, Hout1 by done. done.
Qed.

Lemma rename_model_there_and_back_witness :
  ∃ w1,
    rename_model demo_root (Some (Item "voiceA" None)) "voiceB" true
      (Window library_fs (rows_of library_fs demo_root)) = (w1, [])
    ∧ rename_model demo_root (Some (Item "voiceB" None)) "voiceA" true w1
      = (Window library_fs (rows_of library_fs demo_root), []).
Proof.
  apply (rename_model_there_and_back demo_root (Item "voiceA" None)
           (Item "voiceB" None) "voiceB"
           (Window library_fs (rows_of library_fs demo_root))).
  - exact library_fs_wf.
  - vm_compute; reflexivity.
  - vm_compute; reflexivity.
  - vm_compute; reflexivity.
  - simpl; discriminate.
  - vm_compute; eexists; reflexivity.
  - vm_compute; reflexivity.
  - reflexivity.
Defined.

(** ** A recursive copy is complete *)

Section copying.
Implicit Types (fs : FS) (src dst q r : path) (c : string).

Lemma apart_below src dst q :
  apart src dst → src `suffix_of` q → dst `suffix_of` q → False.
Proof.
  intros [H1 H2] Hs Hd. destruct (suffix_weak_total _ _ _ Hs Hd); tauto.
Qed.

Lemma apart_child src dst c : apart src dst → apart (c :: src) (c :: dst).
Proof.
  intros [H1 H2]. split.
  - intros [[= E]|H]%suffix_cons_inv'; [by subst|].
    apply H1. by apply suffix_cons_l in H.
  - intros [[= E]|H]%suffix_cons_inv'; [by subst|].
    apply H2. by apply suffix_cons_l in H.
Qed.

Lemma siblings_below c c' dir q :
  (c :: dir) `suffix_of` q → (c' :: dir) `suffix_of` q → c = c'.
Proof.
  intros H1 H2.
  destruct (suffix_weak_total _ _ _ H1 H2) as [H%below_sibling|H%below_sibling];
    done.
Qed.

Lemma tree_within_ext limit fs fs' src :
  (∀ q, src `suffix_of` q → fs' !! q = fs !! q) →
  tree_within limit fs src → tree_within limit fs' src.
Proof.
  intros H [Hd Ht]. split.
  - intros r. rewrite H by by apply suffix_app_r. apply Hd.
  - intros c r. rewrite (H (c :: r ++ src)), (H (r ++ src)).
    + apply Ht.
    + by apply suffix_app_r.
    + by apply (suffix_app_r _ _ (c :: r)).
Qed.

Lemma tree_within_child limit fs src c :
  tree_within (S limit) fs src → tree_within limit fs (c :: src).
Proof.
  intros [Hd Ht]. split.
  - intros r Hr. specialize (Hd (r ++ [c])).
    rewrite <-app_assoc, length_app in Hd. simpl in Hd. apply Hd in Hr. lia.
  - intros c' r Hr. specialize (Ht c' (r ++ [c])).
    rewrite <-app_assoc in Ht. by apply Ht.
Qed.

(** Below a name that is not there, and below a regular file, is nothing. *)
Lemma tree_within_free limit fs src r :
  tree_within limit fs src → fs !! src ≠ Some Dir → r ≠ [] →
  fs !! (r ++ src) = None.
Proof.
  intros [_ Ht] Hsrc. induction r as [|c r IH]; [done|]. intros _. simpl.
  apply eq_None_not_Some. intros H%Ht.
  destruct r as [|c' r]; [done|]. rewrite IH in H; done.
Qed.

Lemma wf_tree_within limit fs src :
  wf fs → src ≠ [] →
  (∀ r, is_Some (fs !! (r ++ src)) → length r < limit) →
  tree_within limit fs src.
Proof.
  intros Hwf Hsrc Hd. split; [done|]. intros c r [n Hn].
  apply wf_lookup in Hn as [_ Hs]; [|done]. rewrite stat_lookup in Hs; [done|].
  by destruct r.
Qed.

(** The loop over the scanned entries, when each nested copy is complete. *)
Lemma copy_entries_copies limit copytree src dst :
  copies_tree limit copytree →
  apart src dst →
  ∀ es errors fs,
    NoDup es.*1 →
    (∀ c n, (c, n) ∈ es → fs !! (c :: src) = Some n) →
    fs !! dst = Some Dir →
    (∀ c, c ∈ es.*1 → free_below fs (c :: dst)) →
    tree_within (S limit) fs src →
    ∃ fs', copy_entries copytree src dst es errors fs = (fs', Ok errors)
      ∧ (∀ c r, c ∈ es.*1 → fs' !! (r ++ c :: dst) = fs !! (r ++ c :: src))
      ∧ (∀ q, (∀ c, c ∈ es.*1 → ¬ (c :: dst) `suffix_of` q) →
              fs' !! q = fs !! q).
Proof.
  intros Hrec Hapart.
  induction es as [|[c n] es IH]; intros errors fs Hnd Hin Hdst Hfree Htree.
  - exists fs. split; [done|]. split; [|done]. intros c r Hc.
    by apply elem_of_nil in Hc.
  - cbn [fmap list_fmap fst] in Hnd, Hfree |- *.
    apply NoDup_cons in Hnd as [Hc Hnd].
    assert (Path_is_dir fs dst = true) as Hdir.
    { apply Path_is_dir_true. destruct dst; [done|]. by rewrite stat_cons. }
    assert (fs !! (c :: src) = Some n) as Hn by (apply Hin; left).
    assert (∃ fs1,
              match n with
              | Dir => copytree (c :: src) (c :: dst) fs
              | File _ _ => shutil_copy2 (c :: src) (c :: dst) fs
              end = (fs1, Ok ())
              ∧ (∀ r, fs1 !! (r ++ c :: dst) = fs !! (r ++ c :: src))
              ∧ (∀ q, ¬ (c :: dst) `suffix_of` q → fs1 !! q = fs !! q))
      as (fs1 & Hrun & Hcopied & Hout).
    { destruct n as [data mtime|].
      - exists (<[c :: dst:=File data mtime]> fs). split; [|split].
        + apply shutil_copy2_fresh; [done| |done].
          rewrite stat_cons. apply (Hfree c); [by left|done].
        + intros [|c' r]; simpl; [by rewrite lookup_insert_eq|].
          rewrite lookup_insert_ne.
          * rewrite (Hfree c) by (by left || by apply (suffix_app_r _ _ (c' :: r))).
            symmetry.
            apply (tree_within_free limit fs (c :: src) (c' :: r));
              [by apply tree_within_child|congruence|done].
          * intros E. apply (f_equal length) in E. simpl in E.
            rewrite length_app in E. simpl in E. lia.
        + intros q Hq. apply lookup_insert_ne. by intros <-.
      - destruct (Hrec (c :: src) (c :: dst) fs)
          as (fs1 & Hrun & Hcopied & Hout); [done| |done|done| | |by exists fs1].
        + by apply apart_child.
        + apply Hfree. by left.
        + by apply tree_within_child. }
    assert (∀ q, src `suffix_of` q → ¬ (c :: dst) `suffix_of` q) as Hsrc.
    { intros q Hq H. apply (apart_below src dst q); [done..|].
      by apply suffix_cons_l in H. }
    destruct (IH errors fs1) as (fs' & Hrun' & Hcopied' & Hout').
    + done.
    + intros c' n' Hin'. rewrite Hout; [apply Hin; by right|].
      apply Hsrc. by apply suffix_cons_r.
    + rewrite Hout; [done|apply not_below_self].
    + intros c' Hc' q Hq. rewrite Hout; [apply (Hfree c'); [by right|done]|].
      intros H. by rewrite (siblings_below _ _ _ _ H Hq) in Hc.
    + apply (tree_within_ext _ fs); [|done]. intros q Hq. by apply Hout, Hsrc.
    + exists fs'. split; [|split].
      * cbn [copy_entries]. by rewrite Hrun.
      * intros c' r [->|Hc']%elem_of_cons.
        -- rewrite Hout', Hcopied; [done|]. intros c'' Hc'' H.
           assert ((c :: dst) `suffix_of` r ++ c :: dst) as H'
             by by apply suffix_app_r.
           by rewrite (siblings_below _ _ _ _ H H') in Hc''.
        -- rewrite Hcopied' by done. apply Hout, Hsrc.
           apply suffix_app_r. by apply suffix_cons_r.
      * intros q Hq. rewrite Hout', Hout; [done|..].
        -- apply Hq. by left.
        -- intros c' Hc'. apply Hq. by right.
Qed.

(** [shutil.copytree] copies the whole tree when the nesting stays under the
    limit and the target is not inside the source. *)
Lemma shutil_copytree_copies limit : copies_tree limit (shutil_copytree limit).
Proof.
  induction limit as [|deeper IH];
    intros src dst fs Hsrc Hapart Hdst Hparent Hfree Htree.
  { destruct Htree as [Hd _]. specialize (Hd []). simpl in Hd.
    rewrite Hsrc in Hd. specialize (Hd ltac:(eauto)). lia. }
  assert (src ≠ []) as Hne.
  { intros ->. destruct Hapart as [H _]. apply H, suffix_nil. }
  cbn [shutil_copytree]. rewrite stat_lookup, Hsrc by done.
  rewrite os_makedirs_fresh;
    [|rewrite stat_lookup by done; by apply Hfree|done].
  destruct (copy_entries_copies deeper (shutil_copytree deeper) src dst IH Hapart
              (entries fs src) [] (<[dst:=Dir]> fs))
    as (fs' & Hrun & Hcopied & Hout).
  - apply NoDup_entries_names.
  - intros c n Hin%elem_of_entries. rewrite lookup_insert_ne; [done|].
    intros ->. destruct Hapart as [H _]. apply H. by apply suffix_cons_r.
  - by rewrite lookup_insert_eq.
  - intros c _ q Hq. rewrite lookup_insert_ne.
    + apply Hfree. by apply suffix_cons_l in Hq.
    + intros <-. by apply not_below_self in Hq.
  - apply (tree_within_ext _ fs); [|done]. intros q Hq.
    apply lookup_insert_ne. intros <-. by destruct Hapart as [H _].
  - rewrite Hrun. exists fs'. split; [done|]. split.
    + intros r. destruct r as [|c r _] using rev_ind.
      * simpl. rewrite Hout, lookup_insert_eq; [done|].
        intros c _. apply not_below_self.
      * rewrite <-!app_assoc. simpl.
        destruct (decide (c ∈ (entries fs src).*1)) as [Hc|Hc].
        -- rewrite Hcopied by done. apply lookup_insert_ne.
           intros ->. destruct Hapart as [H _]. apply H.
           apply suffix_app_r. by apply suffix_cons_r.
        -- rewrite Hout.
           ++ rewrite lookup_insert_ne.
              ** rewrite Hfree by (apply suffix_app_r; by apply suffix_cons_r).
                 symmetry. rewrite elem_of_entries_names in Hc.
                 destruct r as [|c' r].
                 --- simpl. by apply eq_None_not_Some.
                 --- apply (tree_within_free deeper fs (c :: src) (c' :: r));
                       [by apply tree_within_child| |done].
                     intros E. apply Hc. by rewrite E.
              ** intros E. apply (f_equal length) in E.
                 rewrite length_app in E. simpl in E. lia.
           ++ intros c' Hc' H.
              assert ((c :: dst) `suffix_of` r ++ c :: dst) as H'
                by by apply suffix_app_r.
              by rewrite (siblings_below _ _ _ _ H H') in Hc'.
    + intros q Hq. rewrite Hout.
      * apply lookup_insert_ne. by intros <-.
      * intros c _. by apply not_below_child.
Qed.
End copying.

(** The import of a directory, when the recursive copy is complete. *)
Lemma import_of_a_folder limit model_path fs source :
  wf fs → Path_is_dir fs model_path = true →
  stat fs source = Some Dir → plain_name (name source) = true →
  ¬ source `suffix_of` model_path →
  (∀ r, is_Some (fs !! (r ++ source)) → length r < limit) →
  ∃ dest_name fs',
    first_free_name fs model_path (name source) dest_name
    ∧ handle_dropped_item limit model_path (one source) fs = (fs', [])
    ∧ (∀ r, fs' !! (r ++ dest_name :: model_path) = fs !! (r ++ source))
    ∧ (∀ q, ¬ (dest_name :: model_path) `suffix_of` q → fs' !! q = fs !! q).
Proof.
  intros Hwf Hroot Hsrc Hname Hout Hdepth.
  assert (source ≠ []) as Hne.
  { intros ->. apply Hout, suffix_nil. }
  destruct (free_dest_first_free model_path fs _ Hname)
    as (dest_name & Hdest & Hff).
  pose proof Hff as [Hfree _].
  rewrite stat_lookup in Hsrc by done.
  destruct (shutil_copytree_copies limit source (dest_name :: model_path) fs)
    as (fs' & Hrun & Hcopied & Hrest); [done| |done|done| | |].
  - split.
    + intros [E|H]%suffix_cons_inv'; [|done]. rewrite E in Hsrc. congruence.
    + intros H. rewrite (wf_free_below fs (dest_name :: model_path) source) in Hsrc;
        done.
  - intros q Hq. by apply (wf_free_below fs (dest_name :: model_path)).
  - by apply wf_tree_within.
  - exists dest_name, fs'. split; [done|]. split; [|done].
    cbn [handle_dropped_item]. unfold handle_dropped_path.
    assert (Path_exists fs source = true) as ->.
    { apply Path_exists_true. rewrite stat_lookup by done. by rewrite Hsrc. }
    assert (Path_is_file fs source = false) as ->.
    { unfold Path_is_file. rewrite stat_lookup by done. by rewrite Hsrc. }
    rewrite Hdest. cbn [negb andb]. by rewrite Hrun.
Qed.

Section same_children.
Context (fs fs' : FS) (folder folder' : path).
Context (Hsame : ∀ c, fs' !! (c :: folder') = fs !! (c :: folder)).

Lemma status_spec_same st :
  status_spec fs' folder' st ↔ status_spec fs folder st.
Proof.
  assert (has_child fs' folder' ↔ has_child fs folder) as Hchild.
  { unfold has_child. split; intros [c Hc]; exists c.
    - by rewrite <-Hsame.
    - by rewrite Hsame. }
  assert (∀ ext, has_file_with ext fs' folder' ↔ has_file_with ext fs folder)
    as Hwith.
  { intros ext. unfold has_file_with.
    split; intros (c & data & mtime & Hc & Hext); exists c, data, mtime.
    - by rewrite <-Hsame.
    - by rewrite Hsame. }
  destruct st; simpl; rewrite Hchild, ?Hwith; done.
Qed.
End same_children.

Lemma pack_fs_wf : wf pack_fs.
Proof. apply wf_by_computation. by vm_compute. Qed.

Lemma pack_fs_depth r : is_Some (pack_fs !! (r ++ pack_folder)) → length r < 3.
Proof.
  assert (map_Forall (λ q _, length q < 5) pack_fs) as Hall.
  { apply (bool_decide_eq_true_1 (map_Forall (λ q _, length q < 5) pack_fs)).
    by vm_compute. }
  intros [n Hn]. apply Hall in Hn. rewrite length_app in Hn.
  change (length pack_folder) with 2 in Hn. lia.
Qed.

Lemma pack_folder_outside : ¬ pack_folder `suffix_of` demo_root.
Proof. intros H%suffix_length. vm_compute in H. lia. Qed.

(** X11.  A dropped folder is copied whole.  When the dropped path is a
    directory with an ordinary name that is neither the root nor an ancestor
    of it, and its nesting stays under the recursion limit, the import shows
    no message; under the destination, which is the folder's name or that
    name with the first free suffix, every entry of the folder is found
    with its kind, data and metadata, and nothing else; every entry outside
    the destination is as it was. *)
Theorem drop_of_a_folder_copies_it_whole limit model_path fs source :
  wf fs → Path_is_dir fs model_path = true →
  stat fs source = Some Dir → plain_name (name source) = true →
  ¬ source `suffix_of` model_path →
  (∀ r, is_Some (fs !! (r ++ source)) → length r < limit) →
  ∃ dest_name fs',
    first_free_name fs model_path (name source) dest_name
    ∧ handle_dropped_item limit model_path (one source) fs = (fs', [])
    ∧ (∀ r, fs' !! (r ++ dest_name :: model_path) = fs !! (r ++ source))
    ∧ (∀ q, ¬ (dest_name :: model_path) `suffix_of` q → fs' !! q = fs !! q).
Proof. apply import_of_a_folder. Qed.

Lemma drop_of_a_folder_copies_it_whole_witness :
  ∃ dest_name fs',
    first_free_name pack_fs demo_root "voiceC" dest_name
    ∧ handle_dropped_item 3 demo_root (one pack_folder) pack_fs = (fs', [])
    ∧ (∀ r, fs' !! (r ++ dest_name :: demo_root) = pack_fs !! (r ++ pack_folder))
    ∧ (∀ q, ¬ (dest_name :: demo_root) `suffix_of` q → fs' !! q = pack_fs !! q).
Proof.
  apply (drop_of_a_folder_copies_it_whole 3 demo_root pack_fs pack_folder).
  - exact pack_fs_wf.
  - vm_compute; reflexivity.
  - vm_compute; reflexivity.
  - vm_compute; reflexivity.
  - exact pack_folder_outside.
  - exact pack_fs_depth.
Defined.

(** X12.  Dropping a folder on the label.  Under the conditions of the
    complete copy, [dropEvent] shows no message and reloads the list, which
    has one more folder; the row of the new folder shows the status that the
    dropped folder has, and every other row is as it was. *)
Theorem drop_of_a_folder_shows_its_status limit model_path source fs rows :
  wf fs → Path_is_dir fs model_path = true →
  stat fs source = Some Dir → plain_name (name source) = true →
  ¬ source `suffix_of` model_path →
  (∀ r, is_Some (fs !! (r ++ source)) → length r < limit) →
  ∃ dest_name fs',
    first_free_name fs model_path (name source) dest_name
    ∧ dropEvent limit model_path source [] (Window fs rows)
      = (Window fs' (rows_of fs' model_path), [], Ok ())
    ∧ listed_folders fs' model_path ≡ₚ dest_name :: listed_folders fs model_path
    ∧ (∀ st, status_spec fs' (dest_name :: model_path) st ↔ status_spec fs source st)
    ∧ ∀ c, c ≠ dest_name →
        model_row fs' (c :: model_path) = model_row fs (c :: model_path).
Proof.
  intros Hwf Hroot Hsrc Hname Hout Hdepth.
  destruct (import_of_a_folder limit model_path fs source)
    as (dest_name & fs' & Hff & Himport & Hcopied & Hsame); [done..|].
  exists dest_name, fs'. split; [done|]. destruct Hff as [Hfree _].
  assert (source ≠ []) as Hne.
  { intros ->. apply Hout, suffix_nil. }
  split; [|split; [|split]].
  - unfold dropEvent. cbn [disk length Nat.ltb Nat.leb]. rewrite Himport.
    by rewrite (after_drop_load model_path fs fs' dest_name Hroot Hsame).
  - apply after_drop_of_folder; [done..|].
    specialize (Hcopied []). simpl in Hcopied. rewrite Hcopied.
    by rewrite <-stat_lookup.
  - intros st. apply status_spec_same. intros c. apply (Hcopied [c]).
  - intros c Hc. by apply (after_drop_other_rows model_path fs fs' dest_name).
Qed.

Lemma drop_of_a_folder_shows_its_status_witness :
  ∃ dest_name fs',
    first_free_name pack_fs demo_root "voiceC" dest_name
    ∧ dropEvent 3 demo_root pack_folder [] (Window pack_fs [])
      = (Window fs' (rows_of fs' demo_root), [], Ok ())
    ∧ listed_folders fs' demo_root ≡ₚ dest_name :: listed_folders pack_fs demo_root
    ∧ (∀ st, status_spec fs' (dest_name :: demo_root) st
             ↔ status_spec pack_fs pack_folder st)
    ∧ ∀ c, c ≠ dest_name →
        model_row fs' (c :: demo_root) = model_row pack_fs (c :: demo_root).
Proof.
  apply (drop_of_a_folder_shows_its_status 3 demo_root pack_folder pack_fs []).
  - exact pack_fs_wf.
  - vm_compute; reflexivity.
  - vm_compute; reflexivity.
  - vm_compute; reflexivity.
  - exact pack_folder_outside.
  - exact pack_fs_depth.
Defined.

(** ** The filesystem stays well formed *)

Section well_formed.
Implicit Types (fs : FS) (p q src dst dir : path) (c : string) (n : node).

Lemma Path_is_dir_insert fs p q n :
  Path_is_dir fs p = true → (fs !! q = Some Dir → n = Dir) →
  Path_is_dir (<[q:=n]> fs) p = true.
Proof.
  intros Hp Hq. destruct p as [|c dir]; [done|].
  apply Path_is_dir_true. apply Path_is_dir_true in Hp. rewrite stat_cons in *.
  destruct (decide (q = c :: dir)) as [->|Hne].
  - rewrite lookup_insert_eq. by rewrite (Hq Hp).
  - by rewrite lookup_insert_ne.
Qed.

Lemma Path_is_dir_weaken fs fs' p :
  fs ⊆ fs' → Path_is_dir fs p = true → Path_is_dir fs' p = true.
Proof.
  intros Hsub Hp. destruct p as [|c dir]; [done|].
  apply Path_is_dir_true. apply Path_is_dir_true in Hp. rewrite stat_cons in *.
  by eapply lookup_weaken.
Qed.

(** A new entry with an ordinary name in a directory, or new data for a
    regular file, keeps the filesystem well formed. *)
Lemma wf_insert fs c dir n :
  wf fs → plain_name c = true → Path_is_dir fs dir = true →
  (fs !! (c :: dir) = Some Dir → n = Dir) →
  wf (<[c :: dir:=n]> fs).
Proof.
  intros Hwf Hc Hdir Hkind q n' Hq. apply Is_true_true.
  destruct (decide (q = c :: dir)) as [->|Hne].
  - simpl. rewrite Hc. simpl. by apply Path_is_dir_insert.
  - rewrite lookup_insert_ne in Hq by done.
    destruct q as [|c' d]; [by apply wf_not_root in Hq|].
    apply wf_lookup in Hq as [Hc' Hd]; [|done]. simpl. rewrite Hc'. simpl.
    apply Path_is_dir_insert; [by apply Path_is_dir_true|done].
Qed.

Lemma wf_file_name fs source data mtime :
  wf fs → stat fs source = Some (File data mtime) →
  plain_name (name source) = true.
Proof.
  intros Hwf. destruct source as [|c dir]; [done|]. rewrite stat_cons.
  intros H. by apply wf_lookup in H as [? _].
Qed.

Lemma shutil_copy2_wf fs src dst :
  wf fs →
  (∀ data mtime c d, stat fs src = Some (File data mtime) → dst = c :: d →
                     plain_name c = true) →
  wf (shutil_copy2 src dst fs).1.
Proof.
  intros Hwf Hhead. unfold shutil_copy2.
  set (dst' := if Path_is_dir fs dst then name src :: dst else dst).
  destruct (bool_decide (src = dst') && Path_exists fs src); [done|].
  destruct (stat fs src) as [[data mtime|]|] eqn:Hsrc; [|done..].
  assert (∀ c d, dst' = c :: d → plain_name c = true) as Hhead'.
  { unfold dst'. destruct (Path_is_dir fs dst).
    - intros c d [= <- _]. by apply (wf_file_name fs src data mtime).
    - intros c d. by apply (Hhead data mtime). }
  clearbody dst'. destruct dst' as [|c d].
  { by destruct (Path_is_dir fs (parent [])). }
  rewrite stat_cons. cbn [parent tail].
  destruct (fs !! (c :: d)) as [[data' mtime'|]|] eqn:Hdst; [|done|].
  - apply wf_lookup in Hdst as Hd; [|done]. destruct Hd as [Hc Hd].
    apply wf_insert; [done..|by apply Path_is_dir_true|congruence].
  - destruct (Path_is_dir fs d) eqn:Hd; [|done].
    apply wf_insert; [done|by apply (Hhead' c d)|done|congruence].
Qed.

Lemma copy_entries_wf (copytree : path → path → io unit) src c0 dir es :
  (∀ c fs, wf fs → plain_name c = true → Path_is_dir fs (c0 :: dir) = true →
           wf (copytree (c :: src) (c :: c0 :: dir) fs).1) →
  (∀ c fs, Path_is_dir fs (c0 :: dir) = true →
           writes_below (c :: c0 :: dir) (copytree (c :: src) (c :: c0 :: dir)) fs) →
  Forall (λ e, plain_name e.1 = true) es →
  ∀ errors fs, wf fs → Path_is_dir fs (c0 :: dir) = true →
    wf (copy_entries copytree src (c0 :: dir) es errors fs).1.
Proof.
  intros Hrec Hbelow Hes.
  induction Hes as [|[c n] es Hc _ IH]; intros errors fs Hwf Hdir; simpl;
    [done|].
  set (copied := match n with
                 | Dir => copytree (c :: src) (c :: c0 :: dir) fs
                 | File _ _ => shutil_copy2 (c :: src) (c :: c0 :: dir) fs
                 end).
  assert (wf copied.1) as Hwf1.
  { unfold copied. destruct n; [|by apply Hrec].
    apply shutil_copy2_wf; [done|]. by intros ? ? ? ? _ [= <- _]. }
  assert (Path_is_dir copied.1 (c0 :: dir) = true) as Hdir1.
  { rewrite <-Hdir. apply Path_is_dir_lookup. unfold copied. destruct n.
    - apply shutil_copy2_writes_below, not_below_self.
    - apply Hbelow; [done|apply not_below_self]. }
  destruct copied as [fs1 [u|e]]; simpl in *; [by apply IH|].
  destruct e; simpl; first [by apply IH|done].
Qed.

(** [shutil.copytree] keeps the filesystem well formed, also when it fails
    half way. *)
Lemma shutil_copytree_wf limit :
  ∀ src c dir fs, wf fs → plain_name c = true → Path_is_dir fs dir = true →
    wf (shutil_copytree limit src (c :: dir) fs).1.
Proof.
  induction limit as [|deeper IH]; intros src c dir fs Hwf Hc Hdir;
    cbn [shutil_copytree]; [done|].
  destruct (stat fs src) as [[]|] eqn:Hsrc; [done| |done].
  rewrite os_makedirs_in_dir by done. unfold os_mkdir.
  destruct (stat fs (c :: dir)) eqn:Ec; [done|].
  cbn [parent tail]. rewrite Hdir.
  pose proof (copy_entries_wf (shutil_copytree deeper) src c dir (entries fs src)
                (λ c' fs', IH (c' :: src) c' (c :: dir) fs')
                (λ c' fs', shutil_copytree_writes_below deeper (c' :: src) c'
                             (c :: dir) fs')) as H.
  specialize (H ltac:(apply Forall_forall; intros [c' n'] Hin%elem_of_entries;
                      by apply wf_lookup in Hin as [? _]) []
                (<[c :: dir:=Dir]> fs)).
  destruct (copy_entries _ _ _ _ _ _) as [fs2 [[|? ?]|e]]; cbn [fst] in *;
    apply H; try (apply wf_insert; [done..|congruence]);
    unfold Path_is_dir; cbn [stat]; by rewrite lookup_insert_eq.
Qed.

Lemma numbered_plain s k :
  no_slash s = true → plain_name (numbered s k) = true.
Proof.
  intros Hs. apply plain_name_spec. split; [by rewrite no_slash_numbered|].
  pose proof (kept_numbered s k) as Hk. unfold kept in Hk.
  apply andb_true_iff in Hk as [H1%negb_true_iff%String.eqb_neq
                                  H2%negb_true_iff%String.eqb_neq].
  split; [done|]. split; [done|]. unfold numbered.
  destruct s as [|a [|b [|c s]]]; simpl; intros E; by simplify_eq.
Qed.

(** The destination the collision loop settles on: a child of the root with
    an ordinary name. *)
Lemma free_dest_shape fs model_path s :
  Path_is_dir fs model_path = true → no_slash s = true → s ≠ ".." →
  ∃ c, free_dest fs model_path s = c :: model_path ∧ plain_name c = true.
Proof.
  intros Hroot Hs Hdd.
  destruct (free_dest_spec fs model_path s) as (Hfree & Hkeep & Hnum).
  destruct (Path_exists fs (joinpath model_path s)) eqn:E.
  - destruct (Hnum eq_refl) as (k & _ & Hdest & _).
    rewrite joinpath_numbered in Hdest by done.
    exists (numbered s k). split; [done|]. by apply numbered_plain.
  - assert (Path_exists fs model_path = true) as Hex.
    { apply Path_exists_true. apply Path_is_dir_true in Hroot.
      by rewrite Hroot. }
    destruct (decide (s = "")) as [->|H1].
    { assert (joinpath model_path "" = model_path) as Ej by done.
      rewrite Ej in E. congruence. }
    destruct (decide (s = ".")) as [->|H2].
    { assert (joinpath model_path "." = model_path) as Ej by done.
      rewrite Ej in E. congruence. }
    exists s. split; [|by apply plain_name_spec].
    rewrite (Hkeep eq_refl). by apply joinpath_plain.
Qed.

Lemma joinpath_head_of_file fs source dest data mtime c d :
  wf fs → stat fs source = Some (File data mtime) →
  joinpath dest (name source) = c :: d → plain_name c = true.
Proof.
  intros Hwf Hsrc.
  pose proof (wf_file_name fs source data mtime Hwf Hsrc) as Hname.
  rewrite joinpath_plain_name by done. by intros [= <- _].
Qed.

Lemma importable_spec p :
  importable p = true ↔ path_ok p = true ∧ stem (name p) ≠ "..".
Proof.
  unfold importable. by rewrite andb_true_iff, negb_true_iff, String.eqb_neq.
Qed.

Lemma handle_dropped_path_wf limit model_path source fs :
  wf fs → Path_is_dir fs model_path = true → stem (name source) ≠ ".." →
  wf (handle_dropped_path limit model_path source fs).1.
Proof.
  intros Hwf Hroot Hstem. unfold handle_dropped_path.
  destruct (Path_exists fs source) eqn:Hex; [|done]. cbn [negb].
  assert (no_slash (name source) = true ∧ name source ≠ "..") as [Hns Hndd].
  { destruct source as [|c dir]; [done|].
    apply Path_exists_true in Hex as [n Hn]. rewrite stat_cons in Hn.
    apply wf_lookup in Hn as [Hc _]; [|done].
    apply plain_name_spec in Hc. simpl. tauto. }
  destruct (Path_is_file fs source) eqn:Hfile; cbn [andb].
  - destruct (free_dest_shape fs model_path (stem (name source)))
      as (c & Hdest & Hc); [done|by apply no_slash_stem|done|].
    pose proof (free_dest_free fs model_path (stem (name source))) as Hfree.
    rewrite Hdest in *.
    destruct (String.eqb (suffix (name source)) ".pth");
      rewrite reported_fst.
    + unfold bind. rewrite Path_mkdir_fresh by done.
      assert (wf (<[c :: model_path:=Dir]> fs)) as Hwf1.
      { apply wf_insert; [done..|]. rewrite stat_cons in Hfree. congruence. }
      apply shutil_copy2_wf; [done|]. intros data mtime c' d Hsrc E.
      exact (joinpath_head_of_file _ _ _ _ _ _ _ Hwf1 Hsrc E).
    + apply shutil_copy2_wf; [done|]. by intros ? ? ? ? _ [= <- _].
  - destruct (free_dest_shape fs model_path (name source))
      as (c & Hdest & Hc); [done..|].
    rewrite Hdest, reported_fst. by apply shutil_copytree_wf.
Qed.

Lemma handle_each_wf limit model_path files :
  forallb importable files = true →
  ∀ fs, wf fs → Path_is_dir fs model_path = true →
    wf (handle_each limit model_path files fs).1
    ∧ Path_is_dir (handle_each limit model_path files fs).1 model_path = true.
Proof.
  induction files as [|f files IH]; intros Hok fs Hwf Hroot; simpl; [done|].
  apply andb_true_iff in Hok as [[Hf Hstem]%importable_spec Hfiles].
  pose proof (handle_dropped_path_wf limit model_path f fs Hwf Hroot Hstem)
    as Hwf1.
  pose proof (handle_dropped_path_preserves fs Hwf limit model_path f fs Hf
                (reflexivity _)) as Hsub.
  destruct (handle_dropped_path limit model_path f fs) as [fs1 shown1].
  simpl in *. apply (Path_is_dir_weaken _ _ model_path) in Hsub; [|done].
  specialize (IH Hfiles fs1 Hwf1 Hsub).
  by destruct (handle_each limit model_path files fs1) as [fs2 shown2].
Qed.

Lemma filter_head_importable (keep : path → bool) files f rest :
  forallb importable files = true → List.filter keep files = f :: rest →
  importable f = true.
Proof.
  intros Hok E. rewrite forallb_forall in Hok. apply Hok.
  apply (List.filter_In keep). rewrite E. by left.
Qed.

Lemma forallb_importable_ok files :
  forallb importable files = true → forallb path_ok files = true.
Proof.
  rewrite !forallb_forall. intros H p Hp.
  by apply H, importable_spec in Hp as [? _].
Qed.

(** Every import keeps the filesystem well formed and the root in place. *)
Lemma handle_dropped_item_wf limit model_path d fs :
  wf fs → Path_is_dir fs model_path = true →
  match d with
  | one p => importable p
  | many paths => forallb importable paths
  end = true →
  wf (handle_dropped_item limit model_path d fs).1
  ∧ Path_is_dir (handle_dropped_item limit model_path d fs).1 model_path = true.
Proof.
  intros Hwf Hroot Hok. split.
  - destruct d as [source|files]; cbn [handle_dropped_item].
    + apply importable_spec in Hok as [_ Hstem].
      by apply handle_dropped_path_wf.
    + destruct (_ && _); [|by apply handle_each_wf].
      destruct (List.filter (has_ext ".pth") files) as [|pth_file ?] eqn:Ep;
        [done|].
      destruct (List.filter (has_ext ".index") files) as [|index_file ?] eqn:Ei;
        [done|].
      apply filter_head_importable, importable_spec in Ep as [Hp Hstem];
        [|done].
      destruct (free_dest_shape fs model_path (stem (name pth_file)))
        as (c & Hdest & Hc);
        [done|by apply no_slash_stem, path_ok_name|done|].
      pose proof (free_dest_free fs model_path (stem (name pth_file))) as Hfree.
      rewrite Hdest in *. rewrite reported_fst.
      unfold bind. rewrite Path_mkdir_fresh by done.
      assert (wf (<[c :: model_path:=Dir]> fs)) as Hwf1.
      { apply wf_insert; [done..|]. rewrite stat_cons in Hfree. congruence. }
      pose proof (shutil_copy2_wf (<[c :: model_path:=Dir]> fs) pth_file
                    (joinpath (c :: model_path) (name pth_file)) Hwf1) as Hwf2.
      destruct (shutil_copy2 pth_file _ (<[c :: model_path:=Dir]> fs))
        as [fs2 [u|e]]; cbn [fst] in *.
      * assert (wf fs2) as Hwf3.
        { apply Hwf2. intros data mtime c' d Hsrc E.
          exact (joinpath_head_of_file _ _ _ _ _ _ _ Hwf1 Hsrc E). }
        apply shutil_copy2_wf; [done|]. intros data mtime c' d Hsrc E.
        exact (joinpath_head_of_file _ _ _ _ _ _ _ Hwf3 Hsrc E).
      * apply Hwf2. intros data mtime c' d Hsrc E.
        exact (joinpath_head_of_file _ _ _ _ _ _ _ Hwf1 Hsrc E).
  - apply (Path_is_dir_weaken fs); [|done].
    apply handle_dropped_item_preserves; [done| |done].
    destruct d as [source|files]; simpl.
    + by apply importable_spec in Hok as [? _].
    + by apply forallb_importable_ok.
Qed.
End well_formed.

(** X13.  A drop keeps the filesystem well formed.  Whatever is dropped on
    a root that is a directory, one path or several, existing or not, and
    whether the copies succeed or fail half way, every entry afterwards has
    an ordinary name and sits in a directory; the root is still a directory
    and the list is the listing of the new state. *)
Theorem drop_keeps_the_filesystem_well_formed
    limit model_path first others w :
  wf (disk w) → Path_is_dir (disk w) model_path = true →
  forallb importable (first :: others) = true →
  ∃ fs' shown,
    dropEvent limit model_path first others w
    = (Window fs' (rows_of fs' model_path), shown, Ok ())
    ∧ wf fs' ∧ Path_is_dir fs' model_path = true.
Proof.
  intros Hwf Hroot Hok. unfold dropEvent.
  set (d := if 1 <? length (first :: others)
            then many (first :: others) else one first).
  assert ((if 1 <? length (first :: others)
           then handle_dropped_item limit model_path (many (first :: others)) (disk w)
           else handle_dropped_item limit model_path (one first) (disk w))
          = handle_dropped_item limit model_path d (disk w)) as ->.
  { unfold d. by destruct (1 <? length (first :: others)). }
  destruct (handle_dropped_item_wf limit model_path d (disk w)) as [Hwf' Hroot'];
    [done..| |].
  { unfold d. destruct (1 <? length (first :: others)); [done|].
    simpl in Hok. by apply andb_true_iff in Hok as [? _]. }
  destruct (handle_dropped_item limit model_path d (disk w)) as [fs' shown].
  simpl in *. rewrite load_models_in_dir by done. by exists fs', shown.
Qed.

Lemma drop_keeps_the_filesystem_well_formed_witness :
  ∃ fs' shown,
    dropEvent 1 demo_root pack_folder [voiceA_pth; extra_txt] (Window pack_fs [])
    = (Window fs' (rows_of fs' demo_root), shown, Ok ())
    ∧ wf fs' ∧ Path_is_dir fs' demo_root = true.
Proof.
  apply (drop_keeps_the_filesystem_well_formed 1 demo_root pack_folder
           [voiceA_pth; extra_txt] (Window pack_fs [])).
  - exact pack_fs_wf.
  - vm_compute; reflexivity.
  - vm_compute; reflexivity.
Defined.

Section renamed_well_formed.
Implicit Types (fs : FS) (src dst dir q : path) (c : string).

Lemma Path_rename_Ok_inv src dst fs fs' u :
  Path_rename src dst fs = (fs', Ok u) →
  is_Some (stat fs src) ∧ stat fs dst = None
  ∧ Path_is_dir fs (parent dst) = true ∧ ¬ src `suffix_of` dst.
Proof.
  unfold Path_rename. destruct (stat fs src) as [n|]; [|done].
  destruct (Path_exists fs dst) eqn:Hdst; [done|].
  destruct (Path_is_dir fs (parent dst)); [|done]. cbn [negb].
  destruct (bool_decide (src `suffix_of` dst)) eqn:Hin; [done|]. intros _.
  apply Path_exists_false in Hdst. apply bool_decide_eq_false in Hin. eauto.
Qed.

Lemma Path_rename_Raise src dst fs fs' e :
  Path_rename src dst fs = (fs', Raise e) → fs' = fs.
Proof.
  unfold Path_rename. destruct (stat fs src) as [n|]; [|congruence].
  destruct (Path_exists fs dst); [congruence|].
  destruct (negb (Path_is_dir fs (parent dst))); [congruence|].
  destruct (bool_decide (src `suffix_of` dst)); [congruence|done].
Qed.

(** A rename that succeeds keeps the filesystem well formed. *)
Lemma Path_rename_wf fs fs' src c dir :
  wf fs → plain_name c = true →
  Path_rename src (c :: dir) fs = (fs', Ok ()) →
  wf fs' ∧ Path_is_dir fs' dir = true.
Proof.
  intros Hwf Hc Hrun.
  destruct (Path_rename_Ok_inv _ _ _ _ _ Hrun) as (Hsrc & Hdst & Hparent & Hnot).
  assert (src ≠ []) as Hne.
  { intros ->. apply Hnot, suffix_nil. }
  destruct (Path_rename_moves fs src (c :: dir))
    as (fs'' & Hrun' & Hin & Hgone & Hout); [done| |done..|].
  { intros q Hq. by apply (wf_free_below fs (c :: dir)). }
  rewrite Hrun in Hrun'. injection Hrun' as <-.
  assert (∀ d, Path_is_dir fs d = true → ¬ src `suffix_of` d →
               ¬ (c :: dir) `suffix_of` d → Path_is_dir fs' d = true) as Hdir'.
  { intros d Hd N1 N2. rewrite <-Hd. apply Path_is_dir_lookup. by apply Hout. }
  assert (Path_is_dir fs' dir = true) as Hroot'.
  { apply Hdir'; [done| |apply not_below_self].
    intros H. apply Hnot. by apply suffix_cons_r. }
  split; [|done]. intros q n Hq. apply Is_true_true.
  destruct (decide ((c :: dir) `suffix_of` q)) as [[r ->]|N].
  - rewrite Hin in Hq. destruct r as [|c' r]; simpl in *.
    + by rewrite Hc.
    + apply wf_lookup in Hq as [Hc' Hd]; [|done]. rewrite Hc'. simpl.
      apply Path_is_dir_true.
      rewrite stat_lookup in Hd by (by destruct r, src).
      rewrite stat_lookup by (by destruct r). by rewrite Hin.
  - destruct (decide (src `suffix_of` q)) as [Hs|Ns].
    { rewrite Hgone in Hq; done. }
    rewrite Hout in Hq by done.
    destruct q as [|c' d]; [by apply wf_not_root in Hq|].
    apply wf_lookup in Hq as [Hc' Hd]; [|done]. simpl. rewrite Hc'. simpl.
    apply Hdir'; [by apply Path_is_dir_true| |].
    + intros H. apply Ns. by apply suffix_cons_r.
    + intros H. apply N. by apply suffix_cons_r.
Qed.
End renamed_well_formed.

(** X14.  [rename_model] keeps the filesystem well formed: for every
    selection, marked rows and rows of another state included, and every
    answer of the dialog whose new name is an ordinary name, every entry
    afterwards has an ordinary name and sits in a directory. *)
Theorem rename_model_keeps_the_filesystem_well_formed
    model_path selected new_name ok w :
  wf (disk w) → plain_name new_name = true →
  wf (disk (rename_model model_path selected new_name ok w).1).
Proof.
  intros Hwf Hnew. unfold rename_model.
  destruct selected as [current|]; [|done].
  destruct (ok && _ && _); [|done].
  rewrite (joinpath_plain_name model_path new_name) by done.
  destruct (Path_exists (disk w) (new_name :: model_path)); [done|].
  destruct (Path_rename _ _ (disk w)) as [fs1 [[]|e]] eqn:Hrun.
  - destruct (Path_rename_wf _ _ _ _ _ Hwf Hnew Hrun) as [Hwf1 Hroot1].
    by rewrite load_models_in_dir.
  - by apply Path_rename_Raise in Hrun as ->.
Qed.

Lemma rename_model_keeps_the_filesystem_well_formed_witness :
  wf (disk (rename_model demo_root (Some (Item "draft/draft.pth" None)) "loose"
              true (Window library_fs [])).1).
Proof.
  apply (rename_model_keeps_the_filesystem_well_formed demo_root
           (Some (Item "draft/draft.pth" None)) "loose" true
           (Window library_fs [])).
  - exact library_fs_wf.
  - vm_compute; reflexivity.
Defined.

(** ** Removing what a drop made *)

Section undo.
Implicit Types (fs : FS) (source q : path) (c : string).

(** A single import writes at or below one child of the root, which was
    not there before. *)
Lemma handle_dropped_path_writes_below limit model_path source fs :
  wf fs → Path_is_dir fs model_path = true → importable source = true →
  ∃ c, fs !! (c :: model_path) = None
       ∧ ∀ q, ¬ (c :: model_path) `suffix_of` q →
           (handle_dropped_path limit model_path source fs).1 !! q = fs !! q.
Proof.
  intros Hwf Hroot [Hok Hstem]%importable_spec.
  pose proof (path_ok_name _ Hok) as Hns.
  destruct (free_dest_shape fs model_path (stem (name source)))
    as (c & Hdest & Hc); [done|by apply no_slash_stem|done|].
  pose proof (free_dest_free fs model_path (stem (name source))) as Hfree.
  rewrite Hdest, stat_cons in Hfree.
  unfold handle_dropped_path.
  destruct (Path_exists fs source) eqn:Hex; [|by exists c]. cbn [negb].
  destruct (Path_is_file fs source) eqn:Hfile; cbn [andb].
  - exists c. split; [done|]. intros q Hq. rewrite Hdest.
    destruct (String.eqb (suffix (name source)) ".pth"); rewrite reported_fst.
    + unfold bind. rewrite Path_mkdir_fresh by done.
      rewrite shutil_copy2_writes_below.
      * apply lookup_insert_ne. by intros <-.
      * intros H. apply Hq. etrans; [|done]. by apply joinpath_below.
    + by apply shutil_copy2_writes_below.
  - assert (name source ≠ "..") as Hndd.
    { destruct source as [|c' dir]; [done|].
      apply Path_exists_true in Hex as [n Hn]. rewrite stat_cons in Hn.
      apply wf_lookup in Hn as [Hc' _]; [|done].
      apply plain_name_spec in Hc'. simpl. tauto. }
    destruct (free_dest_shape fs model_path (name source))
      as (c' & Hdest' & Hc'); [done..|].
    pose proof (free_dest_free fs model_path (name source)) as Hfree'.
    rewrite Hdest', stat_cons in Hfree'.
    exists c'. split; [done|]. intros q Hq. rewrite Hdest', reported_fst.
    by apply shutil_copytree_writes_below.
Qed.

(** Removing a child of the root that was not there before, and outside of
    which nothing changed, gives back the filesystem from before. *)
Lemma remove_model_restores model_path fs fs' c i rows :
  wf fs → Path_is_dir fs model_path = true →
  fs !! (c :: model_path) = None →
  (∀ q, ¬ (c :: model_path) `suffix_of` q → fs' !! q = fs !! q) →
  listed_folders fs' model_path !! i = Some c →
  remove_model model_path (Z.of_nat i) true (Window fs' rows)
  = (Window fs (rows_of fs model_path), [], Ok ()).
Proof.
  intros Hwf Hroot Hfree Hsame Hi.
  rewrite (remove_model_confirmed fs' rows model_path i c);
    [|by apply (after_drop_root model_path fs fs' c)|done].
  rewrite <-(rows_of_rmtree fs' model_path i c Hi).
  assert (filter (λ e : path * node, ¬ (c :: model_path) `suffix_of` e.1) fs' = fs)
    as ->; [|done].
  apply map_eq. intros q. rewrite rmtree_lookup.
  destruct (decide ((c :: model_path) `suffix_of` q)) as [Hq|Hq].
  - symmetry. by apply (wf_free_below fs (c :: model_path)).
  - by apply Hsame.
Qed.
End undo.

(** X15.  Removing undoes a drop.  A single dropped path, whatever it is and
    whether its copy succeeds or fails half way, changes the filesystem at
    or below one child of the root only, a child that was not there before.
    When the reloaded list shows that child, selecting its row and answering
    Yes gives back the filesystem from before the drop, entry by entry, and
    the list that belongs to it. *)
Theorem remove_model_undoes_a_drop limit model_path source fs rows :
  wf fs → Path_is_dir fs model_path = true → importable source = true →
  ∃ c fs' shown,
    dropEvent limit model_path source [] (Window fs rows)
    = (Window fs' (rows_of fs' model_path), shown, Ok ())
    ∧ fs !! (c :: model_path) = None
    ∧ (∀ q, ¬ (c :: model_path) `suffix_of` q → fs' !! q = fs !! q)
    ∧ ∀ i, listed_folders fs' model_path !! i = Some c →
        remove_model model_path (Z.of_nat i) true
          (Window fs' (rows_of fs' model_path))
        = (Window fs (rows_of fs model_path), [], Ok ()).
Proof.
  intros Hwf Hroot Hok.
  destruct (handle_dropped_path_writes_below limit model_path source fs)
    as (c & Hfree & Hsame); [done..|].
  unfold dropEvent. cbn [disk length Nat.ltb Nat.leb handle_dropped_item].
  destruct (handle_dropped_path limit model_path source fs) as [fs' shown].
  cbn [fst] in Hsame. exists c, fs', shown.
  rewrite (after_drop_load model_path fs fs' c Hroot Hsame).
  split; [done|]. split; [done|]. split; [done|]. intros i Hi.
  by apply (remove_model_restores model_path fs fs' c).
Qed.

Lemma remove_model_undoes_a_drop_witness :
  ∃ c fs' shown,
    dropEvent 1 demo_root pack_folder [] (Window pack_fs [])
    = (Window fs' (rows_of fs' demo_root), shown, Ok ())
    ∧ pack_fs !! (c :: demo_root) = None
    ∧ (∀ q, ¬ (c :: demo_root) `suffix_of` q → fs' !! q = pack_fs !! q)
    ∧ ∀ i, listed_folders fs' demo_root !! i = Some c →
        remove_model demo_root (Z.of_nat i) true
          (Window fs' (rows_of fs' demo_root))
        = (Window pack_fs (rows_of pack_fs demo_root), [], Ok ()).
Proof.
  apply (remove_model_undoes_a_drop 1 demo_root pack_folder pack_fs []).
  - exact pack_fs_wf.
  - vm_compute; reflexivity.
  - vm_compute; reflexivity.
Defined.

(** ** A pair whose weights file is not there *)

Lemma shutil_copy2_not_a_file fs src dst :
  (∀ data mtime, stat fs src ≠ Some (File data mtime)) →
  ∃ e, shutil_copy2 src dst fs = (fs, Raise e).
Proof.
  intros Hsrc. unfold shutil_copy2.
  destruct (bool_decide _ && Path_exists fs src); [by eexists|].
  destruct (stat fs src) as [[data mtime|]|]; [|by eexists..].
  by destruct (Hsrc data mtime).
Qed.

(** X16.  The paired import does not test that its files exist, the import
    of a single path does.  Dropping a weights file that does not exist
    together with an index file makes the folder, fails on the first copy
    and shows the copy error; the folder stays behind, and the reloaded list
    shows it as empty.  Dropping the same path alone shows the warning that
    the path does not exist and leaves the filesystem as it is. *)
Theorem drop_of_a_pair_without_its_weights_file
    limit model_path first others fs rows pth_file index_file :
  wf fs →
  Path_is_dir fs model_path = true →
  List.filter (has_ext ".pth") (first :: others) = [pth_file] →
  List.filter (has_ext ".index") (first :: others) = [index_file] →
  stat fs pth_file = None →
  plain_name (stem (name pth_file)) = true →
  (∃ dest_name e,
     first_free_name fs model_path (stem (name pth_file)) dest_name
     ∧ dropEvent limit model_path first others (Window fs rows)
       = (Window (<[dest_name :: model_path:=Dir]> fs)
            (rows_of (<[dest_name :: model_path:=Dir]> fs) model_path),
          [critical "Copy Error" "Failed to copy model files:" (about_exn e)],
          Ok ())
     ∧ model_row (<[dest_name :: model_path:=Dir]> fs) (dest_name :: model_path)
       = Item (dest_name +:+ EMPTY_MARK) (Some "Folder is empty."))
  ∧ dropEvent limit model_path pth_file [] (Window fs rows)
    = (Window fs (rows_of fs model_path),
       [warning "Error" "Path does not exist:" (about_path pth_file)], Ok ()).
Proof.
  intros Hwf Hroot Ep Ei Hmissing Hstem. split.
  - destruct (free_dest_first_free model_path fs (stem (name pth_file)) Hstem)
      as (dest_name & Hdest & Hff).
    pose proof Hff as [Hfree _].
    set (made := <[dest_name :: model_path:=Dir]> fs).
    destruct (shutil_copy2_not_a_file made pth_file
                (joinpath (dest_name :: model_path) (name pth_file)))
      as [e Hcopy].
    { intros data mtime. destruct pth_file as [|c dir]; [done|]. unfold made.
      rewrite stat_cons in *.
      destruct (decide (dest_name :: model_path = c :: dir)) as [->|Hne].
      - by rewrite lookup_insert_eq.
      - rewrite lookup_insert_ne by done. by rewrite Hmissing. }
    exists dest_name, e. split; [done|].
    assert (pth_file ≠ index_file) as Hne.
    { assert (has_ext ".pth" pth_file = true) as H1.
      { apply (List.filter_In (has_ext ".pth") pth_file (first :: others)).
        rewrite Ep. by left. }
      assert (has_ext ".index" index_file = true) as H2.
      { apply (List.filter_In (has_ext ".index") index_file (first :: others)).
        rewrite Ei. by left. }
      unfold has_ext in *. apply String.eqb_eq in H1, H2. intros E.
      rewrite E, H2 in H1. discriminate H1. }
    assert (∀ q, ¬ (dest_name :: model_path) `suffix_of` q → made !! q = fs !! q)
      as Hsame.
    { intros q Hq. unfold made. apply lookup_insert_ne. by intros <-. }
    split.
    + unfold dropEvent.
      rewrite (two_filtered_items _ _ _ _ _ Ep Ei Hne).
      cbn [disk handle_dropped_item]. rewrite Ep, Ei, Hdest.
      cbn [length Nat.eqb andb]. unfold bind.
      rewrite Path_mkdir_fresh by done. fold made. rewrite Hcopy.
      by rewrite (after_drop_load model_path fs made dest_name Hroot Hsame).
    + apply (model_row_shows_iff made dest_name model_path empty).
      intros [c [n Hc]]. unfold made in Hc. rewrite lookup_insert_ne in Hc.
      * by rewrite (in_fresh_folder model_path fs Hwf dest_name c Hfree) in Hc.
      * intros E. apply (f_equal length) in E. simpl in E. lia.
  - unfold dropEvent. cbn [disk length Nat.ltb Nat.leb handle_dropped_item].
    unfold handle_dropped_path.
    assert (Path_exists fs pth_file = false) as -> by by apply Path_exists_false.
    cbn [negb]. by rewrite load_models_in_dir.
Qed.

Lemma drop_of_a_pair_without_its_weights_file_witness :
  (∃ dest_name e,
     first_free_name pack_fs demo_root "voiceC" dest_name
     ∧ dropEvent 3 demo_root
         (abs ["gone"; "voiceC.pth"]) [abs ["gone"; "voiceC.index"]]
         (Window pack_fs [])
       = (Window (<[dest_name :: demo_root:=Dir]> pack_fs)
            (rows_of (<[dest_name :: demo_root:=Dir]> pack_fs) demo_root),
          [critical "Copy Error" "Failed to copy model files:" (about_exn e)],
          Ok ())
     ∧ model_row (<[dest_name :: demo_root:=Dir]> pack_fs) (dest_name :: demo_root)
       = Item (dest_name +:+ EMPTY_MARK) (Some "Folder is empty."))
  ∧ dropEvent 3 demo_root (abs ["gone"; "voiceC.pth"]) [] (Window pack_fs [])
    = (Window pack_fs (rows_of pack_fs demo_root),
       [warning "Error" "Path does not exist:"
          (about_path (abs ["gone"; "voiceC.pth"]))], Ok ()).
Proof.
  apply (drop_of_a_pair_without_its_weights_file 3 demo_root
           (abs ["gone"; "voiceC.pth"]) [abs ["gone"; "voiceC.index"]]
           pack_fs [] (abs ["gone"; "voiceC.pth"]) (abs ["gone"; "voiceC.index"])).
  - exact pack_fs_wf.
  - vm_compute; reflexivity.
  - vm_compute; reflexivity.
  - vm_compute; reflexivity.
  - vm_compute; reflexivity.
  - vm_compute; reflexivity.
Defined.
